(** * Reference licenses and license detection rules

    A shallow embedding of [licensedcode/models.py]: the [License] and [Rule]
    entities, the relevance and threshold computations, and the checks of
    the corpus.  Python objects are records, an attribute assignment is an
    explicit new state, and [raise] is the [Raise] case of [result].

    What lives outside of the module (the tokenizer, the expression engine,
    the data file parser, the files of the disk, the two matching
    constants) is a [Variable] of the section that uses it. *)

From stdpp Require Import gmap strings list sorting pretty.
From Stdlib Require Import Ascii QArith Qround.
Close Scope Q_scope.

(** ** Exceptions and fallible computations *)

(** The exception classes that the module raises or lets escape.  The two
    classes declared by the module itself carry their message. *)
Inductive exn : Type :=
  | Exception (msg : string)
  | TypeError
  | ValueError
  | AttributeError
  | NotImplementedError
  | IOError
  | MissingLicenses (msg : string)
  | MissingFlags (msg : string).

Inductive result (A : Type) : Type :=
  | Ok (a : A)
  | Raise (e : exn).
Arguments Ok {A} a.
Arguments Raise {A} e.

#[global] Instance result_ret : MRet result := fun A a => Ok a.
#[global] Instance result_bind : MBind result := fun A B f m =>
  match m with
  | Ok a => f a
  | Raise e => Raise e
  end.
#[global] Instance result_fmap : FMap result := fun A B f m =>
  match m with
  | Ok a => Ok (f a)
  | Raise e => Raise e
  end.

(** ** Python values used by the module *)

(** Truth value of an attribute that holds [None] or a string. *)
Definition truthy (o : option string) : bool :=
  match o with
  | None => false
  | Some s => negb (String.eqb s "")
  end.

(** [int(x)] on a float truncates toward zero. *)
Definition py_int (x : Q) : Z := Z.quot (Qnum x) (Zpos (Qden x)).

(** [round(x, 2)] for a non-negative [x]: nearest multiple of 1/100, halves
    going up. *)
Definition py_round2 (x : Q) : Q :=
  Qmake (Qfloor (Qplus (Qmult x (inject_Z 100)) (Qmake 1 2))) 100.

(** The values of a parsed data file: the loader hands over a mapping from
    attribute names to scalars and lists. *)
Inductive yaml : Type :=
  | YNone
  | YBool (b : bool)
  | YNum (q : Q)
  | YStr (s : string)
  | YList (l : list string).

(** Truth value of a loaded value. *)
Definition yaml_truthy (v : yaml) : bool :=
  match v with
  | YNone => false
  | YBool b => b
  | YNum q => negb (Qeq_bool q (inject_Z 0))
  | YStr s => negb (String.eqb s "")
  | YList l => negb (bool_decide (l = []))
  end.

(** A loaded value kept in a string attribute. *)
Definition yaml_str (v : yaml) : option string :=
  match v with
  | YStr s => Some s
  | _ => None
  end.

(** [x < y] on numbers. *)
Definition Qlt_bool (x y : Q) : bool := negb (Qle_bool y x).

(** [float(v)]: numbers and booleans convert, a string converts when the
    builtin can read it and raises [ValueError] otherwise, [None] and lists
    raise [TypeError]. *)
Definition py_float (float_of_string : string -> option Q) (v : yaml) : result Q :=
  match v with
  | YNum q => Ok q
  | YBool b => Ok (inject_Z (if b then 1 else 0))
  | YStr s =>
      match float_of_string s with
      | Some q => Ok q
      | None => Raise ValueError
      end
  | YNone | YList _ => Raise TypeError
  end.

(** ** Python strings *)

(** Characters that [unicode.strip] removes, among the first 256 code
    points. *)
Definition py_isspace (c : ascii) : bool :=
  let n := nat_of_ascii c in
  ((9 <=? n) && (n <=? 13)) || ((28 <=? n) && (n <=? 32))
  || (n =? 133) || (n =? 160).

Fixpoint lstrip (s : string) : string :=
  match s with
  | EmptyString => EmptyString
  | String c s' => if py_isspace c then lstrip s' else s
  end.

Fixpoint rstrip (s : string) : string :=
  match s with
  | EmptyString => EmptyString
  | String c s' =>
      match rstrip s' with
      | EmptyString => if py_isspace c then EmptyString else String c EmptyString
      | t => String c t
      end
  end.

(** [s.strip()] *)
Definition strip (s : string) : string := rstrip (lstrip s).

(** [s.startswith(prefixes)] for a tuple of prefixes. *)
Definition startswith (s : string) (prefixes : list string) : bool :=
  existsb (fun p => String.prefix p s) prefixes.

(** [c in s] for a character [c]. *)
Fixpoint char_in (c : ascii) (s : string) : bool :=
  match s with
  | EmptyString => false
  | String d s' => Ascii.eqb c d || char_in c s'
  end.

(** [s[:n]] *)
Definition slice_to (n : nat) (s : string) : string := String.substring 0 n s.

Definition newline : ascii := ascii_of_nat 10.
Definition nl : string := String newline EmptyString.

(** [sep.join(parts)] *)
Definition join (sep : string) (parts : list string) : string :=
  String.concat sep parts.

(** [sorted(strings)] *)
Definition sorted (l : list string) : list string :=
  merge_sort (fun a b : string => String.leb a b) l.

(** [s.replace(old, new)] for a non-empty [old]: occurrences are replaced
    from left to right and do not overlap; [skip] counts the characters of
    a matched occurrence that remain to be dropped. *)
Fixpoint replace_aux (old new : string) (skip : nat) (s : string) : string :=
  match s with
  | EmptyString => EmptyString
  | String c s' =>
      match skip with
      | S k => replace_aux old new k s'
      | O =>
          if String.prefix old s
          then new ++ replace_aux old new (String.length old - 1) s'
          else String c (replace_aux old new 0 s')
      end
  end.

Definition replace (old new s : string) : string := replace_aux old new 0 s.

(** An operand of [+] on strings that may be [None]: the concatenation
    raises [TypeError] then. *)
Definition str_operand (o : option string) : result string :=
  match o with
  | Some s => Ok s
  | None => Raise TypeError
  end.

(** [os.path.join(a, b)] of [posixpath]. *)
Definition path_join (a b : string) : string :=
  if String.prefix "/" b then b
  else if String.eqb a "" || String.eqb (String.substring (String.length a - 1) 1 a) "/"
  then a ++ b
  else a ++ "/" ++ b.

(** The files of the disk: a path that is present exists and holds a
    text; the empty path names no file. *)
Definition read_file (fs : gmap string string) (path : string) : option string :=
  if String.eqb path "" then None else fs !! path.

(** [os.path.exists(path)] *)
Definition exists_ (fs : gmap string string) (path : string) : bool :=
  bool_decide (is_Some (read_file fs path)).

(** ** Thresholds *)

(** The [Thresholds] named tuple. *)
Module Thresholds.
Record t : Type := mk {
  high_len : N;
  low_len : N;
  length : N;
  small : bool;
  min_high : N;
  min_len : N
}.
End Thresholds.

(** ** Rules *)

(** The class of a rule object: method calls on [self] select the
    implementation of this class. *)
Inductive rule_class : Type := RuleClass | SpdxRuleClass.

Module Rule.

(** The attributes of a rule.  Token counts are natural numbers; the two
    tuning values are numbers that [load] stores as floats; [expr] is the
    type of the parsed license expressions of the expression engine. *)
Record t (expr : Type) : Type := mk {
    __class__ : rule_class;
    rid : option Z;
    identifier : option string;
    license_expression : option string;
    license_expression_object : option expr;
    is_license_text : bool;
    is_license_notice : bool;
    is_license_reference : bool;
    is_license_tag : bool;
    is_false_positive : bool;
    is_negative : bool;
    minimum_coverage : Q;
    only_known_words : bool;
    relevance : Q;
    has_stored_relevance : bool;
    referenced_filenames : list string;
    notes : option string;
    is_license : bool;
    data_file : option string;
    text_file : option string;
    stored_text : option string;
    length : N;
    high_length : N;
    low_length : N;
    _thresholds : option Thresholds.t;
    high_unique : N;
    low_unique : N;
    length_unique : N;
    _thresholds_unique : option Thresholds.t
}.
Arguments mk {expr}.
Arguments __class__ {expr}.
Arguments rid {expr}.
Arguments identifier {expr}.
Arguments license_expression {expr}.
Arguments license_expression_object {expr}.
Arguments is_license_text {expr}.
Arguments is_license_notice {expr}.
Arguments is_license_reference {expr}.
Arguments is_license_tag {expr}.
Arguments is_false_positive {expr}.
Arguments is_negative {expr}.
Arguments minimum_coverage {expr}.
Arguments only_known_words {expr}.
Arguments relevance {expr}.
Arguments has_stored_relevance {expr}.
Arguments referenced_filenames {expr}.
Arguments notes {expr}.
Arguments is_license {expr}.
Arguments data_file {expr}.
Arguments text_file {expr}.
Arguments stored_text {expr}.
Arguments length {expr}.
Arguments high_length {expr}.
Arguments low_length {expr}.
Arguments _thresholds {expr}.
Arguments high_unique {expr}.
Arguments low_unique {expr}.
Arguments length_unique {expr}.
Arguments _thresholds_unique {expr}.

(** Attribute assignment [self.<name> = v]. *)
Definition set_identifier {expr} (v : option string) (self : t expr) : t expr :=
  let 'mk
    __class__ rid identifier license_expression license_expression_object is_license_text
    is_license_notice is_license_reference is_license_tag is_false_positive is_negative
    minimum_coverage only_known_words relevance has_stored_relevance referenced_filenames notes
    is_license data_file text_file stored_text length high_length low_length _thresholds
    high_unique low_unique length_unique _thresholds_unique := self in
  mk
    __class__ rid v license_expression license_expression_object is_license_text
    is_license_notice is_license_reference is_license_tag is_false_positive is_negative
    minimum_coverage only_known_words relevance has_stored_relevance referenced_filenames notes
    is_license data_file text_file stored_text length high_length low_length _thresholds
    high_unique low_unique length_unique _thresholds_unique.

Definition set_license_expression {expr} (v : option string) (self : t expr) : t expr :=
  let 'mk
    __class__ rid identifier license_expression license_expression_object is_license_text
    is_license_notice is_license_reference is_license_tag is_false_positive is_negative
    minimum_coverage only_known_words relevance has_stored_relevance referenced_filenames notes
    is_license data_file text_file stored_text length high_length low_length _thresholds
    high_unique low_unique length_unique _thresholds_unique := self in
  mk
    __class__ rid identifier v license_expression_object is_license_text is_license_notice
    is_license_reference is_license_tag is_false_positive is_negative minimum_coverage
    only_known_words relevance has_stored_relevance referenced_filenames notes is_license
    data_file text_file stored_text length high_length low_length _thresholds high_unique
    low_unique length_unique _thresholds_unique.

Definition set_license_expression_object {expr} (v : option expr) (self : t expr) : t expr :=
  let 'mk
    __class__ rid identifier license_expression license_expression_object is_license_text
    is_license_notice is_license_reference is_license_tag is_false_positive is_negative
    minimum_coverage only_known_words relevance has_stored_relevance referenced_filenames notes
    is_license data_file text_file stored_text length high_length low_length _thresholds
    high_unique low_unique length_unique _thresholds_unique := self in
  mk
    __class__ rid identifier license_expression v is_license_text is_license_notice
    is_license_reference is_license_tag is_false_positive is_negative minimum_coverage
    only_known_words relevance has_stored_relevance referenced_filenames notes is_license
    data_file text_file stored_text length high_length low_length _thresholds high_unique
    low_unique length_unique _thresholds_unique.

Definition set_is_license_text {expr} (v : bool) (self : t expr) : t expr :=
  let 'mk
    __class__ rid identifier license_expression license_expression_object is_license_text
    is_license_notice is_license_reference is_license_tag is_false_positive is_negative
    minimum_coverage only_known_words relevance has_stored_relevance referenced_filenames notes
    is_license data_file text_file stored_text length high_length low_length _thresholds
    high_unique low_unique length_unique _thresholds_unique := self in
  mk
    __class__ rid identifier license_expression license_expression_object v is_license_notice
    is_license_reference is_license_tag is_false_positive is_negative minimum_coverage
    only_known_words relevance has_stored_relevance referenced_filenames notes is_license
    data_file text_file stored_text length high_length low_length _thresholds high_unique
    low_unique length_unique _thresholds_unique.

Definition set_is_license_notice {expr} (v : bool) (self : t expr) : t expr :=
  let 'mk
    __class__ rid identifier license_expression license_expression_object is_license_text
    is_license_notice is_license_reference is_license_tag is_false_positive is_negative
    minimum_coverage only_known_words relevance has_stored_relevance referenced_filenames notes
    is_license data_file text_file stored_text length high_length low_length _thresholds
    high_unique low_unique length_unique _thresholds_unique := self in
  mk
    __class__ rid identifier license_expression license_expression_object is_license_text v
    is_license_reference is_license_tag is_false_positive is_negative minimum_coverage
    only_known_words relevance has_stored_relevance referenced_filenames notes is_license
    data_file text_file stored_text length high_length low_length _thresholds high_unique
    low_unique length_unique _thresholds_unique.

Definition set_is_license_reference {expr} (v : bool) (self : t expr) : t expr :=
  let 'mk
    __class__ rid identifier license_expression license_expression_object is_license_text
    is_license_notice is_license_reference is_license_tag is_false_positive is_negative
    minimum_coverage only_known_words relevance has_stored_relevance referenced_filenames notes
    is_license data_file text_file stored_text length high_length low_length _thresholds
    high_unique low_unique length_unique _thresholds_unique := self in
  mk
    __class__ rid identifier license_expression license_expression_object is_license_text
    is_license_notice v is_license_tag is_false_positive is_negative minimum_coverage
    only_known_words relevance has_stored_relevance referenced_filenames notes is_license
    data_file text_file stored_text length high_length low_length _thresholds high_unique
    low_unique length_unique _thresholds_unique.

Definition set_is_license_tag {expr} (v : bool) (self : t expr) : t expr :=
  let 'mk
    __class__ rid identifier license_expression license_expression_object is_license_text
    is_license_notice is_license_reference is_license_tag is_false_positive is_negative
    minimum_coverage only_known_words relevance has_stored_relevance referenced_filenames notes
    is_license data_file text_file stored_text length high_length low_length _thresholds
    high_unique low_unique length_unique _thresholds_unique := self in
  mk
    __class__ rid identifier license_expression license_expression_object is_license_text
    is_license_notice is_license_reference v is_false_positive is_negative minimum_coverage
    only_known_words relevance has_stored_relevance referenced_filenames notes is_license
    data_file text_file stored_text length high_length low_length _thresholds high_unique
    low_unique length_unique _thresholds_unique.

Definition set_is_false_positive {expr} (v : bool) (self : t expr) : t expr :=
  let 'mk
    __class__ rid identifier license_expression license_expression_object is_license_text
    is_license_notice is_license_reference is_license_tag is_false_positive is_negative
    minimum_coverage only_known_words relevance has_stored_relevance referenced_filenames notes
    is_license data_file text_file stored_text length high_length low_length _thresholds
    high_unique low_unique length_unique _thresholds_unique := self in
  mk
    __class__ rid identifier license_expression license_expression_object is_license_text
    is_license_notice is_license_reference is_license_tag v is_negative minimum_coverage
    only_known_words relevance has_stored_relevance referenced_filenames notes is_license
    data_file text_file stored_text length high_length low_length _thresholds high_unique
    low_unique length_unique _thresholds_unique.

Definition set_is_negative {expr} (v : bool) (self : t expr) : t expr :=
  let 'mk
    __class__ rid identifier license_expression license_expression_object is_license_text
    is_license_notice is_license_reference is_license_tag is_false_positive is_negative
    minimum_coverage only_known_words relevance has_stored_relevance referenced_filenames notes
    is_license data_file text_file stored_text length high_length low_length _thresholds
    high_unique low_unique length_unique _thresholds_unique := self in
  mk
    __class__ rid identifier license_expression license_expression_object is_license_text
    is_license_notice is_license_reference is_license_tag is_false_positive v minimum_coverage
    only_known_words relevance has_stored_relevance referenced_filenames notes is_license
    data_file text_file stored_text length high_length low_length _thresholds high_unique
    low_unique length_unique _thresholds_unique.

Definition set_minimum_coverage {expr} (v : Q) (self : t expr) : t expr :=
  let 'mk
    __class__ rid identifier license_expression license_expression_object is_license_text
    is_license_notice is_license_reference is_license_tag is_false_positive is_negative
    minimum_coverage only_known_words relevance has_stored_relevance referenced_filenames notes
    is_license data_file text_file stored_text length high_length low_length _thresholds
    high_unique low_unique length_unique _thresholds_unique := self in
  mk
    __class__ rid identifier license_expression license_expression_object is_license_text
    is_license_notice is_license_reference is_license_tag is_false_positive is_negative v
    only_known_words relevance has_stored_relevance referenced_filenames notes is_license
    data_file text_file stored_text length high_length low_length _thresholds high_unique
    low_unique length_unique _thresholds_unique.

Definition set_only_known_words {expr} (v : bool) (self : t expr) : t expr :=
  let 'mk
    __class__ rid identifier license_expression license_expression_object is_license_text
    is_license_notice is_license_reference is_license_tag is_false_positive is_negative
    minimum_coverage only_known_words relevance has_stored_relevance referenced_filenames notes
    is_license data_file text_file stored_text length high_length low_length _thresholds
    high_unique low_unique length_unique _thresholds_unique := self in
  mk
    __class__ rid identifier license_expression license_expression_object is_license_text
    is_license_notice is_license_reference is_license_tag is_false_positive is_negative
    minimum_coverage v relevance has_stored_relevance referenced_filenames notes is_license
    data_file text_file stored_text length high_length low_length _thresholds high_unique
    low_unique length_unique _thresholds_unique.

Definition set_relevance {expr} (v : Q) (self : t expr) : t expr :=
  let 'mk
    __class__ rid identifier license_expression license_expression_object is_license_text
    is_license_notice is_license_reference is_license_tag is_false_positive is_negative
    minimum_coverage only_known_words relevance has_stored_relevance referenced_filenames notes
    is_license data_file text_file stored_text length high_length low_length _thresholds
    high_unique low_unique length_unique _thresholds_unique := self in
  mk
    __class__ rid identifier license_expression license_expression_object is_license_text
    is_license_notice is_license_reference is_license_tag is_false_positive is_negative
    minimum_coverage only_known_words v has_stored_relevance referenced_filenames notes
    is_license data_file text_file stored_text length high_length low_length _thresholds
    high_unique low_unique length_unique _thresholds_unique.

Definition set_has_stored_relevance {expr} (v : bool) (self : t expr) : t expr :=
  let 'mk
    __class__ rid identifier license_expression license_expression_object is_license_text
    is_license_notice is_license_reference is_license_tag is_false_positive is_negative
    minimum_coverage only_known_words relevance has_stored_relevance referenced_filenames notes
    is_license data_file text_file stored_text length high_length low_length _thresholds
    high_unique low_unique length_unique _thresholds_unique := self in
  mk
    __class__ rid identifier license_expression license_expression_object is_license_text
    is_license_notice is_license_reference is_license_tag is_false_positive is_negative
    minimum_coverage only_known_words relevance v referenced_filenames notes is_license
    data_file text_file stored_text length high_length low_length _thresholds high_unique
    low_unique length_unique _thresholds_unique.

Definition set_referenced_filenames {expr} (v : list string) (self : t expr) : t expr :=
  let 'mk
    __class__ rid identifier license_expression license_expression_object is_license_text
    is_license_notice is_license_reference is_license_tag is_false_positive is_negative
    minimum_coverage only_known_words relevance has_stored_relevance referenced_filenames notes
    is_license data_file text_file stored_text length high_length low_length _thresholds
    high_unique low_unique length_unique _thresholds_unique := self in
  mk
    __class__ rid identifier license_expression license_expression_object is_license_text
    is_license_notice is_license_reference is_license_tag is_false_positive is_negative
    minimum_coverage only_known_words relevance has_stored_relevance v notes is_license
    data_file text_file stored_text length high_length low_length _thresholds high_unique
    low_unique length_unique _thresholds_unique.

Definition set_notes {expr} (v : option string) (self : t expr) : t expr :=
  let 'mk
    __class__ rid identifier license_expression license_expression_object is_license_text
    is_license_notice is_license_reference is_license_tag is_false_positive is_negative
    minimum_coverage only_known_words relevance has_stored_relevance referenced_filenames notes
    is_license data_file text_file stored_text length high_length low_length _thresholds
    high_unique low_unique length_unique _thresholds_unique := self in
  mk
    __class__ rid identifier license_expression license_expression_object is_license_text
    is_license_notice is_license_reference is_license_tag is_false_positive is_negative
    minimum_coverage only_known_words relevance has_stored_relevance referenced_filenames v
    is_license data_file text_file stored_text length high_length low_length _thresholds
    high_unique low_unique length_unique _thresholds_unique.

Definition set_length {expr} (v : N) (self : t expr) : t expr :=
  let 'mk
    __class__ rid identifier license_expression license_expression_object is_license_text
    is_license_notice is_license_reference is_license_tag is_false_positive is_negative
    minimum_coverage only_known_words relevance has_stored_relevance referenced_filenames notes
    is_license data_file text_file stored_text length high_length low_length _thresholds
    high_unique low_unique length_unique _thresholds_unique := self in
  mk
    __class__ rid identifier license_expression license_expression_object is_license_text
    is_license_notice is_license_reference is_license_tag is_false_positive is_negative
    minimum_coverage only_known_words relevance has_stored_relevance referenced_filenames notes
    is_license data_file text_file stored_text v high_length low_length _thresholds high_unique
    low_unique length_unique _thresholds_unique.

Definition set_thresholds {expr} (v : option Thresholds.t) (self : t expr) : t expr :=
  let 'mk
    __class__ rid identifier license_expression license_expression_object is_license_text
    is_license_notice is_license_reference is_license_tag is_false_positive is_negative
    minimum_coverage only_known_words relevance has_stored_relevance referenced_filenames notes
    is_license data_file text_file stored_text length high_length low_length _thresholds
    high_unique low_unique length_unique _thresholds_unique := self in
  mk
    __class__ rid identifier license_expression license_expression_object is_license_text
    is_license_notice is_license_reference is_license_tag is_false_positive is_negative
    minimum_coverage only_known_words relevance has_stored_relevance referenced_filenames notes
    is_license data_file text_file stored_text length high_length low_length v high_unique
    low_unique length_unique _thresholds_unique.

Definition set_thresholds_unique {expr} (v : option Thresholds.t) (self : t expr) : t expr :=
  let 'mk
    __class__ rid identifier license_expression license_expression_object is_license_text
    is_license_notice is_license_reference is_license_tag is_false_positive is_negative
    minimum_coverage only_known_words relevance has_stored_relevance referenced_filenames notes
    is_license data_file text_file stored_text length high_length low_length _thresholds
    high_unique low_unique length_unique _thresholds_unique := self in
  mk
    __class__ rid identifier license_expression license_expression_object is_license_text
    is_license_notice is_license_reference is_license_tag is_false_positive is_negative
    minimum_coverage only_known_words relevance has_stored_relevance referenced_filenames notes
    is_license data_file text_file stored_text length high_length low_length _thresholds
    high_unique low_unique length_unique v.

(** [Rule.compute_relevance]: the threshold is 18 words and one word is
    worth [round((1 / 18.0) * 100, 2)], that is 5.56.  The products
    [length * 5.56] for the lengths below the threshold lie at least 0.04
    away from every integer, so truncating the exact product and truncating
    the floating-point product give the same integer. *)
Definition threshold : N := 18.

Definition relevance_of_one_word : Q :=
  py_round2 (Qmult (Qdiv (inject_Z 1) (inject_Z (Z.of_N threshold))) (inject_Z 100)).

Definition compute_relevance {expr} (self : t expr) : t expr :=
  if has_stored_relevance self then self
  else if is_false_positive self then set_relevance (inject_Z 100) self
  else if is_negative self then set_relevance (inject_Z 100) self
  else
    let length := length self in
    if (threshold <=? length)%N then set_relevance (inject_Z 100) self
    else
      let computed := py_int (Qmult (inject_Z (Z.of_N length)) relevance_of_one_word) in
      set_relevance (inject_Z (Z.min 100 computed)) self.

Section methods.
Context {expr : Type}.

(** The collaborators that live outside of the module: the two matching
    constants of the package, the tokenizer, the text loader, the
    expression engine and the files of the disk. *)
Variable MIN_MATCH_LENGTH : N.
Variable MIN_MATCH_HIGH_LENGTH : N.
Variable query_tokenizer : string -> bool -> list string.
Variable numbered_text_lines : string -> list (N * string).
Variable licensing_license_keys : option expr -> bool -> list string.
Variable fs : gmap string string.

(** [Rule.small] *)
Definition small (self : t expr) : bool :=
  let SMALL_RULE := 15%N in
  (length self <? SMALL_RULE)%N || Qeq_bool (minimum_coverage self) (inject_Z 100).

(** The call [self.small()]: [SpdxRule] overrides the method and returns
    [False]. *)
Definition self_small (self : t expr) : bool :=
  match __class__ self with
  | RuleClass => small self
  | SpdxRuleClass => false
  end.

(** [Rule.thresholds]: the tuple and the rule after the call.  A cached
    tuple is returned as it is; otherwise the assignments of the cascade
    are applied in the order of the source. *)
Definition thresholds (self : t expr) : Thresholds.t * t expr :=
  match _thresholds self with
  | Some cached => (cached, self)
  | None =>
      let len := length self in
      let high_len := high_length self in
      let '(min_high, min_len) :=
        if (200 <? len)%N
        then ((high_len / 10)%N, (len / 10)%N)
        else (N.min high_len MIN_MATCH_HIGH_LENGTH, MIN_MATCH_LENGTH) in
      let min_len := if (length self <? 30)%N then (len / 2)%N else min_len in
      let '(min_high, min_len, self) :=
        if (length self <? 10)%N
        then (high_len, len, set_minimum_coverage (inject_Z 80) self)
        else (min_high, min_len, self) in
      let '(min_high, min_len, self) :=
        if (length self <? 3)%N
        then (high_len, len, set_minimum_coverage (inject_Z 100) self)
        else (min_high, min_len, self) in
      let '(min_high, min_len) :=
        if Qeq_bool (minimum_coverage self) (inject_Z 100)
        then (high_len, len)
        else (min_high, min_len) in
      let th :=
        Thresholds.mk high_len (low_length self) len (self_small self) min_high min_len in
      (th, set_thresholds (Some th) self)
  end.

(** [Rule.thresholds_unique] *)
Definition thresholds_unique (self : t expr) : Thresholds.t * t expr :=
  match _thresholds_unique self with
  | Some cached => (cached, self)
  | None =>
      let len := length self in
      let high_uniq := high_unique self in
      let len_unique := length_unique self in
      let '(min_high, min_len) :=
        if (200 <? len)%N
        then ((high_uniq / 10)%N, (len / 10)%N)
        else
          let highu :=
            if (high_uniq / 2 =? 0)%N then high_uniq else (high_uniq / 2)%N in
          (N.min highu MIN_MATCH_HIGH_LENGTH, MIN_MATCH_LENGTH) in
      let '(min_high, min_len) :=
        if (len <? 20)%N then (high_uniq, high_uniq) else (min_high, min_len) in
      let '(min_high, min_len) :=
        if (len <? 10)%N
        then (high_uniq, if (len_unique <? 2)%N then len_unique else (len_unique - 1)%N)
        else (min_high, min_len) in
      let '(min_high, min_len) :=
        if (len <? 5)%N then (high_uniq, len_unique) else (min_high, min_len) in
      let '(min_high, min_len) :=
        if Qeq_bool (minimum_coverage self) (inject_Z 100)
        then (high_uniq, len_unique)
        else (min_high, min_len) in
      let th :=
        Thresholds.mk high_uniq (low_unique self) len_unique (self_small self)
          min_high min_len in
      (th, set_thresholds_unique (Some th) self)
  end.

(** [Rule.text]: the text of the rule file when it exists, else the stored
    text, else an exception. *)
Definition text (self : t expr) : result string :=
  match text_file self ≫= read_file fs with
  | Some content => Ok (join "" (map snd (numbered_text_lines content)))
  | None =>
      if truthy (stored_text self) then Ok (default "" (stored_text self))
      else
        ident ← str_operand (identifier self);
        tf ← str_operand (text_file self);
        Raise (Exception ("Inconsistent rule text for: " ++ ident ++ nl ++ "file://" ++ tf))
  end.

(** [Rule.tokens], run to its end as [list(rule.tokens())] does: the token
    strings and the rule after the call.  The test for a bare URL comes
    before the first token is produced; the length and the relevance are
    set once the tokens are exhausted. *)
Definition tokens (lower : bool) (self : t expr) : result (list string * t expr) :=
  txt ← text self;
  let txt := strip txt in
  let self :=
    if startswith txt ["http://"; "https://"; "ftp://"]
       && negb (char_in newline (slice_to 1000 txt))
    then set_minimum_coverage (inject_Z 100) self
    else self in
  txt ← text self;
  let toks := query_tokenizer txt lower in
  let self := set_length (N.of_nat (Datatypes.length toks)) self in
  Ok (toks, compute_relevance self).

(** [Rule.license_keys] *)
Definition license_keys (unique : bool) (self : t expr) : list string :=
  if negb (truthy (license_expression self)) then []
  else licensing_license_keys (license_expression_object self) unique.

(** [Rule.has_importance_flags] *)
Definition has_importance_flags (self : t expr) : bool :=
  is_license_text self || is_license_notice self
  || is_license_reference self || is_license_tag self.

End methods.

(** [attr.fields_dict(Rule)]: the names of the declared attributes. *)
Definition known_attributes : list string :=
  [ "rid"; "identifier"; "license_expression"; "license_expression_object";
    "is_license_text"; "is_license_notice"; "is_license_reference";
    "is_license_tag"; "is_false_positive"; "is_negative"; "minimum_coverage";
    "only_known_words"; "relevance"; "has_stored_relevance";
    "referenced_filenames"; "notes"; "is_license"; "data_file"; "text_file";
    "stored_text"; "length"; "high_length"; "low_length"; "_thresholds";
    "high_unique"; "low_unique"; "length_unique"; "_thresholds_unique" ].

Section loading.
Context {expr : Type}.

(** The collaborators of loading and construction: the files of the disk,
    the data file parser, the conversion of strings to floats, the printed
    forms of rules, values and strings, the traceback text, the file name
    of a path and the expression engine. *)
Variable fs : gmap string string.
Variable saneyaml_load : string -> result (gmap string yaml).
Variable float_of_string : string -> option Q.
Variable repr : t expr -> string.
Variable str_yaml : yaml -> string.
Variable repr_str : string -> string.
Variable format_exc : exn -> string.
Variable file_name : string -> string.
Variable licensing_parse : string -> result (option expr).
Variable render : expr -> string.

(** [data.get(name, False)] read as a flag. *)
Definition get_flag (data : gmap string yaml) (name : string) : bool :=
  from_option yaml_truthy false (data !! name).

(** The body of [Rule.load] once the data file is parsed into [data]. *)
Definition load_data (data : gmap string yaml) (self : t expr) : result (t expr) :=
  let unknown_attributes :=
    filter (fun k => k ∉ known_attributes) (elements (dom data)) in
  if negb (bool_decide (unknown_attributes = []))
  then Raise (Exception ("License rule " ++ repr self
                         ++ " data file has unknown attributes: "
                         ++ join ", " (sorted unknown_attributes)))
  else
    let self := set_license_expression (data !! "license_expression" ≫= yaml_str) self in
    let self := set_is_negative (get_flag data "is_negative") self in
    let self := set_is_false_positive (get_flag data "is_false_positive") self in
    if negb (truthy (license_expression self))
       && negb (is_negative self || is_false_positive self)
    then Raise (Exception ("License rule " ++ repr self
                           ++ " is missing a license_expression."))
    else
      self ←
        match data !! "relevance" with
        | None | Some YNone => Ok self
        | Some v =>
            let self := set_has_stored_relevance true self in
            rel ← py_float float_of_string v;
            let self := set_relevance rel self in
            if negb (Qlt_bool (inject_Z 0) (relevance self)
                     && Qle_bool (relevance self) (inject_Z 100))
            then Raise (Exception ("License rule " ++ repr self
                                   ++ " data file has an invalid relevance. "
                                   ++ "Should be between 0 and 100: set([])"))
            else Ok self
        end;
      mc ← py_float float_of_string (default (YNum (inject_Z 0)) (data !! "minimum_coverage"));
      let self := set_minimum_coverage mc self in
      if negb (Qle_bool (inject_Z 0) (relevance self)
               && Qle_bool (relevance self) (inject_Z 100))
      then Raise (Exception ("License rule " ++ repr self
                             ++ " data file has an invalid minimum_coverage. "
                             ++ "Should be between 0 and 100: "
                             ++ str_yaml (YNum (minimum_coverage self))))
      else
        let self := set_is_license_text (get_flag data "is_license_text") self in
        let self := set_is_license_notice (get_flag data "is_license_notice") self in
        let self := set_is_license_tag (get_flag data "is_license_tag") self in
        let self := set_is_license_reference (get_flag data "is_license_reference") self in
        let self := set_only_known_words (get_flag data "only_known_words") self in
        self ←
          match data !! "referenced_filenames" with
          | None => Ok (set_referenced_filenames [] self)
          | Some v =>
              if yaml_truthy v
              then
                match v with
                | YList l => Ok (set_referenced_filenames l self)
                | _ => Raise (Exception ("License rule " ++ repr self
                                         ++ " data file has an invalid referenced_filenames. "
                                         ++ "Should be a list: " ++ str_yaml v))
                end
              else Ok (set_referenced_filenames [] self)
          end;
        self ←
          match data !! "notes" with
          | None => Ok self
          | Some v =>
              if yaml_truthy v
              then
                match v with
                | YStr s => Ok (set_notes (Some (strip s)) self)
                | _ => Raise AttributeError
                end
              else Ok self
          end;
        if negb (truthy (notes self)) && (is_negative self || is_false_positive self)
        then Raise (Exception ("Special License rule " ++ repr self
                               ++ " is missing explanatory notes."))
        else Ok self.

(** [Rule.load]: read and parse the data file, then bind the attributes. *)
Definition load (self : t expr) : result (t expr) :=
  df ← str_operand (data_file self);
  data ←
    match read_file fs df with
    | Some content => saneyaml_load content
    | None => Raise IOError
    end;
  load_data data self.

(** [Rule.__attrs_post_init__]: what the constructor runs once the
    attributes are bound. *)
Definition __attrs_post_init__ (self : t expr) : result (t expr) :=
  self ←
    (if negb (truthy (text_file self))
     then
       if negb (truthy (stored_text self))
       then Raise (Exception ("Invalid rule without its corresponding text file: "
                              ++ repr self))
       else
         let n := String.length (default "" (stored_text self)) in
         Ok (set_identifier (Some ("_tst_" +:+ pretty n)) self)
     else Ok (set_identifier (Some (file_name (default "" (text_file self)))) self));
  self ←
    (if truthy (data_file self)
     then
       match load self with
       | Ok loaded => Ok loaded
       | Raise e =>
           Raise (Exception ("While loading: file://" ++ default "" (data_file self)
                             ++ nl ++ format_exc e))
       end
     else Ok self);
  let self :=
    if negb (Qeq_bool (relevance self) (inject_Z 0))
       && negb (Qeq_bool (relevance self) (inject_Z 100))
    then set_has_stored_relevance true self
    else self in
  match license_expression self with
  | Some le =>
      if truthy (Some le)
      then
        match licensing_parse le with
        | Raise e =>
            df ← str_operand (data_file self);
            Raise (Exception ("Unable to parse License rule expression: "
                              ++ repr_str le ++ " for: file://" ++ df
                              ++ nl ++ format_exc e))
        | Ok None =>
            df ← str_operand (data_file self);
            Raise (Exception ("Unable to parse License rule expression: "
                              ++ repr_str le ++ " for: file://" ++ df))
        | Ok (Some expression) =>
            let self := set_license_expression (Some (render expression)) self in
            Ok (set_license_expression_object (Some expression) self)
        end
      else Ok self
  | None => Ok self
  end.
End loading.

(** [data[name] = value] of [to_dict], done when [present] holds. *)
Definition dict_item (present : bool) (name : string) (value : yaml)
  : list (string * yaml) :=
  if present then [(name, value)] else [].

Section persistence.
Context {expr : Type}.

(** The files of the disk, the text loader, the YAML codec and the
    comparisons of the expression engine. *)
Variable fs : gmap string string.
Variable numbered_text_lines : string -> list (N * string).
Variable saneyaml_dump : list (string * yaml) -> string.
Variable licensing_is_equivalent : option expr -> option expr -> bool.
Variable licensing_contains_expression : option expr -> option expr -> bool.

(** [Rule.same_licensing]: [None] when one of the two rules has no license
    expression. *)
Definition same_licensing (self other : t expr) : option bool :=
  if truthy (license_expression self) && truthy (license_expression other)
  then Some (licensing_is_equivalent (license_expression_object self)
               (license_expression_object other))
  else None.

(** [Rule.licensing_contains] *)
Definition licensing_contains (self other : t expr) : option bool :=
  if truthy (license_expression self) && truthy (license_expression other)
  then Some (licensing_contains_expression (license_expression_object self)
               (license_expression_object other))
  else None.

(** [Rule.to_dict]: the ordered mapping of the attributes that are
    persisted; empty and false values are left out.  A number that equals
    its integer part is written as that integer, which is the same
    number. *)
Definition to_dict (self : t expr) : list (string * yaml) :=
  dict_item (truthy (license_expression self)) "license_expression"
    (YStr (default "" (license_expression self)))
  ++ dict_item (is_false_positive self) "is_false_positive" (YBool true)
  ++ dict_item (is_negative self) "is_negative" (YBool true)
  ++ dict_item (is_license_text self) "is_license_text" (YBool true)
  ++ dict_item (is_license_notice self) "is_license_notice" (YBool true)
  ++ dict_item (is_license_reference self) "is_license_reference" (YBool true)
  ++ dict_item (is_license_tag self) "is_license_tag" (YBool true)
  ++ dict_item (only_known_words self) "only_known_words" (YBool true)
  ++ dict_item (has_stored_relevance self) "relevance" (YNum (relevance self))
  ++ dict_item (negb (Qeq_bool (minimum_coverage self) (inject_Z 0)))
       "minimum_coverage" (YNum (minimum_coverage self))
  ++ dict_item (negb (bool_decide (referenced_filenames self = [])))
       "referenced_filenames" (YList (referenced_filenames self))
  ++ dict_item (truthy (notes self)) "notes" (YStr (default "" (notes self))).

(** [Rule.dump]: the files of the disk after the call.  Nothing is written
    for a rule built from a license or for a rule without a data file. *)
Definition dump (self : t expr) : result (gmap string string) :=
  if is_license self then Ok fs
  else
    match data_file self with
    | Some df =>
        if truthy (Some df)
        then
          let as_yaml := saneyaml_dump (to_dict self) in
          let written := <[df := as_yaml]> fs in
          txt ← text numbered_text_lines written self;
          tf ← str_operand (text_file self);
          Ok (<[tf := txt]> written)
        else Ok fs
    | None => Ok fs
    end.

End persistence.

End Rule.

(** ** SPDX rules *)

(** The methods that [SpdxRule] overrides. *)
Module SpdxRule.

Definition load {expr} (self : Rule.t expr) : result (Rule.t expr) :=
  Raise NotImplementedError.

Definition dump {expr} (self : Rule.t expr) : result unit :=
  Raise NotImplementedError.

Definition small {expr} (self : Rule.t expr) : bool := false.

(** [repr(value)] of an attribute that holds [None] or a string. *)
Definition repr_option (repr_str : string -> string) (o : option string) : string :=
  match o with
  | None => "None"
  | Some s => repr_str s
  end.

(** [SpdxRule.__attrs_post_init__] *)
Definition __attrs_post_init__ {expr} (repr_str : string -> string)
    (format_exc : exn -> string)
    (licensing_parse : string -> result (option expr)) (render : expr -> string)
    (self : Rule.t expr) : result (Rule.t expr) :=
  le ← str_operand (Rule.license_expression self);
  let self := Rule.set_identifier (Some ("spdx-license-identifier: " +:+ le)) self in
  let self := Rule.set_has_stored_relevance true self in
  let self := Rule.set_relevance (inject_Z 100) self in
  match licensing_parse le with
  | Raise e =>
      Raise (Exception ("Unable to parse License rule expression: "
                        +:+ repr_str le +:+ " for: file://"
                        +:+ (if truthy (Rule.data_file self)
                             then default "" (Rule.data_file self) else "")
                        +:+ nl +:+ format_exc e))
  | Ok None =>
      Raise (Exception ("Unable to parse License rule expression: "
                        +:+ repr_str le +:+ " for:"
                        +:+ repr_option repr_str (Rule.data_file self)))
  | Ok (Some expression) =>
      let self := Rule.set_license_expression (Some (render expression)) self in
      let self := Rule.set_license_expression_object (Some expression) self in
      Ok (Rule.set_is_license_tag true self)
  end.

End SpdxRule.

(** ** Dictionaries of lists *)

(** A dictionary is a finite map.  A loop over the items of a dictionary
    visits them in the order of [map_to_list]; Python fixes no order, and
    the properties below do not depend on it. *)

(** [d[k]] on a [defaultdict(list)]: a missing key is bound to the empty
    list. *)
Definition dd_touch `{Countable K} {A} (k : K) (d : gmap K (list A)) : gmap K (list A) :=
  match d !! k with
  | Some _ => d
  | None => <[k := []]> d
  end.

(** [d[k].append(v)] on a [defaultdict(list)]. *)
Definition dd_append `{Countable K} {A} (k : K) (v : A) (d : gmap K (list A))
  : gmap K (list A) :=
  <[k := default [] (d !! k) ++ [v]]> d.

(** A loop whose body may raise. *)
Fixpoint for_each {A S} (body : A -> S -> result S) (l : list A) (s : S) : result S :=
  match l with
  | [] => Ok s
  | x :: l' =>
      match body x s with
      | Ok s' => for_each body l' s'
      | Raise e => Raise e
      end
  end.

(** ** Licenses *)

Definition FOSS_CATEGORIES : list string :=
  ["Copyleft"; "Copyleft Limited"; "Patent License"; "Permissive"; "Public Domain"].

Definition OTHER_CATEGORIES : list string :=
  ["Commercial"; "Free Restricted"; "Proprietary Free"; "Unstated License"].

Definition CATEGORIES : list string := FOSS_CATEGORIES ++ OTHER_CATEGORIES.

Module License.

(** The attributes of a license.  The two tuning values are integers, as
    [load] converts them with [int]. *)
Record t : Type := mk {
  key : string;
  src_dir : string;
  is_deprecated : bool;
  language : string;
  short_name : option string;
  name : option string;
  category : option string;
  owner : option string;
  homepage_url : option string;
  notes : option string;
  is_exception : bool;
  spdx_license_key : option string;
  other_spdx_license_keys : list string;
  text_urls : list string;
  osi_url : option string;
  faq_url : option string;
  other_urls : list string;
  key_aliases : list string;
  minimum_coverage : Z;
  relevance : Z;
  standard_notice : option string;
  data_file : option string;
  text_file : option string
}.

Section methods.

(** The files of the disk and the tokenizer. *)
Variable fs : gmap string string.
Variable query_tokenizer : string -> bool -> list string.

(** [License._read_text]: [exists] raises [TypeError] on [None]. *)
Definition _read_text (location : option string) : result string :=
  match location with
  | None => Raise TypeError
  | Some path =>
      match read_file fs path with
      | None => Ok ""
      | Some content => Ok content
      end
  end.

(** The [License.text] property. *)
Definition text (self : t) : result string := _read_text (text_file self).

(** [License.spdx_keys] *)
Definition spdx_keys (self : t) : list string :=
  (if truthy (spdx_license_key self) then [default "" (spdx_license_key self)] else [])
  ++ other_spdx_license_keys self.

(** The dictionaries that [License.validate] fills. *)
Record validation : Type := mkValidation {
  infos : gmap string (list string);
  warnings : gmap string (list string);
  errors : gmap string (list string);
  by_spdx_key : gmap string (list string);
  by_text : gmap (list string) (list string);
  by_short_name : gmap (option string) (list t);
  by_name : gmap (option string) (list t)
}.

Definition empty_validation : validation := mkValidation ∅ ∅ ∅ ∅ ∅ ∅ ∅.

(** [c and v]: append [v] under [k] when [c] holds. *)
Definition append_if {A} (c : bool) (k : string) (v : A) (d : gmap string (list A))
  : gmap string (list A) :=
  if c then dd_append k v d else d.

(** The warnings about URLs of one license. *)
Definition url_warnings (lic : t) (k : string) (w : gmap string (list string))
  : gmap string (list string) :=
  let all_truthy := forallb (fun u => negb (String.eqb u "")) in
  let w := append_if (negb (bool_decide (text_urls lic = [])) && negb (all_truthy (text_urls lic)))
             k "Some empty text_urls values" w in
  let w := append_if (negb (bool_decide (other_urls lic = [])) && negb (all_truthy (other_urls lic)))
             k "Some empty other_urls values" w in
  let w :=
    match homepage_url lic with
    | Some home =>
        if truthy (Some home)
        then
          let w := append_if (bool_decide (home ∈ text_urls lic)) k
                     "Homepage URL also in text_urls" w in
          let w := append_if (bool_decide (home ∈ other_urls lic)) k
                     "Homepage URL also in other_urls" w in
          let w := append_if (bool_decide (homepage_url lic = faq_url lic)) k
                     "Homepage URL same as faq_url" w in
          append_if (bool_decide (homepage_url lic = osi_url lic)) k
            "Homepage URL same as osi_url" w
        else w
    | None => w
    end in
  let w := append_if ((truthy (osi_url lic) || truthy (faq_url lic))
                      && bool_decide (osi_url lic = faq_url lic))
             k "osi_url same as faq_url" w in
  let all_licenses :=
    text_urls lic ++ other_urls lic
    ++ omap (fun url => if truthy url then url else None)
         [osi_url lic; faq_url lic; homepage_url lic] in
  append_if (negb (bool_decide (NoDup all_licenses))) k "Some duplicated URLs" w.

(** The body of the loop over [licenses.items()]. *)
Definition validate_license (no_dupe_urls : bool) (item : string * t) (st : validation)
  : result validation :=
  let '(k, lic) := item in
  let warnings := dd_touch k (warnings st) in
  let infos := dd_touch k (infos st) in
  let errors := dd_touch k (errors st) in
  let by_name := dd_append (name lic) lic (by_name st) in
  let by_short_name := dd_append (short_name lic) lic (by_short_name st) in
  let errors := append_if (negb (truthy (short_name lic))) k "No short name" errors in
  let errors := append_if (negb (truthy (name lic))) k "No name" errors in
  let errors := append_if (negb (truthy (category lic))) k "No category" errors in
  let errors :=
    append_if (truthy (category lic)
               && negb (bool_decide (default "" (category lic) ∈ CATEGORIES)))
      k ("Unknown license category: " +:+ default "" (category lic)) errors in
  let errors := append_if (negb (truthy (owner lic))) k "No owner" errors in
  let warnings := if no_dupe_urls then url_warnings lic k warnings else warnings in
  txt ← text lic;
  let license_qtokens := query_tokenizer txt true in
  let infos :=
    append_if (bool_decide (license_qtokens = [])) k "No license text" infos in
  let by_text :=
    if bool_decide (license_qtokens = []) then by_text st
    else dd_append license_qtokens (k +:+ ": TEXT") (by_text st) in
  let by_spdx_key :=
    foldl (fun d spdx => dd_append spdx k d) (by_spdx_key st) (spdx_keys lic) in
  Ok (mkValidation infos warnings errors by_spdx_key by_text by_short_name by_name).

(** The message of a bucket of licenses under one short name or name;
    a bucket of one license is skipped. *)
Definition duplicate_message (what : string) (item : option string * list t)
    (errors : gmap string (list string)) : result (gmap string (list string)) :=
  let '(value, licenses) := item in
  if (Datatypes.length licenses =? 1)%nat then Ok errors
  else
    v ← str_operand value;
    Ok (dd_append "GLOBAL"
          (what +:+ v +:+ " in licenses:" +:+ join ", " (map key licenses)) errors).

(** [License.validate]: the three dictionaries of messages [(errors,
    warnings, infos)].  Printing under [verbose] does not change the
    result and is left out. *)
Definition validate (licenses : gmap string t) (verbose no_dupe_urls : bool)
  : result (gmap string (list string) * gmap string (list string)
            * gmap string (list string)) :=
  st ← for_each (validate_license no_dupe_urls) (map_to_list licenses) empty_validation;
  let multiple_spdx_keys_used :=
    filter (fun kv => 1 < Datatypes.length kv.2) (by_spdx_key st) in
  let errors :=
    foldl (fun errs kv =>
             dd_append "GLOBAL"
               ("SPDX key: " +:+ kv.1 +:+ " used in multiple licenses: "
                +:+ join ", " (sorted kv.2)) errs)
      (errors st) (map_to_list multiple_spdx_keys_used) in
  let multiple_texts :=
    filter (fun kv => 1 < Datatypes.length kv.2) (by_text st) in
  let errors :=
    foldl (fun errs kv =>
             dd_append "GLOBAL"
               ("Duplicate texts in multiple licenses:" +:+ join ", " (sorted kv.2)) errs)
      errors (map_to_list multiple_texts) in
  errors ← for_each (duplicate_message "Duplicate short name:")
             (map_to_list (by_short_name st)) errors;
  errors ← for_each (duplicate_message "Duplicate name:")
             (map_to_list (by_name st)) errors;
  let nonempty := fun (d : gmap string (list string)) => filter (fun kv => kv.2 ≠ []) d in
  Ok (nonempty errors, nonempty (warnings st), nonempty (infos st)).

End methods.
(** [License.set_file_paths] *)
Definition set_file_paths (self : t) : t :=
  mk (key self) (src_dir self) (is_deprecated self) (language self) (short_name self)
    (name self) (category self) (owner self) (homepage_url self) (notes self)
    (is_exception self) (spdx_license_key self) (other_spdx_license_keys self)
    (text_urls self) (osi_url self) (faq_url self) (other_urls self) (key_aliases self)
    (minimum_coverage self) (relevance self) (standard_notice self)
    (Some (path_join (src_dir self) (key self +:+ ".yml")))
    (Some (path_join (src_dir self) (key self +:+ ".LICENSE"))).

End License.

(** ** Integrity of the rules *)

Section check_rules_integrity.
Context {expr : Type}.

(** The expression engine, and the order in which the members of a set of
    strings are visited. *)
Variable licensing_license_keys : option expr -> bool -> list string.
Variable iter_set : gset string -> list string.

(** The list comprehension of the loop: the license keys of a rule that
    the license map does not have. *)
Definition unknown_keys (licenses_by_key : gmap string License.t) (rule : Rule.t expr)
  : list string :=
  filter (fun k => licenses_by_key !! k = None)
    (Rule.license_keys licensing_license_keys true rule).

(** The test of the loop for the flags: a rule that is neither negative nor
    a false positive and has none of the four importance flags. *)
Definition without_flags (rule : Rule.t expr) : bool :=
  negb (Rule.has_importance_flags rule)
  && negb (Rule.is_negative rule || Rule.is_false_positive rule).

(** The body of the loop over the rules: the unknown keys of each data
    file and the data files of the rules that have no importance flag. *)
Definition scan_rule (licenses_by_key : gmap string License.t)
    (acc : gmap (option string) (gset string) * gset (option string))
    (rule : Rule.t expr)
  : gmap (option string) (gset string) * gset (option string) :=
  let '(invalid_rules, rules_without_flags) := acc in
  let unknown := unknown_keys licenses_by_key rule in
  let invalid_rules :=
    if bool_decide (unknown = []) then invalid_rules
    else
      <[Rule.data_file rule :=
          default ∅ (invalid_rules !! Rule.data_file rule) ∪ list_to_set unknown]>
        invalid_rules in
  let rules_without_flags :=
    if without_flags rule
    then {[Rule.data_file rule]} ∪ rules_without_flags
    else rules_without_flags in
  (invalid_rules, rules_without_flags).

(** The loop over the rules. *)
Definition scan_rules (licenses_by_key : gmap string License.t)
    (rules : list (Rule.t expr))
  : gmap (option string) (gset string) * gset (option string) :=
  foldl (scan_rule licenses_by_key) (∅, ∅) rules.

(** The lines of the message for one data file with unknown keys. *)
Definition missing_licenses_lines (item : option string * gset string) : result string :=
  let '(data_file, keys) := item in
  df ← str_operand data_file;
  Ok (join " " (iter_set keys) +:+ nl
      +:+ "file://" +:+ df +:+ nl
      +:+ "file://" +:+ replace ".yml" ".RULE" df +:+ nl).

(** The lines of the message for one data file without flags. *)
Definition missing_flags_lines (data_file : option string) : result string :=
  df ← str_operand data_file;
  Ok ("file://" +:+ df +:+ nl
      +:+ "file://" +:+ replace ".yml" ".RULE" df +:+ nl).

(** [check_rules_integrity]: returns nothing or raises. *)
Definition check_rules_integrity (rules : list (Rule.t expr))
    (licenses_by_key : gmap string License.t) : result unit :=
  let '(invalid_rules, rules_without_flags) := scan_rules licenses_by_key rules in
  if negb (bool_decide (invalid_rules = ∅))
  then
    lines ← mapM missing_licenses_lines
      (filter (fun item => item.2 ≠ ∅) (map_to_list invalid_rules));
    Raise (MissingLicenses ("Rules referencing missing licenses:" +:+ nl
                            +:+ join nl (sorted lines)))
  else if negb (bool_decide (rules_without_flags = ∅))
  then
    lines ← mapM missing_flags_lines (elements rules_without_flags);
    Raise (MissingFlags ("Rules without is_license_xxx flags:" +:+ nl
                         +:+ join nl (sorted lines)))
  else Ok tt.

End check_rules_integrity.

(** ** Rules built from licenses *)

(** The attributes of a rule before the constructor binds its arguments. *)
Definition default_rule {expr} : Rule.t expr :=
  Rule.mk RuleClass None None None None false false false false false false
    (inject_Z 0) false (inject_Z 100) false [] None false None None None
    0%N 0%N 0%N None 0%N 0%N 0%N None.

Section build_rules_from_licenses.
Context {expr : Type}.

Variable fs : gmap string string.
Variable repr : Rule.t expr -> string.
Variable repr_str : string -> string.
Variable format_exc : exn -> string.
Variable file_name : string -> string.
Variable licensing_parse : string -> result (option expr).
Variable render : expr -> string.
Variable saneyaml_load : string -> result (gmap string yaml).
Variable float_of_string : string -> option Q.
Variable str_yaml : yaml -> string.

(** The call [Rule(text_file=..., license_expression=..., ...)] of
    [build_rules_from_licenses]. *)
Definition license_rule (text_file license_key : string)
    (minimum_coverage relevance : Z) (has_stored_relevance : bool)
  : result (Rule.t expr) :=
  Rule.__attrs_post_init__ fs saneyaml_load float_of_string repr str_yaml repr_str
    format_exc file_name licensing_parse render
    (Rule.mk RuleClass None None (Some license_key) None true false false false
       false false (inject_Z minimum_coverage) false (inject_Z relevance)
       has_stored_relevance [] None true None (Some text_file) None
       0%N 0%N 0%N None 0%N 0%N 0%N None).

(** The body of the loop over [licenses.iteritems()]: the rule that is
    yielded, if any. *)
Definition build_rule_from_license (item : string * License.t)
  : result (option (Rule.t expr)) :=
  let '(license_key, license_obj) := item in
  match License.text_file license_obj with
  | None => Raise AttributeError
  | Some license_text_file =>
      let text_file := path_join (License.src_dir license_obj) license_text_file in
      let minimum_coverage :=
        if (License.minimum_coverage license_obj =? 0)%Z then 0%Z
        else License.minimum_coverage license_obj in
      let has_stored_relevance := negb (License.relevance license_obj =? 100)%Z in
      let relevance :=
        if (License.relevance license_obj =? 0)%Z then 100%Z
        else License.relevance license_obj in
      if exists_ fs text_file
      then
        rule ← license_rule text_file license_key minimum_coverage relevance
                  has_stored_relevance;
        Ok (Some rule)
      else Ok None
  end.

(** [build_rules_from_licenses], run to its end: the rules in the order in
    which they are yielded. *)
Definition build_rules_from_licenses (licenses : gmap string License.t)
  : result (list (Rule.t expr)) :=
  yielded ← mapM build_rule_from_license (map_to_list licenses);
  Ok (omap id yielded).

End build_rules_from_licenses.

(** ** SPDX keys of the licenses *)

Section spdx_keys.
Variable query_tokenizer : string -> bool -> list string.

(** [get_all_spdx_keys], run to its end. *)
Definition get_all_spdx_keys (licenses : gmap string License.t) : list string :=
  mbind License.spdx_keys (map snd (map_to_list licenses)).

(** [get_essential_spdx_tokens] *)
Definition get_essential_spdx_tokens : list string :=
  ["spdx"; "license"; "identifier"; "licenseref"].

(** [get_all_spdx_key_tokens], run to its end; the tokenizer lowers the
    keys, as it does when [lower] is not given. *)
Definition get_all_spdx_key_tokens (licenses : gmap string License.t) : list string :=
  get_essential_spdx_tokens
  ++ mbind (fun spdx_key => query_tokenizer spdx_key true) (get_all_spdx_keys licenses).

End spdx_keys.

(** ** Loading the rules *)

(** The double quote character, as a string. *)
Definition quote : string := String (ascii_of_nat 34) EmptyString.

(** [s.endswith(suffix)] *)
Definition endswith (s suffix : string) : bool :=
  let n := String.length s in
  let m := String.length suffix in
  (m <=? n) && String.eqb (String.substring (n - m) m s) suffix.

(** The accumulators of the loop of [load_rules], with the rules that have
    been yielded. *)
Record rules_scan (expr : Type) : Type := mkRulesScan {
  yielded : list (Rule.t expr);
  seen_files : gset string;
  processed_files : gset string;
  lower_case_files : gset string;
  case_problems : gset string;
  space_problems : list string;
  model_errors : list string
}.
Arguments mkRulesScan {expr}.
Arguments yielded {expr}.
Arguments seen_files {expr}.
Arguments processed_files {expr}.
Arguments lower_case_files {expr}.
Arguments case_problems {expr}.
Arguments space_problems {expr}.
Arguments model_errors {expr}.

Section load_rules.
Context {expr : Type}.

(** The collaborators: the walk of a directory, the base name of a file,
    the lowering of a string, the text of an exception, and those of the
    construction of a rule. *)
Variable resource_iter : string -> list string.
Variable file_base_name : string -> string.
Variable str_lower : string -> string.
Variable str_exn : exn -> string.
Variable fs : gmap string string.
Variable saneyaml_load : string -> result (gmap string yaml).
Variable float_of_string : string -> option Q.
Variable repr : Rule.t expr -> string.
Variable str_yaml : yaml -> string.
Variable repr_str : string -> string.
Variable format_exc : exn -> string.
Variable file_name : string -> string.
Variable licensing_parse : string -> result (option expr).
Variable render : expr -> string.

(** The call [Rule(data_file=data_file, text_file=rule_file)]. *)
Definition file_backed_rule (data_file rule_file : string) : result (Rule.t expr) :=
  Rule.__attrs_post_init__ fs saneyaml_load float_of_string repr str_yaml repr_str
    format_exc file_name licensing_parse render
    (Rule.mk RuleClass None None None None false false false false false false
       (inject_Z 0) false (inject_Z 100) false [] None false
       (Some data_file) (Some rule_file) None
       0%N 0%N 0%N None 0%N 0%N 0%N None).

(** The text file that goes with a data file. *)
Definition rule_file_of (rules_data_dir data_file : string) : string :=
  path_join rules_data_dir (file_base_name data_file +:+ ".RULE").

(** [if name in lower_case_files: case_problems.add(name) else:
    lower_case_files.add(name)] *)
Definition note_lower_case (name : string) (acc : gset string * gset string)
  : gset string * gset string :=
  let '(lower_case_files, case_problems) := acc in
  if bool_decide (name ∈ lower_case_files)
  then (lower_case_files, {[name]} ∪ case_problems)
  else ({[name]} ∪ lower_case_files, case_problems).

(** The body of the loop over the files of the directory. *)
Definition scan_rule_file (rules_data_dir : string) (st : rules_scan expr)
    (data_file : string) : rules_scan expr :=
  let st :=
    if endswith data_file ".yml"
    then
      let base_name := file_base_name data_file in
      let space_problems :=
        if char_in " " base_name then space_problems st ++ [data_file]
        else space_problems st in
      let rule_file := rule_file_of rules_data_dir data_file in
      let '(yielded, model_errors) :=
        match file_backed_rule data_file rule_file with
        | Ok rule => (yielded st ++ [rule], model_errors st)
        | Raise re => (yielded st, model_errors st ++ [str_exn re])
        end in
      let '(lower_case_files, case_problems) :=
        note_lower_case (str_lower rule_file)
          (note_lower_case (str_lower data_file)
             (lower_case_files st, case_problems st)) in
      mkRulesScan yielded (seen_files st)
        ({[data_file]} ∪ {[rule_file]} ∪ processed_files st)
        lower_case_files case_problems space_problems model_errors
    else st in
  if negb (endswith data_file "~")
  then mkRulesScan (yielded st) ({[data_file]} ∪ seen_files st) (processed_files st)
         (lower_case_files st) (case_problems st) (space_problems st) (model_errors st)
  else st.

(** The loop of [load_rules]. *)
Definition scan_rule_files (rules_data_dir : string) : rules_scan expr :=
  foldl (scan_rule_file rules_data_dir) (mkRulesScan [] ∅ ∅ ∅ ∅ [] [])
    (resource_iter rules_data_dir).

(** The message of the exception that ends [load_rules]. *)
Definition load_rules_message (rules_data_dir : string) (model_errors : list string)
    (unknown_files case_problems : gset string) (space_problems : list string) : string :=
  let dir := repr_str rules_data_dir in
  let msg := "" in
  let msg :=
    if negb (bool_decide (model_errors = []))
    then msg +:+ nl +:+ "Invalid rule YAML in directory: " +:+ dir +:+ nl
         +:+ join nl model_errors
    else msg in
  let msg :=
    if negb (bool_decide (unknown_files = ∅))
    then msg +:+ nl +:+ "Orphaned files in rule directory: " +:+ dir +:+ nl
         +:+ join nl (sorted (map (fun f => "file://" +:+ f) (elements unknown_files)))
    else msg in
  let msg :=
    if negb (bool_decide (case_problems = ∅))
    then msg +:+ nl
         +:+ "Rule files with non-unique name ignoring casein rule directory: "
         +:+ dir +:+ nl
         +:+ join nl (sorted (map (fun f => "file://" +:+ f) (elements case_problems)))
    else msg in
  if negb (bool_decide (space_problems = []))
  then msg +:+ nl +:+ "Rule files name cannot contain spaces: " +:+ dir +:+ nl
       +:+ join nl (sorted (map (fun f => quote +:+ "file://" +:+ f +:+ quote)
                              space_problems))
  else msg.

(** [load_rules], run to its end as [list(load_rules(...))] does: the rules
    that are yielded, or the exception that is raised after the last
    one. *)
Definition load_rules (rules_data_dir : string) : result (list (Rule.t expr)) :=
  let st := scan_rule_files rules_data_dir in
  let unknown_files := seen_files st ∖ processed_files st in
  if negb (bool_decide (unknown_files = ∅))
     || negb (bool_decide (case_problems st = ∅))
     || negb (bool_decide (model_errors st = []))
     || negb (bool_decide (space_problems st = []))
  then Raise (Exception (load_rules_message rules_data_dir (model_errors st)
                           unknown_files (case_problems st) (space_problems st)))
  else Ok (yielded st).

(** The licenses of the cache, the expression engine and the order of the
    members of a set, for [get_rules]. *)
Variable get_licenses_db : string -> result (gmap string License.t).
Variable licensing_license_keys : option expr -> bool -> list string.
Variable iter_set : gset string -> list string.

(** [get_rules], run to its end: the rules built from the licenses, then
    the rules of the rule files. *)
Definition get_rules (licenses_data_dir rules_data_dir : string)
  : result (list (Rule.t expr)) :=
  licenses ← get_licenses_db licenses_data_dir;
  rules ← load_rules rules_data_dir;
  _ ← check_rules_integrity licensing_license_keys iter_set rules licenses;
  licenses_as_rules ←
    build_rules_from_licenses fs repr repr_str format_exc file_name licensing_parse
      render saneyaml_load float_of_string str_yaml licenses;
  Ok (licenses_as_rules ++ rules).

End load_rules.

(** ** Loading the licenses *)

(** The accumulators of the loop of [load_licenses]. *)
Record licenses_scan : Type := mkLicensesScan {
  loaded_licenses : gmap string License.t;
  used_files : gset string
}.

Section load_licenses.

(** The collaborators: the walk of a directory, the base name of a file,
    the files of the disk, and the constructor call [License(key,
    src_dir)], which sets the file paths and binds the attributes of the
    data file by name. *)
Variable resource_iter : string -> list string.
Variable file_base_name : string -> string.
Variable fs : gmap string string.
Variable new_license : string -> string -> result License.t.

(** The body of the loop over the sorted files; [exists] raises
    [TypeError] on [None]. *)
Definition load_license_file (licenses_data_dir : string) (with_deprecated : bool)
    (data_file : string) (st : licenses_scan) : result licenses_scan :=
  if endswith data_file ".yml"
  then
    let key := file_base_name data_file in
    lic ← new_license key licenses_data_dir;
    let used_files := {[data_file]} ∪ used_files st in
    used_files ←
      match License.text_file lic with
      | None => Raise TypeError
      | Some text_file =>
          Ok (if exists_ fs text_file then {[text_file]} ∪ used_files else used_files)
      end;
    if negb with_deprecated && License.is_deprecated lic
    then Ok (mkLicensesScan (loaded_licenses st) used_files)
    else Ok (mkLicensesScan (<[key := lic]> (loaded_licenses st)) used_files)
  else Ok st.

(** [load_licenses] *)
Definition load_licenses (licenses_data_dir : string) (with_deprecated : bool)
  : result (gmap string License.t) :=
  let all_files : gset string := list_to_set (resource_iter licenses_data_dir) in
  st ← for_each (load_license_file licenses_data_dir with_deprecated)
         (sorted (elements all_files)) (mkLicensesScan ∅ ∅);
  let dangling := all_files ∖ used_files st in
  if negb (bool_decide (dangling = ∅))
  then
    let msg := "Some License data or text files are orphaned in " +:+ quote
               +:+ licenses_data_dir +:+ quote +:+ "." +:+ nl in
    let msg := msg +:+ join nl (map (fun f => "file://" +:+ f)
                                  (sorted (elements dangling))) in
    Raise (Exception msg)
  else Ok (loaded_licenses st).

End load_licenses.

(** * Vocabulary of the properties *)

(** The relevance that [compute_relevance] derives from a length. *)
Definition relevance_of_length (n : N) : Z :=
  if (18 <=? n)%N then 100 else Z.min 100 (Z.of_N n * 100 / 18).

(** A rule whose relevance is computed from its length: no stored
    relevance, not a false positive and not negative. *)
Definition relevance_from_length {expr} (self : Rule.t expr) : Prop :=
  Rule.has_stored_relevance self = false
  ∧ Rule.is_false_positive self = false
  ∧ Rule.is_negative self = false.

(** No character of the string is removed by [strip]. *)
Fixpoint no_space (s : string) : bool :=
  match s with
  | EmptyString => true
  | String c s' => negb (py_isspace c) && no_space s'
  end.

(** [part] occurs in [whole]. *)
Definition is_substring (part whole : string) : Prop :=
  ∃ before after, whole = before +:+ part +:+ after.

(** The path that [build_rules_from_licenses] tests exists. *)
Definition has_text_file (fs : gmap string string) (item : string * License.t) : bool :=
  exists_ fs (path_join (License.src_dir item.2) (default "" (License.text_file item.2))).

(** What a yielded rule takes from its license. *)
Definition rule_of_license {expr} (item : string * License.t) (rule : Rule.t expr) : Prop :=
  Rule.minimum_coverage rule = inject_Z (License.minimum_coverage item.2)
  ∧ Rule.relevance rule
    = inject_Z (if (License.relevance item.2 =? 0)%Z then 100
                else License.relevance item.2)
  ∧ Rule.is_license rule = true
  ∧ Rule.is_license_text rule = true.

(** The licenses that the loop can turn into rules: a text file path is
    set, and the key of a license whose text file exists parses as a
    license expression. *)
Definition buildable {expr} (fs : gmap string string)
    (licensing_parse : string -> result (option expr)) (item : string * License.t) : Prop :=
  is_Some (License.text_file item.2)
  ∧ (has_text_file fs item = true -> item.1 ≠ "" ->
     ∃ e, licensing_parse item.1 = Ok (Some e)).

(** The data files among the files of a directory. *)
Definition rule_data_files (files : list string) : list string :=
  filter (fun f => endswith f ".yml" = true) files.

(** The lowered names that [load_rules] compares: for each data file, its
    name and the name of its text file. *)
Definition lower_case_names (file_base_name str_lower : string -> string)
    (rules_data_dir : string) (files : list string) : list string :=
  flat_map (fun f => [str_lower f;
                      str_lower (rule_file_of file_base_name rules_data_dir f)])
    (rule_data_files files).

(** The rule of a construction that succeeds, and the text of the exception
    of a construction that fails. *)
Definition built_rule {expr} (r : result (Rule.t expr)) : option (Rule.t expr) :=
  match r with
  | Ok rule => Some rule
  | Raise _ => None
  end.

Definition build_error {expr} (str_exn : exn -> string) (r : result (Rule.t expr))
  : option string :=
  match r with
  | Ok _ => None
  | Raise e => Some (str_exn e)
  end.

(** The checks of [Rule.load] that a rule has to pass to be read back, and
    notes that [strip] leaves as they are. *)
Definition passes_load_checks {expr} (self : Rule.t expr) : Prop :=
  (truthy (Rule.license_expression self) || Rule.is_negative self
   || Rule.is_false_positive self = true)
  ∧ (Rule.has_stored_relevance self = true ->
     Qlt_bool (inject_Z 0) (Rule.relevance self)
     && Qle_bool (Rule.relevance self) (inject_Z 100) = true)
  ∧ (Rule.is_negative self || Rule.is_false_positive self = true ->
     truthy (Rule.notes self) = true)
  ∧ (∀ s, Rule.notes self = Some s -> strip s = s).

(** A rule on which no data file has been loaded yet: no notes, no stored
    relevance, and a relevance between 0 and 100. *)
Definition not_yet_loaded {expr} (self : Rule.t expr) : Prop :=
  Rule.notes self = None
  ∧ Rule.has_stored_relevance self = false
  ∧ Qle_bool (inject_Z 0) (Rule.relevance self)
    && Qle_bool (Rule.relevance self) (inject_Z 100) = true.

(** Every message of the dictionary [d] is a message of [d'] under the
    same key. *)
Definition keeps_messages `{Countable K} {A} (d d' : gmap K (list A)) : Prop :=
  ∀ k msg, msg ∈ default [] (d !! k) -> msg ∈ default [] (d' !! k).

(** The text file of the license of a data file is the existing file
    [path]. *)
Definition text_file_of (file_base_name : string -> string) (fs : gmap string string)
    (new_license : string -> string -> result License.t) (licenses_data_dir : string)
    (data_file path : string) : Prop :=
  ∃ lic, new_license (file_base_name data_file) licenses_data_dir = Ok lic
         ∧ License.text_file lic = Some path
         ∧ exists_ fs path = true.

(** A value that the parser gives for a value that was written, as [load]
    uses it: the same string or list, a value of the same truth for a flag,
    and a value that [float] converts to the same number. *)
Definition read_as (float_of_string : string -> option Q) (written read : yaml) : Prop :=
  match written with
  | YNone => read = YNone
  | YBool b => yaml_truthy read = b
  | YNum q => py_float float_of_string read = Ok q
  | YStr s => read = YStr s
  | YList l => read = YList l
  end.

(** The mapping [data] reads back the attributes that were written: it has
    a value for each of them, read as what was written, and no other
    attribute. *)
Definition reads_back (float_of_string : string -> option Q)
    (written : list (string * yaml)) (data : gmap string yaml) : Prop :=
  ∀ name,
    match (list_to_map written : gmap string yaml) !! name with
    | Some value => ∃ read, data !! name = Some read ∧ read_as float_of_string value read
    | None => data !! name = None
    end.

(** * Sample data *)

(** A tokenizer for the samples: the words between the spaces. *)
Fixpoint words_from (word : string) (s : string) : list string :=
  match s with
  | EmptyString => if String.eqb word "" then [] else [word]
  | String c rest =>
      if py_isspace c
      then (if String.eqb word "" then words_from "" rest
            else word :: words_from "" rest)
      else words_from (word +:+ String c EmptyString) rest
  end.

Definition sample_tokenizer : string -> bool -> list string :=
  fun s _ => words_from "" s.

Definition sample_rule (n : N) : Rule.t unit := Rule.set_length n default_rule.

Definition false_positive_rule : Rule.t unit :=
  Rule.mk RuleClass None (Some "_tst_9") None None false false false false true false
    (inject_Z 0) false (inject_Z 100) false [] (Some "a common phrase") false None None
    (Some "not a gpl")
    3%N 0%N 0%N None 0%N 0%N 0%N None.

Definition full_coverage_rule : Rule.t unit :=
  Rule.mk RuleClass None None None None false true false false false false
    (inject_Z 100) false (inject_Z 100) false [] None false None None (Some "gpl")
    50%N 20%N 30%N None 12%N 18%N 30%N None.

Definition sample_text_lines : string -> list (N * string) := fun s => [(1%N, s)].

(** A rule whose stored text is one URL on a line that ends with a
    newline: 28 characters. *)
Definition url_rule : Rule.t unit :=
  Rule.mk RuleClass None (Some "_tst_28") None None false false true false false false
    (inject_Z 0) false (inject_Z 100) false [] None false None None
    (Some ("https://example.org/license" +:+ nl))
    0%N 0%N 0%N None 0%N 0%N 0%N None.

Definition sample_license (k : string) : License.t :=
  License.mk k "/licenses" false "en" None None None None None None false None [] []
    None None [] [] 0 100 None
    (Some ("/licenses/" +:+ k +:+ ".yml")) (Some ("/licenses/" +:+ k +:+ ".LICENSE")).

Definition over_coverage_data : gmap string yaml :=
  list_to_map
    [ ("license_expression", YStr "mit");
      ("is_license_text", YBool true);
      ("minimum_coverage", YNum (inject_Z 150)) ].

Definition file_rule : Rule.t string :=
  Rule.mk RuleClass None (Some "mit.RULE") None None false false false false false false
    (inject_Z 0) false (inject_Z 100) false [] None false
    (Some "/rules/mit.yml") (Some "/rules/mit.RULE") None
    0%N 0%N 0%N None 0%N 0%N 0%N None.

(** An expression engine for the samples: an expression is the list of its
    keys. *)
Definition sample_license_keys : option (list string) -> bool -> list string :=
  fun expression _ => default [] expression.

Definition rule_with_unknown_key : Rule.t (list string) :=
  Rule.mk RuleClass None (Some "r1.RULE") (Some "foo AND mit") (Some ["foo"; "mit"])
    false true false false false false
    (inject_Z 0) false (inject_Z 100) false [] None false
    (Some "/rules/r1.yml") (Some "/rules/r1.RULE") None
    0%N 0%N 0%N None 0%N 0%N 0%N None.

Definition rule_without_flags : Rule.t (list string) :=
  Rule.mk RuleClass None (Some "r2.RULE") (Some "mit") (Some ["mit"])
    false false false false false false
    (inject_Z 0) false (inject_Z 100) false [] None false
    (Some "/rules/r2.yml") (Some "/rules/r2.RULE") None
    0%N 0%N 0%N None 0%N 0%N 0%N None.

Definition rule_without_data_file : Rule.t (list string) :=
  Rule.mk RuleClass None (Some "_tst_11") (Some "foo") (Some ["foo"])
    false true false false false false
    (inject_Z 0) false (inject_Z 100) false [] None false
    None None (Some "foo license")
    0%N 0%N 0%N None 0%N 0%N 0%N None.

Definition sample_licenses : gmap string License.t :=
  <["mit" := sample_license "mit"]> ∅.

(** Collaborators of the construction of rules for the samples: a license
    expression is kept as its string. *)
Definition sample_repr : Rule.t string -> string :=
  fun rule => "Rule(identifier=" +:+ default "None" (Rule.identifier rule) +:+ ")".

Fixpoint sample_file_name (path : string) : string :=
  match path with
  | EmptyString => EmptyString
  | String c rest =>
      if char_in "/" path
      then (if char_in "/" rest then sample_file_name rest else rest)
      else path
  end.

Definition sample_parse : string -> result (option string) := fun s => Ok (Some s).

Definition sample_build (fs : gmap string string) (licenses : gmap string License.t)
  : result (list (Rule.t string)) :=
  build_rules_from_licenses fs sample_repr id (fun _ => "") sample_file_name
    sample_parse id (fun _ => Ok ∅) (fun _ => None) (fun _ => "") licenses.

Definition sample_fs : gmap string string :=
  <["/licenses/mit.LICENSE" := "Permission is hereby granted"]> ∅.

Definition two_licenses : gmap string License.t :=
  <["mit" := sample_license "mit"]> (<["gpl" := sample_license "gpl"]> ∅).

(** A license with an empty text file and the relevance 0. *)
Definition empty_text_license : License.t :=
  License.mk "a" "/licenses" false "en" (Some "A") (Some "A License") (Some "Permissive")
    (Some "A owner") None None false None [] [] None None [] [] 0 0 None
    (Some "/licenses/a.yml") (Some "/licenses/a.LICENSE").

Definition empty_text_fs : gmap string string :=
  <["/licenses/a.LICENSE" := ""]> (<["/licenses/a.yml" := "key: a"]> ∅).

(** Two licenses with a short name, a name, a category and an owner, and
    the same text. *)
Definition named_license (k short name : string) : License.t :=
  License.mk k "/licenses" false "en" (Some short) (Some name) (Some "Permissive")
    (Some "Example owner") None None false None [] [] None None [] [] 0 100 None
    (Some ("/licenses/" +:+ k +:+ ".yml")) (Some ("/licenses/" +:+ k +:+ ".LICENSE")).

Definition same_text_licenses : gmap string License.t :=
  <["a" := named_license "a" "A" "A License"]>
    (<["b" := named_license "b" "B" "B License"]> ∅).

Definition same_text_fs : gmap string string :=
  <["/licenses/a.LICENSE" := "Permission is hereby granted"]>
    (<["/licenses/b.LICENSE" := "Permission is hereby granted"]> ∅).

(** Two licenses that have no short name. *)
Definition unnamed_licenses : gmap string License.t :=
  <["a" := sample_license "a"]> (<["b" := sample_license "b"]> ∅).

(** A rule of a rule file, with its text in memory. *)
Definition notice_rule : Rule.t string :=
  Rule.mk RuleClass None (Some "mit.RULE") (Some "mit") (Some "mit")
    false true false false false false
    (inject_Z 80) false (inject_Z 90) true ["COPYING"] (Some "seen in headers") false
    (Some "/rules/mit.yml") (Some "/rules/mit.RULE") (Some "MIT License")
    0%N 0%N 0%N None 0%N 0%N 0%N None.

(** A parser for the samples that reads the data of [notice_rule] in
    every data file. *)
Definition sample_yaml_load : string -> result (gmap string yaml) :=
  fun _ => Ok (list_to_map (Rule.to_dict notice_rule)).
(** A rule for an SPDX license expression, before its construction. *)
Definition spdx_rule : Rule.t string :=
  Rule.mk SpdxRuleClass None None (Some "MIT") None false false false false false false
    (inject_Z 0) false (inject_Z 0) false [] None false None None (Some "MIT")
    0%N 0%N 0%N None 0%N 0%N 0%N None.

(** The data of a data file with an attribute that [Rule] does not
    declare, and the data of a data file with a relevance. *)
Definition unknown_attribute_data : gmap string yaml :=
  list_to_map [("license_expression", YStr "mit"); ("licence", YStr "mit")].

Definition stored_relevance_data : gmap string yaml :=
  list_to_map [("license_expression", YStr "mit"); ("relevance", YNum (inject_Z 80))].

(** Collaborators of [load_rules] for the samples: the base name of a path
    is its last segment without its extension, and the text of an
    exception is its message. *)
Fixpoint drop_extension (name : string) : string :=
  match name with
  | EmptyString => EmptyString
  | String c rest =>
      if char_in "." rest then String c (drop_extension rest)
      else if Ascii.eqb c "." then EmptyString
      else String c (drop_extension rest)
  end.

Definition sample_file_base_name (path : string) : string :=
  drop_extension (sample_file_name path).

Definition sample_str_exn (e : exn) : string :=
  match e with
  | Exception msg => msg
  | _ => "error"
  end.

(** A rule directory with an orphaned file, and one with a data file whose
    name holds a space. *)
Definition orphan_walk : string -> list string :=
  fun _ => ["/rules/mit.RULE"; "/rules/mit.yml"; "/rules/notes.txt"].

Definition space_walk : string -> list string :=
  fun _ => ["/rules/my rule.RULE"; "/rules/my rule.yml"].

Definition sample_load_rules (walk : string -> list string) (fs : gmap string string)
  : result (list (Rule.t string)) :=
  load_rules walk sample_file_base_name id sample_str_exn fs (fun _ => Ok ∅)
    (fun _ => None) sample_repr (fun _ => "") id (fun _ => "") sample_file_name
    sample_parse id "/rules".

(** A license directory and a constructor for the samples: the license of
    a key has the paths of the directory. *)
Definition license_walk : string -> list string :=
  fun _ => ["/licenses/mit.yml"; "/licenses/mit.LICENSE"].

Definition sample_new_license : string -> string -> result License.t :=
  fun key _ => Ok (sample_license key).

(** A license directory with a file that belongs to no license. *)
Definition orphan_license_walk : string -> list string :=
  fun _ => ["/licenses/mit.yml"; "/licenses/mit.LICENSE"; "/licenses/README"].

(** A rule directory on the disk with one data file; the text of the data
    file is what [sample_yaml_load] reads as the data of [notice_rule]. *)
Definition rules_fs : gmap string string :=
  <["/rules/mit.yml" := "license_expression: mit"]>
    (<["/rules/mit.RULE" := "MIT License"]> ∅).

(** A data file codec for the samples.  The writer puts one attribute on a
    line, [name: value]: a flag as [yes] or [no], a number as its integer
    part, a list between brackets.  The parser gives flags as flags and
    lists as lists and everything else, numbers too, as strings. *)
Fixpoint decimal (fuel : nat) (n : N) : string :=
  match fuel with
  | O => ""
  | S fuel =>
      (if (n <? 10)%N then "" else decimal fuel (n / 10)%N)
      +:+ String (ascii_of_N (48 + n mod 10)%N) EmptyString
  end.

Definition line_yaml_value (v : yaml) : string :=
  match v with
  | YNone => "null"
  | YBool b => if b then "yes" else "no"
  | YNum q => decimal 20 (Z.to_N (Qfloor q))
  | YStr s => s
  | YList l => "[" +:+ join ", " l +:+ "]"
  end.

Definition line_yaml_dump (data : list (string * yaml)) : string :=
  join nl (map (fun item => item.1 +:+ ": " +:+ line_yaml_value item.2) data).

(** The pieces of a string between the occurrences of a character. *)
Fixpoint split_on (c : ascii) (piece s : string) : list string :=
  match s with
  | EmptyString => [piece]
  | String d rest =>
      if Ascii.eqb c d then piece :: split_on c "" rest
      else split_on c (piece +:+ String d EmptyString) rest
  end.

(** The name and the value of a line: what is before and after the first
    colon and the blank that follows it. *)
Fixpoint split_item (name line : string) : option (string * string) :=
  match line with
  | EmptyString => None
  | String c rest =>
      if Ascii.eqb c ":"
      then Some (name, lstrip rest)
      else split_item (name +:+ String c EmptyString) rest
  end.

Definition line_yaml_read (value : string) : yaml :=
  if String.eqb value "yes" then YBool true
  else if String.eqb value "no" then YBool false
  else if String.eqb value "null" then YNone
  else if String.prefix "[" value
  then YList (map strip
                (split_on "," ""
                   (String.substring 1 (String.length value - 2) value)))
  else YStr value.

Definition line_yaml_load (text : string) : result (gmap string yaml) :=
  items ← mapM (fun line =>
                  match split_item "" line with
                  | Some (name, value) => Ok (name, line_yaml_read value)
                  | None => Raise (Exception ("not an attribute: " +:+ line))
                  end)
             (split_on newline "" text);
  Ok (list_to_map items).

(** [float] for the samples: a string of decimal digits is read as its
    number. *)
Fixpoint digits_value (acc : Z) (s : string) : option Z :=
  match s with
  | EmptyString => Some acc
  | String c rest =>
      let n := Z.of_nat (nat_of_ascii c) in
      if (48 <=? n)%Z && (n <=? 57)%Z then digits_value (acc * 10 + (n - 48)) rest
      else None
  end.

Definition digits_float (s : string) : option Q :=
  if String.eqb s "" then None else inject_Z <$> digits_value 0 s.

(** The data file that the writer makes of [notice_rule], and what the
    parser reads in it. *)
Definition notice_rule_file : string :=
  "license_expression: mit" +:+ nl +:+ "is_license_notice: yes" +:+ nl
  +:+ "relevance: 90" +:+ nl +:+ "minimum_coverage: 80" +:+ nl
  +:+ "referenced_filenames: [COPYING]" +:+ nl +:+ "notes: seen in headers".

Definition notice_rule_data : gmap string yaml :=
  list_to_map
    [ ("license_expression", YStr "mit"); ("is_license_notice", YBool true);
      ("relevance", YStr "90"); ("minimum_coverage", YStr "80");
      ("referenced_filenames", YList ["COPYING"]); ("notes", YStr "seen in headers") ].

(** * Properties of the rules and of the licenses *)

(** ** Attribute reads after attribute writes *)

Section rule_attributes.
Context {expr : Type}.
Implicit Type self : Rule.t expr.

Lemma relevance_set_relevance v self :
  Rule.relevance (Rule.set_relevance v self) = v.
Proof. by destruct self. Qed.

Lemma length_set_relevance v self :
  Rule.length (Rule.set_relevance v self) = Rule.length self.
Proof. by destruct self. Qed.

Lemma minimum_coverage_set_relevance v self :
  Rule.minimum_coverage (Rule.set_relevance v self) = Rule.minimum_coverage self.
Proof. by destruct self. Qed.

Lemma minimum_coverage_set_minimum_coverage v self :
  Rule.minimum_coverage (Rule.set_minimum_coverage v self) = v.
Proof. by destruct self. Qed.

Lemma minimum_coverage_set_length v self :
  Rule.minimum_coverage (Rule.set_length v self) = Rule.minimum_coverage self.
Proof. by destruct self. Qed.

Lemma length_set_minimum_coverage v self :
  Rule.length (Rule.set_minimum_coverage v self) = Rule.length self.
Proof. by destruct self. Qed.

Lemma minimum_coverage_compute_relevance self :
  Rule.minimum_coverage (Rule.compute_relevance self) = Rule.minimum_coverage self.
Proof.
  unfold Rule.compute_relevance.
  repeat case_match; by rewrite ?minimum_coverage_set_relevance.
Qed.

End rule_attributes.

(** ** Relevance *)

Lemma relevance_of_one_word_value : Rule.relevance_of_one_word = Qmake 556 100.
Proof. reflexivity. Qed.

Lemma truncated_product_below_threshold (n : N) :
  (n < 18)%N ->
  Z.min 100 (py_int (Qmult (inject_Z (Z.of_N n)) Rule.relevance_of_one_word))
  = Z.min 100 (Z.of_N n * 100 / 18).
Proof.
  intros Hn.
  assert (Hin : n ∈ (N.of_nat <$> seq 0 18)).
  { apply list_elem_of_fmap. exists (N.to_nat n). split; [by rewrite N2Nat.id|].
    apply elem_of_seq. lia. }
  revert Hin. generalize n. apply Forall_forall. vm_compute.
  repeat constructor.
Qed.

Lemma compute_relevance_from_length {expr} (self : Rule.t expr) :
  relevance_from_length self ->
  Rule.relevance (Rule.compute_relevance self)
  = inject_Z (relevance_of_length (Rule.length self)).
Proof.
  intros (Hs & Hf & Hn).
  unfold Rule.compute_relevance, relevance_of_length, Rule.threshold.
  rewrite Hs, Hf, Hn.
  destruct (18 <=? Rule.length self)%N eqn:Hlen;
    rewrite relevance_set_relevance; [done|].
  f_equal. apply truncated_product_below_threshold. by apply N.leb_gt.
Qed.

Lemma relevance_of_length_mono (n m : N) :
  (n <= m)%N -> (relevance_of_length n <= relevance_of_length m)%Z.
Proof.
  intros Hnm. unfold relevance_of_length.
  destruct (N.leb_spec 18 n), (N.leb_spec 18 m); try lia.
  apply Z.min_le_compat_l, Z.div_le_mono; lia.
Qed.

(** C1. For a rule without stored relevance that is neither a false
    positive nor negative, [compute_relevance] sets the relevance to 100
    when the length is at least 18 and to [min(100, floor(length * 100 /
    18))] when it is below 18; and the relevance so computed does not
    decrease when the length grows. *)
Theorem compute_relevance_length_formula {expr} (r1 r2 : Rule.t expr) :
  relevance_from_length r1 ->
  relevance_from_length r2 ->
  ((18 <= Rule.length r1)%N ->
     Rule.relevance (Rule.compute_relevance r1) = inject_Z 100)
  ∧ ((Rule.length r1 < 18)%N ->
     Rule.relevance (Rule.compute_relevance r1)
     = inject_Z (Z.min 100 (Z.of_N (Rule.length r1) * 100 / 18)))
  ∧ ((Rule.length r1 <= Rule.length r2)%N ->
     Qle (Rule.relevance (Rule.compute_relevance r1))
         (Rule.relevance (Rule.compute_relevance r2))).
Proof.
  intros H1 H2.
  rewrite !compute_relevance_from_length by done.
  unfold relevance_of_length at 1 2.
  repeat split.
  - intros Hlen. by destruct (N.leb_spec 18 (Rule.length r1)); [|lia].
  - intros Hlen. by destruct (N.leb_spec 18 (Rule.length r1)); [lia|].
  - intros Hlen. rewrite <- Zle_Qle. by apply relevance_of_length_mono.
Qed.

Lemma compute_relevance_length_formula_witness :
  relevance_from_length (sample_rule 5)
  ∧ relevance_from_length (sample_rule 20)
  ∧ Rule.relevance (Rule.compute_relevance (sample_rule 5)) = inject_Z 27
  ∧ Qle (Rule.relevance (Rule.compute_relevance (sample_rule 5)))
        (Rule.relevance (Rule.compute_relevance (sample_rule 20))).
Proof.
  assert (H5 : relevance_from_length (sample_rule 5)) by (repeat split; reflexivity).
  assert (H20 : relevance_from_length (sample_rule 20)) by (repeat split; reflexivity).
  destruct (compute_relevance_length_formula (sample_rule 5) (sample_rule 20) H5 H20)
    as (_ & Hbelow & Hmono).
  split; [exact H5|]. split; [exact H20|].
  split; [apply Hbelow; reflexivity|apply Hmono; vm_compute; discriminate].
Defined.

(** C3. For a rule without stored relevance that is a false positive or a
    negative rule, [compute_relevance] sets the relevance to 100 whatever
    the length. *)
Theorem compute_relevance_special_rule {expr} (self : Rule.t expr) :
  Rule.has_stored_relevance self = false ->
  Rule.is_false_positive self = true ∨ Rule.is_negative self = true ->
  Rule.relevance (Rule.compute_relevance self) = inject_Z 100.
Proof.
  intros Hs Hspecial. unfold Rule.compute_relevance. rewrite Hs.
  destruct (Rule.is_false_positive self); [by rewrite relevance_set_relevance|].
  destruct Hspecial as [|Hn]; [done|].
  rewrite Hn. by rewrite relevance_set_relevance.
Qed.

Lemma compute_relevance_special_rule_witness :
  Rule.relevance (Rule.compute_relevance false_positive_rule) = inject_Z 100.
Proof.
  apply (compute_relevance_special_rule false_positive_rule); [reflexivity|].
  left. reflexivity.
Defined.

(** ** Small rules *)

(** C6. [Rule.small] is true exactly when the length is below 15 or the
    minimum coverage equals 100, and [SpdxRule.small] is false; the call
    [self.small()] runs the one or the other according to the class of
    [self]. *)
Theorem small_iff_short_or_full_coverage {expr} (self : Rule.t expr) :
  (Rule.small self = true
   ↔ (Rule.length self < 15)%N ∨ Qeq (Rule.minimum_coverage self) (inject_Z 100))
  ∧ SpdxRule.small self = false
  ∧ Rule.self_small self
    = match Rule.__class__ self with
      | RuleClass => Rule.small self
      | SpdxRuleClass => SpdxRule.small self
      end.
Proof.
  split; [|done].
  unfold Rule.small. rewrite orb_true_iff, N.ltb_lt, Qeq_bool_iff. done.
Qed.

(** ** Thresholds *)

Section thresholds.
Context {expr : Type}.
Variable MIN_MATCH_LENGTH : N.
Variable MIN_MATCH_HIGH_LENGTH : N.

Lemma thresholds_full_coverage (self : Rule.t expr) :
  Qeq (Rule.minimum_coverage self) (inject_Z 100) ->
  Rule._thresholds self = None ->
  let th := (Rule.thresholds MIN_MATCH_LENGTH MIN_MATCH_HIGH_LENGTH self).1 in
  Thresholds.min_high th = Rule.high_length self
  ∧ Thresholds.min_len th = Rule.length self.
Proof.
  intros Hmc Hcache. unfold Rule.thresholds. rewrite Hcache.
  apply Qeq_bool_iff in Hmc.
  destruct (200 <? Rule.length self)%N, (Rule.length self <? 30)%N;
    destruct (Rule.length self <? 10)%N eqn:H10;
    rewrite ?length_set_minimum_coverage, ?H10;
    destruct (Rule.length self <? 3)%N eqn:H3;
    rewrite ?length_set_minimum_coverage, ?H3, ?minimum_coverage_set_minimum_coverage, ?Hmc;
    simpl; try done.
Qed.

Lemma thresholds_unique_full_coverage (self : Rule.t expr) :
  Qeq (Rule.minimum_coverage self) (inject_Z 100) ->
  Rule._thresholds_unique self = None ->
  let th := (Rule.thresholds_unique MIN_MATCH_LENGTH MIN_MATCH_HIGH_LENGTH self).1 in
  Thresholds.min_high th = Rule.high_unique self
  ∧ Thresholds.min_len th = Rule.length_unique self.
Proof.
  intros Hmc Hcache. unfold Rule.thresholds_unique. rewrite Hcache.
  apply Qeq_bool_iff in Hmc. rewrite Hmc.
  by repeat case_match.
Qed.

(** Between 3 and 9 tokens, [thresholds] leaves the minimum coverage at 80,
    whatever it was before. *)
Lemma thresholds_lowers_minimum_coverage (self : Rule.t expr) :
  (3 <= Rule.length self < 10)%N ->
  Rule._thresholds self = None ->
  Rule.minimum_coverage (Rule.thresholds MIN_MATCH_LENGTH MIN_MATCH_HIGH_LENGTH self).2
  = inject_Z 80.
Proof.
  intros [H3 H10] Hcache. unfold Rule.thresholds. rewrite Hcache.
  apply N.ltb_lt in H10. apply N.ltb_ge in H3.
  destruct (200 <? Rule.length self)%N; rewrite H10, length_set_minimum_coverage, H3;
    cbn; by destruct self.
Qed.

End thresholds.

(** C2. For a rule whose minimum coverage equals 100 when [thresholds] and
    [thresholds_unique] are first computed, both tuples have [min_high]
    and [min_len] equal to the full counts of the rule: [high_length] and
    [length] for the one, [high_unique] and [length_unique] for the
    other. *)
Theorem thresholds_of_full_coverage_rule {expr}
    (MIN_MATCH_LENGTH MIN_MATCH_HIGH_LENGTH : N) (self : Rule.t expr) :
  Qeq (Rule.minimum_coverage self) (inject_Z 100) ->
  Rule._thresholds self = None ->
  Rule._thresholds_unique self = None ->
  let th := (Rule.thresholds MIN_MATCH_LENGTH MIN_MATCH_HIGH_LENGTH self).1 in
  let thu := (Rule.thresholds_unique MIN_MATCH_LENGTH MIN_MATCH_HIGH_LENGTH self).1 in
  (Thresholds.min_high th = Rule.high_length self
   ∧ Thresholds.min_len th = Rule.length self)
  ∧ (Thresholds.min_high thu = Rule.high_unique self
     ∧ Thresholds.min_len thu = Rule.length_unique self).
Proof.
  intros Hmc Hcache Hcacheu. split.
  - by apply thresholds_full_coverage.
  - by apply thresholds_unique_full_coverage.
Qed.

Lemma thresholds_of_full_coverage_rule_witness :
  Qeq (Rule.minimum_coverage full_coverage_rule) (inject_Z 100)
  ∧ (Thresholds.min_high (Rule.thresholds 4 3 full_coverage_rule).1 = 20%N
     ∧ Thresholds.min_len (Rule.thresholds 4 3 full_coverage_rule).1 = 50%N)
  ∧ (Thresholds.min_high (Rule.thresholds_unique 4 3 full_coverage_rule).1 = 12%N
     ∧ Thresholds.min_len (Rule.thresholds_unique 4 3 full_coverage_rule).1 = 30%N).
Proof.
  assert (Hmc : Qeq (Rule.minimum_coverage full_coverage_rule) (inject_Z 100))
    by reflexivity.
  split; [exact Hmc|].
  exact (thresholds_of_full_coverage_rule 4 3 full_coverage_rule Hmc eq_refl eq_refl).
Defined.

(** ** Bare URLs *)

Lemma rstrip_cons_not_space c s :
  py_isspace c = false -> rstrip (String c s) = String c (rstrip s).
Proof. intros Hc. simpl. rewrite Hc. by destruct (rstrip s). Qed.

Lemma prefix_rstrip p s :
  no_space p = true -> String.prefix p s = true -> String.prefix p (rstrip s) = true.
Proof.
  revert s. induction p as [|a p IH]; intros s Hp Hpre.
  - by destruct (rstrip s).
  - destruct s as [|b s]; [done|].
    simpl in Hp. apply andb_true_iff in Hp as [Ha Hp].
    apply negb_true_iff in Ha.
    cbn [String.prefix] in Hpre.
    destruct (ascii_dec a b) as [->|]; [|done].
    rewrite rstrip_cons_not_space by done.
    cbn [String.prefix]. destruct (ascii_dec b b); [|done]. by apply IH.
Qed.

Lemma prefix_lstrip p s :
  p ≠ EmptyString -> no_space p = true -> String.prefix p s = true -> lstrip s = s.
Proof.
  intros Hne Hp Hpre. destruct p as [|a p]; [done|]. destruct s as [|b s]; [done|].
  simpl in Hp. apply andb_true_iff in Hp as [Ha _]. apply negb_true_iff in Ha.
  cbn [String.prefix] in Hpre. destruct (ascii_dec a b) as [->|]; [|done].
  simpl. by rewrite Ha.
Qed.

Lemma startswith_strip txt prefixes :
  Forall (fun p => p ≠ EmptyString ∧ no_space p = true) prefixes ->
  startswith txt prefixes = true ->
  startswith (strip txt) prefixes = true.
Proof.
  intros Hall Hstart. unfold startswith in *.
  apply existsb_exists in Hstart as (p & Hin & Hpre).
  apply existsb_exists. exists p. split; [done|].
  apply list_elem_of_In in Hin.
  destruct (proj1 (Forall_forall _ _) Hall p Hin) as [Hne Hp].
  unfold strip. rewrite (prefix_lstrip p txt) by done. by apply prefix_rstrip.
Qed.

Lemma char_in_slice_rstrip c n s :
  char_in c (slice_to n (rstrip s)) = true -> char_in c (slice_to n s) = true.
Proof.
  unfold slice_to. revert n. induction s as [|d s IH]; intros n; [done|].
  destruct n as [|n].
  - by destruct (rstrip (String d s)).
  - simpl. destruct (rstrip s) as [|e t] eqn:Hr.
    + destruct (py_isspace d); simpl.
      * done.
      * destruct n; simpl; rewrite !orb_false_r; intros ->; done.
    + simpl. intros [->|Hin]%orb_true_iff; [done|].
      apply orb_true_iff. right. apply IH. done.
Qed.

Lemma no_newline_rstrip n txt :
  char_in newline (slice_to n txt) = false ->
  char_in newline (slice_to n (rstrip txt)) = false.
Proof.
  intros Hno. apply not_true_is_false. intros Hin.
  apply char_in_slice_rstrip in Hin. congruence.
Qed.

Section tokens.
Context {expr : Type}.
Variable query_tokenizer : string -> bool -> list string.
Variable numbered_text_lines : string -> list (N * string).
Variable fs : gmap string string.

Lemma text_set_minimum_coverage v (self : Rule.t expr) :
  Rule.text numbered_text_lines fs (Rule.set_minimum_coverage v self)
  = Rule.text numbered_text_lines fs self.
Proof. by destruct self. Qed.

(** C5. For a rule whose text, once the white space around it is
    stripped, starts with [http://], [https://] or [ftp://] and has no
    newline within its first 1000 characters, [tokens] runs to its end and
    leaves the minimum coverage at 100. *)
Theorem tokens_bare_url_full_coverage (lower : bool) (self : Rule.t expr) (txt : string) :
  Rule.text numbered_text_lines fs self = Ok txt ->
  startswith (strip txt) ["http://"; "https://"; "ftp://"] = true ->
  char_in newline (slice_to 1000 (strip txt)) = false ->
  ∃ toks self',
    Rule.tokens query_tokenizer numbered_text_lines fs lower self = Ok (toks, self')
    ∧ Rule.minimum_coverage self' = inject_Z 100.
Proof.
  intros Htext Hstart Hline.
  unfold Rule.tokens. rewrite Htext. cbn [mbind result_bind].
  rewrite Hstart, Hline. cbn [negb andb].
  rewrite text_set_minimum_coverage, Htext. cbn [mbind result_bind].
  eexists _, _. split; [reflexivity|].
  by rewrite minimum_coverage_compute_relevance, minimum_coverage_set_length,
    minimum_coverage_set_minimum_coverage.
Qed.

(** The same for a text that starts with the scheme as it is, without
    white space before it: stripping keeps the scheme in front and adds no
    newline. *)
Lemma tokens_bare_url_unpadded (lower : bool) (self : Rule.t expr) (txt : string) :
  Rule.text numbered_text_lines fs self = Ok txt ->
  startswith txt ["http://"; "https://"; "ftp://"] = true ->
  char_in newline (slice_to 1000 txt) = false ->
  ∃ toks self',
    Rule.tokens query_tokenizer numbered_text_lines fs lower self = Ok (toks, self')
    ∧ Rule.minimum_coverage self' = inject_Z 100.
Proof.
  intros Htext Hstart Hline.
  assert (Hschemes : Forall (fun p => p ≠ EmptyString ∧ no_space p = true)
                       ["http://"; "https://"; "ftp://"]).
  { repeat constructor; done. }
  assert (Hstrip : startswith (strip txt) ["http://"; "https://"; "ftp://"] = true)
    by by apply startswith_strip.
  assert (Hnl : char_in newline (slice_to 1000 (strip txt)) = false).
  { unfold strip. apply no_newline_rstrip.
    unfold startswith in Hstart. apply existsb_exists in Hstart as (p & Hin & Hpre).
    apply list_elem_of_In in Hin.
    destruct (proj1 (Forall_forall _ _) Hschemes p Hin) as [Hne Hp].
    by rewrite (prefix_lstrip p txt). }
  unfold Rule.tokens. rewrite Htext. cbn [mbind result_bind].
  rewrite Hstrip, Hnl. cbn [negb andb].
  rewrite text_set_minimum_coverage, Htext. cbn [mbind result_bind].
  eexists _, _. split; [reflexivity|].
  by rewrite minimum_coverage_compute_relevance, minimum_coverage_set_length,
    minimum_coverage_set_minimum_coverage.
Qed.

End tokens.

Lemma tokens_bare_url_full_coverage_witness :
  ∃ toks self',
    Rule.tokens sample_tokenizer sample_text_lines ∅ true url_rule = Ok (toks, self')
    ∧ Rule.minimum_coverage self' = inject_Z 100.
Proof.
  apply (tokens_bare_url_full_coverage sample_tokenizer sample_text_lines ∅ true
           url_rule ("https://example.org/license" +:+ nl)); reflexivity.
Defined.

(** ** Texts of licenses *)

(** C10. For a license whose text file does not exist on the disk, the
    [text] property is the empty string and nothing is raised. *)
Theorem text_of_missing_file_is_empty (fs : gmap string string) (self : License.t)
    (path : string) :
  License.text_file self = Some path ->
  exists_ fs path = false ->
  License.text fs self = Ok "".
Proof.
  intros Hfile Hmissing. unfold License.text, License._read_text. rewrite Hfile.
  unfold exists_ in Hmissing. apply bool_decide_eq_false in Hmissing.
  destruct (read_file fs path); [|done].
  exfalso. apply Hmissing. eauto.
Qed.

Lemma text_of_missing_file_is_empty_witness :
  exists_ ∅ "/licenses/mit.LICENSE" = false
  ∧ License.text ∅ (sample_license "mit") = Ok "".
Proof.
  split; [reflexivity|].
  apply (text_of_missing_file_is_empty ∅ (sample_license "mit") "/licenses/mit.LICENSE");
    reflexivity.
Defined.

(** ** Loading a rule *)

(** C7. A data file whose [minimum_coverage] is 150 loads without an
    error: [load] stores 150 and then tests the relevance, which is still
    100, in the place of the minimum coverage. *)
Theorem load_accepts_minimum_coverage_150
    (float_of_string : string -> option Q) (repr : Rule.t string -> string)
    (str_yaml : yaml -> string) :
  ∃ loaded,
    Rule.load {["/rules/mit.yml" := "minimum_coverage: 150"]}
      (fun _ => Ok over_coverage_data) float_of_string repr str_yaml file_rule
    = Ok loaded
    ∧ Rule.minimum_coverage loaded = inject_Z 150
    ∧ Qle_bool (Rule.minimum_coverage loaded) (inject_Z 100) = false.
Proof. eexists. split; [vm_compute; reflexivity|]. split; reflexivity. Qed.

(** ** Validation of licenses *)

(** C9. For two licenses that have no short name, [validate] raises
    [TypeError]: the message for the shared short name concatenates a
    string and [None]. *)
Theorem validate_raises_without_short_names :
  License.validate ∅ sample_tokenizer unnamed_licenses false false = Raise TypeError.
Proof. vm_compute. reflexivity. Qed.

(** With short names and names in place, the same text in two licenses is
    reported under [GLOBAL] with the keys of both. *)
Lemma validate_reports_duplicate_texts :
  ∃ errors,
    License.validate same_text_fs sample_tokenizer same_text_licenses false false
    = Ok (errors, ∅, ∅)
    ∧ errors !! "GLOBAL"
      = Some ["Duplicate texts in multiple licenses:a: TEXT, b: TEXT"].
Proof. eexists. split; vm_compute; reflexivity. Qed.

(** ** Rules built from licenses *)

Section rules_from_licenses.
Context {expr : Type}.
Variable fs : gmap string string.
Variable repr : Rule.t expr -> string.
Variable repr_str : string -> string.
Variable format_exc : exn -> string.
Variable file_name : string -> string.
Variable licensing_parse : string -> result (option expr).
Variable render : expr -> string.
Variable saneyaml_load : string -> result (gmap string yaml).
Variable float_of_string : string -> option Q.
Variable str_yaml : yaml -> string.

Lemma license_rule_ok text_file license_key minimum_coverage relevance stored :
  text_file ≠ "" ->
  (license_key ≠ "" -> ∃ e, licensing_parse license_key = Ok (Some e)) ->
  ∃ rule,
    license_rule fs repr repr_str format_exc file_name licensing_parse render
      saneyaml_load float_of_string str_yaml
      text_file license_key minimum_coverage relevance stored = Ok rule
    ∧ Rule.minimum_coverage rule = inject_Z minimum_coverage
    ∧ Rule.relevance rule = inject_Z relevance
    ∧ Rule.is_license rule = true
    ∧ Rule.is_license_text rule = true
    ∧ Rule.text_file rule = Some text_file.
Proof.
  intros Htf Hparse.
  unfold license_rule, Rule.__attrs_post_init__. cbn.
  apply String.eqb_neq in Htf. rewrite Htf. cbn.
  destruct (negb (Qeq_bool (inject_Z relevance) (inject_Z 0))
            && negb (Qeq_bool (inject_Z relevance) (inject_Z 100))); cbn.
  all: destruct (String.eqb license_key "") eqn:Hk; cbn.
  all: try (apply String.eqb_neq in Hk; destruct (Hparse Hk) as [e ->]; cbn).
  all: eexists; (split; [reflexivity|]); done.
Qed.

Lemma build_rule_from_license_ok item :
  buildable fs licensing_parse item ->
  if has_text_file fs item
  then ∃ rule,
         build_rule_from_license fs repr repr_str format_exc file_name licensing_parse
           render saneyaml_load float_of_string str_yaml item = Ok (Some rule)
         ∧ rule_of_license item rule
  else build_rule_from_license fs repr repr_str format_exc file_name licensing_parse
         render saneyaml_load float_of_string str_yaml item = Ok None.
Proof.
  destruct item as [k lic]. intros [[tf Htf] Hparse].
  unfold has_text_file, build_rule_from_license in *. cbn [fst snd] in *.
  rewrite Htf in *. cbn [default from_option id] in *.
  destruct (exists_ fs (path_join (License.src_dir lic) tf)) eqn:Hex; [|done].
  assert (Hne : path_join (License.src_dir lic) tf ≠ "").
  { intros Heq. rewrite Heq in Hex. done. }
  destruct (license_rule_ok (path_join (License.src_dir lic) tf) k
              (if (License.minimum_coverage lic =? 0)%Z then 0%Z
               else License.minimum_coverage lic)
              (if (License.relevance lic =? 0)%Z then 100%Z else License.relevance lic)
              (negb (License.relevance lic =? 100)%Z) Hne (Hparse eq_refl))
    as (rule & -> & Hmc & Hrel & Hl & Hlt & _).
  exists rule. split; [done|]. unfold rule_of_license. cbn [snd].
  split_and!; try done.
  rewrite Hmc. by destruct (Z.eqb_spec (License.minimum_coverage lic) 0) as [->|].
Qed.

Lemma build_rules_ok (items : list (string * License.t)) :
  Forall (buildable fs licensing_parse) items ->
  ∃ yielded,
    mapM (build_rule_from_license fs repr repr_str format_exc file_name licensing_parse
            render saneyaml_load float_of_string str_yaml) items = Ok yielded
    ∧ Forall2 rule_of_license (filter (fun item => has_text_file fs item = true) items)
        (omap id yielded).
Proof.
  induction 1 as [|item items Hitem _ (yielded & Hmap & Hall)].
  - exists []. split; [done|]. constructor.
  - pose proof (build_rule_from_license_ok item Hitem) as Hone.
    cbn [mapM]. rewrite Hmap.
    destruct (has_text_file fs item) eqn:Hhas.
    + destruct Hone as (rule & -> & Hrule).
      exists (Some rule :: yielded). split; [done|].
      rewrite filter_cons_True by done. cbn. by constructor.
    + rewrite Hone. exists (None :: yielded). split; [done|].
      rewrite filter_cons_False by (by rewrite Hhas). done.
Qed.

(** C8, amended. When every license has a text file path and the keys
    parse as license expressions, [build_rules_from_licenses] yields
    exactly one rule per license for which the path joined from [src_dir]
    and [text_file] exists, be the file empty or not, in the order of the
    loop; each rule has the minimum coverage of its license, the relevance
    of its license or 100 when that relevance is 0, and [is_license] and
    [is_license_text] set. *)
Theorem build_rules_from_licenses_per_existing_text_file
    (licenses : gmap string License.t) :
  (∀ k lic, licenses !! k = Some lic -> buildable fs licensing_parse (k, lic)) ->
  ∃ rules,
    build_rules_from_licenses fs repr repr_str format_exc file_name licensing_parse
      render saneyaml_load float_of_string str_yaml licenses = Ok rules
    ∧ Forall2 rule_of_license
        (filter (fun item => has_text_file fs item = true) (map_to_list licenses)) rules.
Proof.
  intros Hall. unfold build_rules_from_licenses.
  destruct (build_rules_ok (map_to_list licenses)) as (yielded & -> & Hrules).
  - apply Forall_forall. intros [k lic] Hin. apply Hall.
    by apply elem_of_map_to_list.
  - eexists. split; [reflexivity|done].
Qed.

End rules_from_licenses.

(** ** Integrity of the rules *)

Lemma string_app_assoc (a b c : string) : (a +:+ b) +:+ c = a +:+ (b +:+ c).
Proof.
  induction a as [|x a IH]; [done|].
  change (String x ((a +:+ b) +:+ c) = String x (a +:+ (b +:+ c))). by rewrite IH.
Qed.

Lemma string_app_nil_r (a : string) : a +:+ "" = a.
Proof.
  induction a as [|x a IH]; [done|].
  change (String x (a +:+ "") = String x a). by rewrite IH.
Qed.

Lemma is_substring_refl s : is_substring s s.
Proof. exists "", "". cbn. by rewrite string_app_nil_r. Qed.

Lemma is_substring_app_l part a b : is_substring part a -> is_substring part (a +:+ b).
Proof.
  intros (x & y & ->). exists x, (y +:+ b). by rewrite !string_app_assoc.
Qed.

Lemma is_substring_app_r part a b : is_substring part b -> is_substring part (a +:+ b).
Proof.
  intros (x & y & ->). exists (a +:+ x), y. by rewrite !string_app_assoc.
Qed.

Lemma is_substring_trans a b c : is_substring a b -> is_substring b c -> is_substring a c.
Proof.
  intros (x & y & ->) (x' & y' & ->).
  exists (x' +:+ x), (y +:+ y'). by rewrite !string_app_assoc.
Qed.

Lemma is_substring_join sep x (l : list string) : x ∈ l -> is_substring x (join sep l).
Proof.
  unfold join. induction l as [|y l IH]; intros Hin; [by apply elem_of_nil in Hin|].
  apply elem_of_cons in Hin as [->|Hin].
  - destruct l; [apply is_substring_refl|].
    cbn. apply is_substring_app_l, is_substring_refl.
  - destruct l as [|z l]; [by apply elem_of_nil in Hin|].
    change (String.concat sep (y :: z :: l))
      with (y +:+ sep +:+ String.concat sep (z :: l)).
    by apply is_substring_app_r, is_substring_app_r, IH.
Qed.

Lemma mapM_result_ok {A B} (f : A -> result B) (l : list A) :
  (∀ x, x ∈ l -> ∃ y, f x = Ok y) ->
  ∃ ys, mapM f l = Ok ys ∧ ∀ x y, x ∈ l -> f x = Ok y -> y ∈ ys.
Proof.
  induction l as [|a l IH]; intros Hok.
  - exists []. split; [done|]. intros x y Hin. by apply elem_of_nil in Hin.
  - destruct (Hok a) as [b Hb]; [by left|].
    destruct IH as (ys & Hys & Hin); [intros x Hx; apply Hok; by right|].
    exists (b :: ys). cbn [mapM]. rewrite Hb, Hys. split; [done|].
    intros x y [->|Hx]%elem_of_cons Hfx.
    + rewrite Hb in Hfx. injection Hfx as ->. by left.
    + right. by eapply Hin.
Qed.

Section integrity.
Context {expr : Type}.
Variable licensing_license_keys : option expr -> bool -> list string.
Variable iter_set : gset string -> list string.
Variable licenses_by_key : gmap string License.t.

(** What the loop has collected once it has gone through [rules]. *)
Lemma scan_rules_collects (rules : list (Rule.t expr)) :
  (∀ rule k,
     rule ∈ rules -> k ∈ unknown_keys licensing_license_keys licenses_by_key rule ->
     ∃ keys,
       (scan_rules licensing_license_keys licenses_by_key rules).1
         !! Rule.data_file rule = Some keys
       ∧ k ∈ keys)
  ∧ (∀ data_file keys,
       (scan_rules licensing_license_keys licenses_by_key rules).1 !! data_file
       = Some keys ->
       keys ≠ ∅
       ∧ ∃ rule, rule ∈ rules ∧ Rule.data_file rule = data_file
                 ∧ unknown_keys licensing_license_keys licenses_by_key rule ≠ [])
  ∧ (∀ data_file,
       data_file ∈ (scan_rules licensing_license_keys licenses_by_key rules).2 ↔
       ∃ rule, rule ∈ rules ∧ Rule.data_file rule = data_file
               ∧ without_flags rule = true).
Proof.
  unfold scan_rules.
  induction rules as [|x rules (IH1 & IH2 & IH3)] using rev_ind.
  - cbn. split_and!.
    + intros rule k Hin. by apply elem_of_nil in Hin.
    + intros df keys Hl. by rewrite lookup_empty in Hl.
    + intros df. split; [set_solver|]. intros (rule & Hin & _). by apply elem_of_nil in Hin.
  - rewrite foldl_snoc.
    destruct (foldl (scan_rule licensing_license_keys licenses_by_key) (∅, ∅) rules)
      as [invalid_rules rules_without_flags].
    cbn [fst snd] in *. unfold scan_rule. cbn [fst snd]. split_and!.
    + intros rule k Hin Hk. apply elem_of_app in Hin as [Hin|Hin].
      * destruct (IH1 rule k Hin Hk) as (keys & Hl & Hkeys).
        case_bool_decide; [eauto|].
        destruct (decide (Rule.data_file x = Rule.data_file rule)) as [Heq|Hne].
        -- rewrite Heq, lookup_insert_eq, Hl. eexists. split; [done|].
           apply elem_of_union. by left.
        -- rewrite lookup_insert_ne by done. eauto.
      * apply list_elem_of_singleton in Hin. rewrite Hin in *.
        case_bool_decide as Hnil; [rewrite Hnil in Hk; by apply elem_of_nil in Hk|].
        rewrite lookup_insert_eq. eexists. split; [done|].
        apply elem_of_union. right. by apply elem_of_list_to_set.
    + intros df keys Hl. case_bool_decide as Hnil.
      * destruct (IH2 df keys Hl) as (Hne & rule & Hin & Hdf & Hun).
        split; [done|]. exists rule. split_and!; try done. apply elem_of_app. by left.
      * destruct (decide (Rule.data_file x = df)) as [Heq|Hne].
        -- rewrite Heq, lookup_insert_eq in Hl. injection Hl as Hkeys. split.
           ++ rewrite <- Hkeys.
              destruct (unknown_keys licensing_license_keys licenses_by_key x)
                as [|k ks]; [done|].
              intros Hempty. apply (not_elem_of_empty (C := gset string) k).
              rewrite <- Hempty. apply elem_of_union. right.
              apply elem_of_list_to_set. by left.
           ++ exists x. split_and!; try done. apply elem_of_app. right. by left.
        -- rewrite lookup_insert_ne in Hl by done.
           destruct (IH2 df keys Hl) as (Hne' & rule & Hin & Hdf & Hun).
           split; [done|]. exists rule. split_and!; try done. apply elem_of_app. by left.
    + intros df. destruct (without_flags x) eqn:Hflags.
      * rewrite elem_of_union, elem_of_singleton, IH3. split.
        -- intros [Heq|(rule & Hin & Hdf & Hw)].
           ++ exists x. split_and!; try done. apply elem_of_app. right. by left.
           ++ exists rule. split_and!; try done. apply elem_of_app. by left.
        -- intros (rule & Hin & Hdf & Hw). apply elem_of_app in Hin as [Hin|Hin].
           ++ right. eauto.
           ++ apply list_elem_of_singleton in Hin. left. congruence.
      * rewrite IH3. split.
        -- intros (rule & Hin & Hdf & Hw). exists rule. split_and!; try done.
           apply elem_of_app. by left.
        -- intros (rule & Hin & Hdf & Hw). apply elem_of_app in Hin as [Hin|Hin].
           ++ eauto.
           ++ apply list_elem_of_singleton in Hin. congruence.
Qed.

Lemma is_substring_sep_join sep x (l : list string) :
  x ∈ l -> is_substring (sep +:+ x) (sep +:+ join sep l).
Proof.
  induction l as [|a l IH]; intros Hin; [by apply elem_of_nil in Hin|].
  destruct l as [|b l].
  - apply list_elem_of_singleton in Hin as ->. apply is_substring_refl.
  - change (join sep (a :: b :: l)) with (a +:+ sep +:+ join sep (b :: l)).
    apply elem_of_cons in Hin as [->|Hin].
    + rewrite <- string_app_assoc. apply is_substring_app_l, is_substring_refl.
    + do 2 apply is_substring_app_r. by apply IH.
Qed.

Lemma is_line_of_sorted_lines header line (lines : list string) :
  line ∈ lines ->
  is_substring (nl +:+ line) (header +:+ nl +:+ join nl (sorted lines)).
Proof.
  intros Hin. apply is_substring_app_r, is_substring_sep_join.
  unfold sorted. by rewrite merge_sort_Permutation.
Qed.

(** The keys that the loop has collected for a data file are unknown keys
    of rules of this data file. *)
Lemma scan_rules_keys_of_data_file (rules : list (Rule.t expr)) data_file keys k :
  (scan_rules licensing_license_keys licenses_by_key rules).1 !! data_file = Some keys ->
  k ∈ keys ->
  ∃ rule, rule ∈ rules ∧ Rule.data_file rule = data_file
          ∧ k ∈ unknown_keys licensing_license_keys licenses_by_key rule.
Proof.
  unfold scan_rules. revert keys.
  induction rules as [|x rules IH] using rev_ind; intros keys.
  - cbn. by rewrite lookup_empty.
  - rewrite foldl_snoc.
    destruct (foldl (scan_rule licensing_license_keys licenses_by_key) (∅, ∅) rules)
      as [invalid_rules rules_without_flags].
    cbn [fst snd] in *. unfold scan_rule. cbn [fst snd].
    assert (Hold : ∀ keys', invalid_rules !! data_file = Some keys' -> k ∈ keys' ->
              ∃ rule, rule ∈ rules ++ [x] ∧ Rule.data_file rule = data_file
                      ∧ k ∈ unknown_keys licensing_license_keys licenses_by_key rule).
    { intros keys' Hl Hk. destruct (IH keys' Hl Hk) as (rule & Hin & Hrest).
      exists rule. split; [|done]. apply elem_of_app. by left. }
    case_bool_decide as Hnil; [apply Hold|].
    destruct (decide (Rule.data_file x = data_file)) as [Heq|Hne].
    + rewrite Heq, lookup_insert_eq. intros [= <-] [Hk|Hk]%elem_of_union.
      * destruct (invalid_rules !! data_file) as [keys'|] eqn:Hl;
          [by eapply Hold|by apply not_elem_of_empty in Hk].
      * exists x. split_and!; [|done|by apply elem_of_list_to_set in Hk].
        apply elem_of_app. right. by left.
    + rewrite lookup_insert_ne by done. apply Hold.
Qed.

(** C4, amended. [check_rules_integrity] goes through all the rules.  If
    a rule references a key that the license map does not have, and every
    such rule has a data file, it raises one [MissingLicenses] error.  For
    every such rule the message has the lines of its data file: a line
    that lists, separated by blanks, the unknown keys of the rules of this
    data file and no other key, then the line of the data file and the
    line of its rule file.  If no rule references an unknown key, a rule
    that is neither negative nor a false positive has none of the four
    importance flags, and every such rule has a data file, it raises the
    other error, [MissingFlags], whose message has the line of the data
    file and the line of the rule file of every such rule. *)
Theorem check_rules_integrity_reports_missing_licenses (rules : list (Rule.t expr)) :
  (∀ keys k, k ∈ iter_set keys ↔ k ∈ keys) ->
  ((∃ rule, rule ∈ rules
            ∧ unknown_keys licensing_license_keys licenses_by_key rule ≠ []) ->
   (∀ rule, rule ∈ rules ->
            unknown_keys licensing_license_keys licenses_by_key rule ≠ [] ->
            is_Some (Rule.data_file rule)) ->
   ∃ msg,
     check_rules_integrity licensing_license_keys iter_set rules licenses_by_key
     = Raise (MissingLicenses msg)
     ∧ ∀ rule k data_file,
         rule ∈ rules ->
         k ∈ unknown_keys licensing_license_keys licenses_by_key rule ->
         Rule.data_file rule = Some data_file ->
         ∃ listed,
           k ∈ listed
           ∧ (∀ k', k' ∈ listed ↔
                ∃ rule', rule' ∈ rules ∧ Rule.data_file rule' = Some data_file
                         ∧ k' ∈ unknown_keys licensing_license_keys licenses_by_key
                                  rule')
           ∧ is_substring
               (nl +:+ join " " listed +:+ nl
                +:+ "file://" +:+ data_file +:+ nl
                +:+ "file://" +:+ replace ".yml" ".RULE" data_file +:+ nl) msg)
  ∧ ((∀ rule, rule ∈ rules ->
              unknown_keys licensing_license_keys licenses_by_key rule = []) ->
     (∃ rule, rule ∈ rules ∧ without_flags rule = true) ->
     (∀ rule, rule ∈ rules -> without_flags rule = true ->
              is_Some (Rule.data_file rule)) ->
     ∃ msg,
       check_rules_integrity licensing_license_keys iter_set rules licenses_by_key
       = Raise (MissingFlags msg)
       ∧ (∀ other, MissingFlags msg ≠ MissingLicenses other)
       ∧ ∀ rule data_file,
           rule ∈ rules -> without_flags rule = true ->
           Rule.data_file rule = Some data_file ->
           is_substring
             (nl +:+ "file://" +:+ data_file +:+ nl
              +:+ "file://" +:+ replace ".yml" ".RULE" data_file +:+ nl) msg).
Proof.
  intros Hiter.
  pose proof (scan_rules_collects rules) as (Hkeys & Hentries & Hflags).
  pose proof (scan_rules_keys_of_data_file rules) as Hsound.
  unfold check_rules_integrity.
  destruct (scan_rules licensing_license_keys licenses_by_key rules)
    as [invalid_rules rules_without_flags].
  cbn [fst snd] in *. split.
  - intros (bad & Hbad & Hunknown) Hfiles.
    assert (Hne : invalid_rules ≠ ∅).
    { destruct (unknown_keys licensing_license_keys licenses_by_key bad)
        as [|k ks] eqn:Hks; [done|].
      destruct (Hkeys bad k Hbad) as (keys & Hl & _); [rewrite Hks; by left|].
      intros Hempty. by rewrite Hempty, lookup_empty in Hl. }
    rewrite bool_decide_false by done. cbn [negb].
    destruct (mapM_result_ok (missing_licenses_lines iter_set)
                (filter (fun item => item.2 ≠ ∅) (map_to_list invalid_rules)))
      as (lines & Hmap & Hlines).
    { intros [df keys] [_ Hin]%list_elem_of_filter.
      apply elem_of_map_to_list in Hin.
      destruct (Hentries df keys Hin) as (_ & rule & Hrule & Hdf & Hun).
      destruct (Hfiles rule Hrule Hun) as [d Hd].
      unfold missing_licenses_lines. rewrite <- Hdf, Hd. cbn. eauto. }
    rewrite Hmap. cbn [mbind result_bind]. eexists. split; [reflexivity|].
    intros rule k df Hrule Hk Hdf.
    destruct (Hkeys rule k Hrule Hk) as (keys & Hl & Hkin). rewrite Hdf in Hl.
    exists (iter_set keys). split_and!.
    + by apply Hiter.
    + intros k'. rewrite Hiter. split; [by apply (Hsound (Some df) keys)|].
      intros (rule' & Hrule' & Hdf' & Hk').
      destruct (Hkeys rule' k' Hrule' Hk') as (keys' & Hl' & Hkin').
      rewrite Hdf' in Hl'. congruence.
    + apply is_line_of_sorted_lines.
      apply (Hlines (Some df, keys)).
      * apply list_elem_of_filter. split; [|by apply elem_of_map_to_list].
        cbn. intros Hempty. rewrite Hempty in Hkin. by apply not_elem_of_empty in Hkin.
      * reflexivity.
  - intros Hknown (bad & Hbad & Hwithout) Hfiles.
    assert (Hempty : invalid_rules = ∅).
    { apply map_empty. intros df. destruct (invalid_rules !! df) as [keys|] eqn:Hl; [|done].
      destruct (Hentries df keys Hl) as (_ & rule & Hrule & _ & Hun).
      by rewrite Hknown in Hun. }
    rewrite bool_decide_true by done. cbn [negb].
    assert (Hne : rules_without_flags ≠ ∅).
    { intros Hnone.
      assert (Rule.data_file bad ∈ rules_without_flags) as Hin by (apply Hflags; eauto).
      rewrite Hnone in Hin. by apply not_elem_of_empty in Hin. }
    rewrite bool_decide_false by done. cbn [negb].
    destruct (mapM_result_ok missing_flags_lines (elements rules_without_flags))
      as (lines & Hmap & Hlines).
    { intros df Hin%elem_of_elements.
      apply Hflags in Hin as (rule & Hrule & Hdf & Hw).
      destruct (Hfiles rule Hrule Hw) as [d Hd].
      unfold missing_flags_lines. rewrite <- Hdf, Hd. cbn. eauto. }
    rewrite Hmap. cbn [mbind result_bind]. eexists. split; [reflexivity|].
    split; [done|].
    intros rule df Hrule Hw Hdf.
    apply is_line_of_sorted_lines.
    apply (Hlines (Some df)).
    + apply elem_of_elements, Hflags. eauto.
    + reflexivity.
Qed.

End integrity.


Lemma check_rules_integrity_reports_missing_licenses_witness :
  ∃ msg,
    check_rules_integrity sample_license_keys elements
      [rule_with_unknown_key; rule_without_flags] sample_licenses
    = Raise (MissingLicenses msg)
    ∧ ∃ listed,
        "foo" ∈ listed
        ∧ is_substring
            (nl +:+ join " " listed +:+ nl +:+ "file:///rules/r1.yml" +:+ nl
             +:+ "file:///rules/r1.RULE" +:+ nl) msg.
Proof.
  destruct (check_rules_integrity_reports_missing_licenses sample_license_keys elements
              sample_licenses [rule_with_unknown_key; rule_without_flags])
    as [Hmissing _].
  - intros keys k. apply elem_of_elements.
  - destruct Hmissing as (msg & Hraise & Hnames).
    + exists rule_with_unknown_key. split; [by left|]. vm_compute. discriminate.
    + intros rule [->|[->|Hin]%elem_of_cons]%elem_of_cons _;
        [by eexists|by eexists|by apply elem_of_nil in Hin].
    + exists msg. split; [exact Hraise|].
      destruct (Hnames rule_with_unknown_key "foo" "/rules/r1.yml")
        as (listed & Hfoo & _ & Hblock).
      * by left.
      * vm_compute. by left.
      * reflexivity.
      * exists listed. split; [exact Hfoo|exact Hblock].
Defined.

(** For a rule that references an unknown key and has no data file, the
    error is not [MissingLicenses]: building the message raises
    [TypeError]. *)
Lemma check_rules_integrity_without_data_file :
  unknown_keys sample_license_keys sample_licenses rule_without_data_file = ["foo"]
  ∧ check_rules_integrity sample_license_keys elements
      [rule_without_data_file] sample_licenses
    = Raise TypeError.
Proof. split; vm_compute; reflexivity. Qed.

Lemma build_rules_from_licenses_per_existing_text_file_witness :
  ∃ rules,
    sample_build sample_fs two_licenses = Ok rules
    ∧ Forall2 (rule_of_license (expr := string))
        (filter (fun item => has_text_file sample_fs item = true)
           (map_to_list two_licenses)) rules.
Proof.
  apply (build_rules_from_licenses_per_existing_text_file sample_fs sample_repr id
           (fun _ => "") sample_file_name sample_parse id (fun _ => Ok ∅)
           (fun _ => None) (fun _ => "") two_licenses).
  intros k lic Hl. split.
  - apply elem_of_map_to_list in Hl. revert Hl. vm_compute.
    intros [Heq|[Heq|Hnil]%elem_of_cons]%elem_of_cons.
    + injection Heq as -> ->. by eexists.
    + injection Heq as -> ->. by eexists.
    + by apply elem_of_nil in Hnil.
  - intros _ _. by eexists.
Defined.

(** For this license a rule is yielded although its text file is empty,
    and the relevance of the rule is 100, not the relevance 0 of the
    license. *)
Lemma build_rules_from_licenses_empty_text_and_zero_relevance :
  License.text empty_text_fs empty_text_license = Ok ""
  ∧ License.relevance empty_text_license = 0%Z
  ∧ ∃ rule,
      sample_build empty_text_fs (<["a" := empty_text_license]> ∅) = Ok [rule]
      ∧ Rule.relevance rule = inject_Z 100.
Proof.
  split; [reflexivity|]. split; [reflexivity|].
  eexists. split; vm_compute; reflexivity.
Qed.

(** ** Licenses without a short name *)

Lemma for_each_raise_only {A S} (body : A -> S -> result S) (raised : exn) l s e :
  (∀ x s' e', body x s' = Raise e' -> e' = raised) ->
  for_each body l s = Raise e -> e = raised.
Proof.
  intros Honly. revert s. induction l as [|x l IH]; intros s; [done|].
  cbn. destruct (body x s) as [s'|e'] eqn:Hx; [apply IH|].
  intros [= <-]. by eapply Honly.
Qed.

Lemma for_each_raises {A S} (body : A -> S -> result S) (raised : exn) l s x :
  x ∈ l ->
  (∀ s', body x s' = Raise raised) ->
  (∀ y s' e, body y s' = Raise e -> e = raised) ->
  for_each body l s = Raise raised.
Proof.
  intros Hin Hx Honly. revert s. induction l as [|y l IH]; intros s.
  - by apply elem_of_nil in Hin.
  - cbn. apply elem_of_cons in Hin as [<-|Hin].
    + by rewrite Hx.
    + destruct (body y s) as [s'|e] eqn:Hy; [by apply IH|].
      f_equal. by eapply Honly.
Qed.

Lemma two_members_length {A} (l : list A) x y :
  x ∈ l -> y ∈ l -> x ≠ y -> 2 <= Datatypes.length l.
Proof.
  intros Hx Hy Hne. destruct l as [|a [|b l]]; cbn; [| |lia].
  - by apply elem_of_nil in Hx.
  - apply list_elem_of_singleton in Hx, Hy. congruence.
Qed.

Section validation.
Variable fs : gmap string string.
Variable query_tokenizer : string -> bool -> list string.

Lemma validate_license_raise_only no_dupe_urls item st e :
  License.validate_license fs query_tokenizer no_dupe_urls item st = Raise e ->
  e = TypeError.
Proof.
  destruct item as [k lic]. unfold License.validate_license, License.text.
  destruct (License.text_file lic) as [path|]; cbn; [|by intros [= <-]].
  by destruct (read_file fs path).
Qed.

Lemma validate_license_by_short_name no_dupe_urls item st st' :
  License.validate_license fs query_tokenizer no_dupe_urls item st = Ok st' ->
  License.by_short_name st'
  = dd_append (License.short_name item.2) item.2 (License.by_short_name st).
Proof.
  destruct item as [k lic]. unfold License.validate_license.
  destruct (License.text fs lic); cbn; [|done]. by intros [= <-].
Qed.

Lemma for_each_by_short_name no_dupe_urls items st st' :
  for_each (License.validate_license fs query_tokenizer no_dupe_urls) items st = Ok st' ->
  License.by_short_name st'
  = foldl (fun d (item : string * License.t) =>
             dd_append (License.short_name item.2) item.2 d)
      (License.by_short_name st) items.
Proof.
  revert st. induction items as [|item items IH]; intros st; cbn.
  - by intros [= <-].
  - destruct (License.validate_license fs query_tokenizer no_dupe_urls item st)
      as [st1|] eqn:Hitem; [|done].
    intros Hrest. rewrite (IH _ Hrest).
    by rewrite (validate_license_by_short_name _ _ _ _ Hitem).
Qed.

Lemma short_name_bucket_length (items : list (string * License.t)) d short :
  Datatypes.length
    (default [] (foldl (fun d (item : string * License.t) =>
                          dd_append (License.short_name item.2) item.2 d) d items
                 !! short))
  = Datatypes.length (default [] (d !! short))
    + Datatypes.length (filter (fun item => License.short_name item.2 = short) items).
Proof.
  revert d. induction items as [|item items IH]; intros d; cbn; [lia|].
  rewrite IH. unfold dd_append.
  destruct (decide (License.short_name item.2 = short)) as [Heq|Hne].
  - rewrite Heq, lookup_insert_eq. cbn. rewrite length_app. cbn. by rewrite <- Nat.add_assoc.
  - rewrite lookup_insert_ne by done. by rewrite Nat.add_0_r || done.
Qed.

Lemma duplicate_message_raise_only what item errors e :
  License.duplicate_message what item errors = Raise e -> e = TypeError.
Proof.
  destruct item as [[value|] licenses]; unfold License.duplicate_message;
    destruct (Datatypes.length licenses =? 1); cbn; try done.
  by intros [= <-].
Qed.

(** X20. [validate] raises [TypeError] on every map that holds two
    licenses without a short name: the message for the short name that they
    share concatenates a string and [None]. *)
Lemma validate_raises_for_two_missing_short_names
    (licenses : gmap string License.t) (verbose no_dupe_urls : bool) k1 k2 lic1 lic2 :
  k1 ≠ k2 ->
  licenses !! k1 = Some lic1 -> License.short_name lic1 = None ->
  licenses !! k2 = Some lic2 -> License.short_name lic2 = None ->
  License.validate fs query_tokenizer licenses verbose no_dupe_urls = Raise TypeError.
Proof.
  intros Hne H1 Hs1 H2 Hs2. unfold License.validate.
  destruct (for_each _ (map_to_list licenses) License.empty_validation)
    as [st|e] eqn:Hloop.
  - cbn [mbind result_bind].
    pose proof (for_each_by_short_name _ _ _ _ Hloop) as Hby.
    pose proof (short_name_bucket_length (map_to_list licenses)
                  (License.by_short_name License.empty_validation) None) as Hlen.
    rewrite <- Hby in Hlen. cbn [License.by_short_name License.empty_validation] in Hlen.
    rewrite lookup_empty in Hlen. cbn [default from_option Datatypes.length Nat.add] in Hlen.
    match type of Hlen with
    | _ = Datatypes.length ?without =>
        assert (Htwo : 2 <= Datatypes.length without)
    end.
    { apply (two_members_length _ (k1, lic1) (k2, lic2)).
      - apply list_elem_of_filter. split; [done|]. by apply elem_of_map_to_list.
      - apply list_elem_of_filter. split; [done|]. by apply elem_of_map_to_list.
      - congruence. }
    rewrite <- Hlen in Htwo.
    destruct (License.by_short_name st !! None) as [bucket|] eqn:Hbucket;
      cbn [default from_option id Datatypes.length] in Htwo; [|lia].
    rewrite (for_each_raises (License.duplicate_message "Duplicate short name:")
               TypeError _ _ (None, bucket)); [done| | |].
    + by apply elem_of_map_to_list.
    + intros errors. unfold License.duplicate_message.
      destruct (Nat.eqb_spec (Datatypes.length bucket) 1); [lia|done].
    + intros item errors e. apply duplicate_message_raise_only.
  - cbn [mbind result_bind]. f_equal.
    eapply for_each_raise_only; [|exact Hloop].
    intros item st e'. apply validate_license_raise_only.
Qed.

End validation.

(** * Further properties *)

(** ** Relevance *)

(** X1. Computing the relevance twice gives what computing it once
    gives. *)
Theorem compute_relevance_idempotent {expr} (self : Rule.t expr) :
  Rule.compute_relevance (Rule.compute_relevance self) = Rule.compute_relevance self.
Proof.
  destruct self. unfold Rule.compute_relevance. cbn.
  repeat (case_match; cbn; try done; try congruence).
Qed.

(** X2. A relevance that [compute_relevance] computes lies between 0 and
    100. *)
Theorem compute_relevance_in_range {expr} (self : Rule.t expr) :
  Rule.has_stored_relevance self = false ->
  Qle (inject_Z 0) (Rule.relevance (Rule.compute_relevance self))
  ∧ Qle (Rule.relevance (Rule.compute_relevance self)) (inject_Z 100).
Proof.
  intros Hs.
  destruct (Rule.is_false_positive self) eqn:Hf;
    [|destruct (Rule.is_negative self) eqn:Hn].
  - unfold Rule.compute_relevance. rewrite Hs, Hf, relevance_set_relevance. done.
  - unfold Rule.compute_relevance. rewrite Hs, Hf, Hn, relevance_set_relevance. done.
  - rewrite compute_relevance_from_length by done.
    rewrite <- !Zle_Qle. unfold relevance_of_length.
    destruct (18 <=? Rule.length self)%N; [lia|].
    assert (0 <= Z.of_N (Rule.length self) * 100 / 18)%Z
      by (apply Z.div_pos; lia).
    lia.
Qed.

Lemma compute_relevance_in_range_witness :
  Qle (inject_Z 0) (Rule.relevance (Rule.compute_relevance (sample_rule 7)))
  ∧ Qle (Rule.relevance (Rule.compute_relevance (sample_rule 7))) (inject_Z 100).
Proof. apply (compute_relevance_in_range (sample_rule 7)). reflexivity. Defined.

(** ** Thresholds *)

Section more_thresholds.
Context {expr : Type}.
Variable MIN_MATCH_LENGTH : N.
Variable MIN_MATCH_HIGH_LENGTH : N.

Lemma thresholds_cache_filled (self : Rule.t expr) :
  Rule._thresholds (Rule.thresholds MIN_MATCH_LENGTH MIN_MATCH_HIGH_LENGTH self).2
  = Some (Rule.thresholds MIN_MATCH_LENGTH MIN_MATCH_HIGH_LENGTH self).1.
Proof.
  unfold Rule.thresholds. destruct (Rule._thresholds self) eqn:Hcache; [done|].
  repeat case_match; cbn [fst snd]; by match goal with |- context [Rule.set_thresholds _ ?r] => destruct r end.
Qed.

Lemma thresholds_unique_cache_filled (self : Rule.t expr) :
  Rule._thresholds_unique
    (Rule.thresholds_unique MIN_MATCH_LENGTH MIN_MATCH_HIGH_LENGTH self).2
  = Some (Rule.thresholds_unique MIN_MATCH_LENGTH MIN_MATCH_HIGH_LENGTH self).1.
Proof.
  unfold Rule.thresholds_unique.
  destruct (Rule._thresholds_unique self) eqn:Hcache; [done|].
  repeat case_match; cbn [fst snd]; by destruct self.
Qed.

(** X3. Once computed, the thresholds are cached: a second call of
    [thresholds], or of [thresholds_unique], returns the tuple of the first
    call and leaves the rule as the first call left it. *)
Theorem thresholds_are_cached (self : Rule.t expr) :
  Rule.thresholds MIN_MATCH_LENGTH MIN_MATCH_HIGH_LENGTH
    (Rule.thresholds MIN_MATCH_LENGTH MIN_MATCH_HIGH_LENGTH self).2
  = Rule.thresholds MIN_MATCH_LENGTH MIN_MATCH_HIGH_LENGTH self
  ∧ Rule.thresholds_unique MIN_MATCH_LENGTH MIN_MATCH_HIGH_LENGTH
      (Rule.thresholds_unique MIN_MATCH_LENGTH MIN_MATCH_HIGH_LENGTH self).2
    = Rule.thresholds_unique MIN_MATCH_LENGTH MIN_MATCH_HIGH_LENGTH self.
Proof.
  split.
  - unfold Rule.thresholds at 1. rewrite thresholds_cache_filled.
    by destruct (Rule.thresholds _ _ self).
  - unfold Rule.thresholds_unique at 1. rewrite thresholds_unique_cache_filled.
    by destruct (Rule.thresholds_unique _ _ self).
Qed.

(** X4. The first call of [thresholds] rewrites the minimum coverage of a
    short rule: 100 below 3 tokens, 80 from 3 to 9 tokens, and it leaves
    the minimum coverage of a longer rule alone; [thresholds_unique] never
    changes the minimum coverage. *)
Theorem thresholds_rewrites_minimum_coverage (self : Rule.t expr) :
  Rule._thresholds self = None ->
  Rule.minimum_coverage (Rule.thresholds MIN_MATCH_LENGTH MIN_MATCH_HIGH_LENGTH self).2
  = (if (Rule.length self <? 3)%N then inject_Z 100
     else if (Rule.length self <? 10)%N then inject_Z 80
     else Rule.minimum_coverage self)
  ∧ Rule.minimum_coverage
      (Rule.thresholds_unique MIN_MATCH_LENGTH MIN_MATCH_HIGH_LENGTH self).2
    = Rule.minimum_coverage self.
Proof.
  intros Hcache. split.
  - unfold Rule.thresholds. rewrite Hcache.
    destruct (200 <? Rule.length self)%N, (Rule.length self <? 30)%N;
      destruct (Rule.length self <? 10)%N eqn:H10;
      rewrite ?length_set_minimum_coverage;
      destruct (Rule.length self <? 3)%N eqn:H3;
      try (apply N.ltb_lt in H3; apply N.ltb_ge in H10; lia);
      destruct self; cbn; repeat case_match; done.
  - unfold Rule.thresholds_unique.
    repeat case_match; cbn [fst snd]; by destruct self.
Qed.

(** X5. When [MIN_MATCH_LENGTH] is at most 30, the first call of
    [thresholds] asks for no more tokens than the rule has: [min_high] is
    at most [high_length] and [min_len] is at most [length]; and the
    [min_high] of [thresholds_unique] is at most [high_unique]. *)
Theorem thresholds_within_rule (self : Rule.t expr) :
  (MIN_MATCH_LENGTH <= 30)%N ->
  Rule._thresholds self = None ->
  Rule._thresholds_unique self = None ->
  let th := (Rule.thresholds MIN_MATCH_LENGTH MIN_MATCH_HIGH_LENGTH self).1 in
  let thu := (Rule.thresholds_unique MIN_MATCH_LENGTH MIN_MATCH_HIGH_LENGTH self).1 in
  (Thresholds.min_high th <= Rule.high_length self)%N
  ∧ (Thresholds.min_len th <= Rule.length self)%N
  ∧ (Thresholds.min_high thu <= Rule.high_unique self)%N.
Proof.
  intros Hmin Hcache Hcacheu. cbn zeta.
  assert (Hdiv : forall n d : N, (n / d <= n)%N).
  { intros n d. destruct d; [by rewrite N.div_0_r; lia|].
    apply N.Div0.div_le_upper_bound. nia. }
  unfold Rule.thresholds, Rule.thresholds_unique. rewrite Hcache, Hcacheu.
  split_and!.
  - destruct (N.ltb_spec 200 (Rule.length self)),
      (N.ltb_spec (Rule.length self) 30),
      (N.ltb_spec (Rule.length self) 10);
      rewrite ?length_set_minimum_coverage;
      destruct (N.ltb_spec (Rule.length self) 3);
      repeat case_match; simplify_eq; cbn; try lia; try apply Hdiv;
      try (etrans; [apply N.le_min_l|]; lia).
  - destruct (N.ltb_spec 200 (Rule.length self)),
      (N.ltb_spec (Rule.length self) 30),
      (N.ltb_spec (Rule.length self) 10);
      rewrite ?length_set_minimum_coverage;
      destruct (N.ltb_spec (Rule.length self) 3);
      repeat case_match; simplify_eq; cbn; try lia; try apply Hdiv;
      try (etrans; [apply N.le_min_l|]; lia).
  - repeat case_match; simplify_eq; cbn; try lia; try apply Hdiv;
      try (etrans; [apply N.le_min_l|]; try apply Hdiv; lia).
Qed.

End more_thresholds.

Lemma thresholds_rewrites_minimum_coverage_witness :
  Rule.minimum_coverage (Rule.thresholds 4 3 (sample_rule 7)).2 = inject_Z 80
  ∧ Rule.minimum_coverage (Rule.thresholds_unique 4 3 (sample_rule 7)).2 = inject_Z 0.
Proof.
  apply (thresholds_rewrites_minimum_coverage 4 3 (sample_rule 7)). reflexivity.
Defined.

Lemma thresholds_within_rule_witness :
  (Thresholds.min_high (Rule.thresholds 4 3 full_coverage_rule).1 <= 20)%N
  ∧ (Thresholds.min_len (Rule.thresholds 4 3 full_coverage_rule).1 <= 50)%N
  ∧ (Thresholds.min_high (Rule.thresholds_unique 4 3 full_coverage_rule).1 <= 12)%N.
Proof.
  apply (thresholds_within_rule 4 3 full_coverage_rule); [lia|reflexivity|reflexivity].
Defined.

(** ** Tokens *)

Section more_tokens.
Context {expr : Type}.
Variable query_tokenizer : string -> bool -> list string.
Variable numbered_text_lines : string -> list (N * string).
Variable fs : gmap string string.

Lemma length_set_length v (self : Rule.t expr) :
  Rule.length (Rule.set_length v self) = v.
Proof. by destruct self. Qed.

Lemma length_compute_relevance (self : Rule.t expr) :
  Rule.length (Rule.compute_relevance self) = Rule.length self.
Proof.
  unfold Rule.compute_relevance. repeat case_match; by rewrite ?length_set_relevance.
Qed.

Lemma relevance_from_length_preserved v w (self : Rule.t expr) :
  relevance_from_length self ->
  relevance_from_length (Rule.set_length v self)
  ∧ relevance_from_length (Rule.set_length v (Rule.set_minimum_coverage w self)).
Proof. by destruct self. Qed.

(** X6. When the text of a rule can be read, [tokens] yields the tokens of
    that text and leaves the number of tokens in [length]; when the
    relevance is computed from the length (no stored relevance, neither a
    false positive nor negative), it is the relevance of that number of
    tokens. *)
Theorem tokens_sets_length_and_relevance (lower : bool) (self : Rule.t expr)
    (txt : string) :
  Rule.text numbered_text_lines fs self = Ok txt ->
  ∃ self',
    Rule.tokens query_tokenizer numbered_text_lines fs lower self
    = Ok (query_tokenizer txt lower, self')
    ∧ Rule.length self' = N.of_nat (Datatypes.length (query_tokenizer txt lower))
    ∧ (relevance_from_length self ->
       Rule.relevance self'
       = inject_Z (relevance_of_length
                     (N.of_nat (Datatypes.length (query_tokenizer txt lower))))).
Proof.
  intros Htext. unfold Rule.tokens. rewrite Htext. cbn [mbind result_bind].
  destruct (startswith (strip txt) _ && _).
  - rewrite text_set_minimum_coverage, Htext. cbn [mbind result_bind].
    eexists. split; [reflexivity|].
    rewrite length_compute_relevance, length_set_length. split; [done|].
    intros Hfrom. rewrite compute_relevance_from_length, length_set_length; [done|].
    by apply relevance_from_length_preserved.
  - rewrite Htext. cbn [mbind result_bind].
    eexists. split; [reflexivity|].
    rewrite length_compute_relevance, length_set_length. split; [done|].
    intros Hfrom. rewrite compute_relevance_from_length, length_set_length; [done|].
    by apply (relevance_from_length_preserved _ (inject_Z 0)).
Qed.

(** X7. A rule whose text file is not on the disk and that has no stored
    text has no text: [text] raises, and so does [tokens], with the same
    exception. *)
Theorem tokens_without_text_raises (lower : bool) (self : Rule.t expr) :
  Rule.text_file self ≫= read_file fs = None ->
  truthy (Rule.stored_text self) = false ->
  ∃ e,
    Rule.text numbered_text_lines fs self = Raise e
    ∧ Rule.tokens query_tokenizer numbered_text_lines fs lower self = Raise e.
Proof.
  intros Hfile Hstored.
  assert (Htext : ∃ e, Rule.text numbered_text_lines fs self = Raise e).
  { unfold Rule.text. rewrite Hfile, Hstored.
    destruct (Rule.identifier self); cbn; [|eauto].
    destruct (Rule.text_file self); cbn; eauto. }
  destruct Htext as [e He]. exists e. split; [done|].
  unfold Rule.tokens. by rewrite He.
Qed.

End more_tokens.

Lemma tokens_sets_length_and_relevance_witness :
  ∃ self',
    Rule.tokens sample_tokenizer sample_text_lines ∅ true false_positive_rule
    = Ok (["not"; "a"; "gpl"], self')
    ∧ Rule.length self' = 3%N.
Proof.
  destruct (tokens_sets_length_and_relevance sample_tokenizer sample_text_lines ∅ true
              false_positive_rule "not a gpl" eq_refl) as (self' & Htokens & Hlength & _).
  exists self'. split; [exact Htokens|exact Hlength].
Defined.

Lemma tokens_without_text_raises_witness :
  ∃ e,
    Rule.text sample_text_lines ∅ file_rule = Raise e
    ∧ Rule.tokens sample_tokenizer sample_text_lines ∅ true file_rule = Raise e.
Proof.
  apply (tokens_without_text_raises sample_tokenizer sample_text_lines ∅ true file_rule);
    reflexivity.
Defined.

(** ** Loading a rule *)

Section more_loading.
Context {expr : Type}.
Variable float_of_string : string -> option Q.
Variable repr : Rule.t expr -> string.
Variable str_yaml : yaml -> string.

(** X8. A data file that holds an attribute that [Rule] does not declare
    is refused: [load] raises an exception whose message holds the name of
    the attribute. *)
Theorem load_data_rejects_unknown_attribute (data : gmap string yaml)
    (self : Rule.t expr) (name : string) (value : yaml) :
  data !! name = Some value ->
  name ∉ Rule.known_attributes ->
  ∃ msg,
    Rule.load_data float_of_string repr str_yaml data self = Raise (Exception msg)
    ∧ is_substring name msg.
Proof.
  intros Hname Hunknown. unfold Rule.load_data.
  set (unknown := filter (fun k => k ∉ Rule.known_attributes) (elements (dom data))).
  assert (Hin : name ∈ unknown).
  { apply list_elem_of_filter. split; [done|].
    apply elem_of_elements, elem_of_dom. eauto. }
  rewrite bool_decide_false by (intros Hnil; rewrite Hnil in Hin; by apply elem_of_nil in Hin).
  cbn [negb]. eexists. split; [reflexivity|].
  do 3 apply is_substring_app_r. apply is_substring_join.
  unfold sorted. by rewrite merge_sort_Permutation.
Qed.

Lemma load_data_ok_inv (data : gmap string yaml) (self loaded : Rule.t expr) :
  Rule.load_data float_of_string repr str_yaml data self = Ok loaded ->
  (truthy (Rule.license_expression loaded) = true
   ∨ Rule.is_negative loaded = true ∨ Rule.is_false_positive loaded = true)
  ∧ (Rule.is_negative loaded || Rule.is_false_positive loaded = true ->
     truthy (Rule.notes loaded) = true)
  ∧ (∀ value, data !! "relevance" = Some value -> value ≠ YNone ->
       Rule.has_stored_relevance loaded = true
       ∧ Qlt_bool (inject_Z 0) (Rule.relevance loaded) = true
       ∧ Qle_bool (Rule.relevance loaded) (inject_Z 100) = true)
  ∧ Rule.data_file loaded = Rule.data_file self
  ∧ Rule.text_file loaded = Rule.text_file self
  ∧ Rule.is_license loaded = Rule.is_license self.
Proof.
  intros Hload.
  unfold Rule.load_data in Hload. destruct self.
  destruct (negb (bool_decide _)) in Hload; [done|].
  cbn -[String.append join sorted strip] in Hload.
  destruct (negb (truthy _) && _) eqn:Hle in Hload; [done|].
  destruct (data !! "relevance") as [[|b|q|s|l]|] eqn:Hrel in Hload;
    cbn -[String.append join sorted strip] in Hload;
    try destruct (float_of_string s) in Hload;
    cbn -[String.append join sorted strip] in Hload; try done.
  all: try (destruct (negb (Qlt_bool _ _ && _)) eqn:Hrange in Hload; [done|]).
  all: destruct (py_float float_of_string _) as [mc|] in Hload; [|done].
  all: cbn -[String.append join sorted strip] in Hload.
  all: destruct (negb (Qle_bool _ _ && _)) in Hload; [done|].
  all: destruct (data !! "referenced_filenames") as [rf|] in Hload;
    [destruct (yaml_truthy rf); [destruct rf; try done|]|].
  all: cbn -[String.append join sorted strip] in Hload.
  all: destruct (data !! "notes") as [nt|] in Hload;
    [destruct (yaml_truthy nt); [destruct nt; try done|]|].
  all: cbn -[String.append join sorted strip] in Hload.
  all: match type of Hload with
       | (if ?c then _ else _) = _ => destruct c eqn:Hnotes; [done|]
       end.
  all: injection Hload as <-; cbn.
  all: split_and!; try done;
    [ apply andb_false_iff in Hle as [Hle|Hle];
      [ apply negb_false_iff in Hle; by left
      | apply negb_false_iff, orb_true_iff in Hle; right; done ]
    | intros Hspecial; rewrite Hspecial, andb_true_r in Hnotes;
      by apply negb_false_iff in Hnotes
    | intros value Hvalue Hnone; simplify_eq;
      try (apply negb_false_iff, andb_true_iff in Hrange); done ].
Qed.

(** X9. What [load] has checked when it returns: the rule has a license
    expression unless it is negative or a false positive; a negative or
    false positive rule has notes; and a relevance written in the data
    file is stored, and lies above 0 and at most at 100. *)
Theorem load_data_checks (data : gmap string yaml) (self loaded : Rule.t expr) :
  Rule.load_data float_of_string repr str_yaml data self = Ok loaded ->
  (truthy (Rule.license_expression loaded) = true
   ∨ Rule.is_negative loaded = true ∨ Rule.is_false_positive loaded = true)
  ∧ (Rule.is_negative loaded || Rule.is_false_positive loaded = true ->
     truthy (Rule.notes loaded) = true)
  ∧ (∀ value, data !! "relevance" = Some value -> value ≠ YNone ->
       Rule.has_stored_relevance loaded = true
       ∧ Qlt_bool (inject_Z 0) (Rule.relevance loaded) = true
       ∧ Qle_bool (Rule.relevance loaded) (inject_Z 100) = true).
Proof.
  intros Hload.
  destruct (load_data_ok_inv data self loaded Hload) as (Hle & Hnotes & Hrel & _).
  split_and!; [exact Hle|exact Hnotes|exact Hrel].
Qed.

End more_loading.

(** ** Construction of a rule from its files *)

Section more_construction.
Context {expr : Type}.
Variable fs : gmap string string.
Variable saneyaml_load : string -> result (gmap string yaml).
Variable float_of_string : string -> option Q.
Variable repr : Rule.t expr -> string.
Variable str_yaml : yaml -> string.
Variable repr_str : string -> string.
Variable format_exc : exn -> string.
Variable file_name : string -> string.
Variable licensing_parse : string -> result (option expr).
Variable render : expr -> string.

Lemma load_ok_inv (self loaded : Rule.t expr) :
  Rule.load fs saneyaml_load float_of_string repr str_yaml self = Ok loaded ->
  Rule.data_file loaded = Rule.data_file self
  ∧ Rule.text_file loaded = Rule.text_file self
  ∧ Rule.is_license loaded = Rule.is_license self
  ∧ (truthy (Rule.license_expression loaded) = true
     ∨ Rule.is_negative loaded = true ∨ Rule.is_false_positive loaded = true).
Proof.
  unfold Rule.load. destruct (str_operand (Rule.data_file self)) as [df|]; [|done].
  cbn [mbind result_bind]. destruct (read_file fs df) as [content|]; [|done].
  destruct (saneyaml_load content) as [data|]; [|done]. cbn [mbind result_bind].
  intros Hload.
  destruct (load_data_ok_inv _ _ _ _ _ _ Hload) as (Hle & _ & _ & Hdf & Htf & Hlic).
  by split_and!.
Qed.

(** X10. When the construction of a rule from a data file and a text file
    fails, the exception is an [Exception] whose message holds the path of
    the data file. *)
Theorem file_backed_rule_error_names_data_file (data_file rule_file : string) (e : exn) :
  data_file ≠ "" ->
  rule_file ≠ "" ->
  file_backed_rule fs saneyaml_load float_of_string repr str_yaml repr_str format_exc
    file_name licensing_parse render data_file rule_file = Raise e ->
  ∃ msg, e = Exception msg ∧ is_substring ("file://" +:+ data_file) msg.
Proof.
  intros Hdf%String.eqb_neq Htf%String.eqb_neq.
  unfold file_backed_rule, Rule.__attrs_post_init__.
  cbn -[String.append Rule.load]. rewrite Htf. cbn -[String.append Rule.load].
  rewrite Hdf. cbn -[String.append Rule.load].
  destruct (Rule.load _ _ _ _ _ _) as [loaded|e'] eqn:Hload;
    cbn -[String.append Rule.load].
  - apply load_ok_inv in Hload as (Hfile & _). cbn in Hfile.
    destruct loaded. cbn in Hfile. subst.
    cbn -[String.append].
    destruct (negb _ && negb _); cbn -[String.append];
      destruct license_expression as [le|]; try done;
      destruct (String.eqb le ""); cbn -[String.append]; try done;
      destruct (licensing_parse le) as [[expression|]|e'']; cbn -[String.append];
      try done; intros [= <-]; eexists; (split; [reflexivity|]).
    all: do 2 apply is_substring_app_r.
    all: try (exists " for: ", (nl +:+ format_exc e''); reflexivity).
    all: exists " for: ", ""; by rewrite string_app_nil_r.
  - intros [= <-]. eexists. split; [reflexivity|].
    exists "While loading: ", (nl +:+ format_exc e'). reflexivity.
Qed.

End more_construction.

(** ** Integrity of the rules *)

Section more_integrity.
Context {expr : Type}.
Variable licensing_license_keys : option expr -> bool -> list string.
Variable iter_set : gset string -> list string.
Variable licenses_by_key : gmap string License.t.

Lemma check_rules_integrity_ok_iff (rules : list (Rule.t expr)) :
  check_rules_integrity licensing_license_keys iter_set rules licenses_by_key = Ok tt
  ↔ ∀ rule, rule ∈ rules ->
      unknown_keys licensing_license_keys licenses_by_key rule = []
      ∧ without_flags rule = false.
Proof.
  pose proof (scan_rules_collects licensing_license_keys licenses_by_key rules)
    as (Hkeys & Hentries & Hflags).
  unfold check_rules_integrity.
  destruct (scan_rules licensing_license_keys licenses_by_key rules)
    as [invalid_rules rules_without_flags].
  cbn [fst snd] in *. split.
  - intros Hok.
    destruct (decide (invalid_rules = ∅)) as [Hinvalid|Hinvalid].
    2: { rewrite bool_decide_false in Hok by done. cbn [negb] in Hok.
         by destruct (mapM _ _) in Hok. }
    rewrite bool_decide_true in Hok by done. cbn [negb] in Hok.
    destruct (decide (rules_without_flags = ∅)) as [Hnone|Hsome].
    2: { rewrite bool_decide_false in Hok by done. cbn [negb] in Hok.
         by destruct (mapM _ _) in Hok. }
    intros rule Hrule. split.
    + destruct (unknown_keys licensing_license_keys licenses_by_key rule)
        as [|k ks] eqn:Hunknown; [done|].
      destruct (Hkeys rule k Hrule) as (keys & Hl & _); [rewrite Hunknown; by left|].
      by rewrite Hinvalid, lookup_empty in Hl.
    + destruct (without_flags rule) eqn:Hw; [|done].
      assert (Hin : Rule.data_file rule ∈ rules_without_flags) by (apply Hflags; eauto).
      rewrite Hnone in Hin. by apply not_elem_of_empty in Hin.
  - intros Hall.
    assert (Hinvalid : invalid_rules = ∅).
    { apply map_empty. intros df. destruct (invalid_rules !! df) as [keys|] eqn:Hl; [|done].
      destruct (Hentries df keys Hl) as (_ & rule & Hrule & _ & Hun).
      by destruct (Hall rule Hrule). }
    assert (Hnone : rules_without_flags = ∅).
    { apply leibniz_equiv. apply elem_of_equiv_empty. intros df Hin.
      apply Hflags in Hin as (rule & Hrule & _ & Hw).
      destruct (Hall rule Hrule). congruence. }
    by rewrite !bool_decide_true.
Qed.

Lemma checked_rule_iff (rule : Rule.t expr) :
  unknown_keys licensing_license_keys licenses_by_key rule = []
  ∧ without_flags rule = false
  ↔ (∀ k, k ∈ Rule.license_keys licensing_license_keys true rule ->
          is_Some (licenses_by_key !! k))
    ∧ (Rule.has_importance_flags rule = true
       ∨ Rule.is_negative rule = true ∨ Rule.is_false_positive rule = true).
Proof.
  unfold unknown_keys, without_flags. split.
  - intros [Hunknown Hflags]. split.
    + intros k Hk. destruct (licenses_by_key !! k) eqn:Hl; [eauto|].
      assert (Hin : k ∈ filter (fun k => licenses_by_key !! k = None)
                         (Rule.license_keys licensing_license_keys true rule))
        by (by apply list_elem_of_filter).
      rewrite Hunknown in Hin. by apply elem_of_nil in Hin.
    + destruct (Rule.has_importance_flags rule), (Rule.is_negative rule),
        (Rule.is_false_positive rule); auto.
  - intros [Hknown Hflags]. split.
    + destruct (filter _ _) as [|k ks] eqn:Hfilter; [done|].
      assert (Hin : k ∈ filter (fun k => licenses_by_key !! k = None)
                         (Rule.license_keys licensing_license_keys true rule))
        by (rewrite Hfilter; by left).
      apply list_elem_of_filter in Hin as [Hnone Hk].
      destruct (Hknown k Hk) as [? Hsome]. congruence.
    + destruct Hflags as [Hone|[Hone|Hone]]; rewrite Hone; cbn;
        rewrite ?orb_true_r, ?andb_false_r; done.
Qed.

(** X11. [check_rules_integrity] returns without an exception exactly when
    every rule references only keys of the license map and is negative, a
    false positive, or has one of the four importance flags. *)
Theorem check_rules_integrity_passes_iff (rules : list (Rule.t expr)) :
  check_rules_integrity licensing_license_keys iter_set rules licenses_by_key = Ok tt
  ↔ ∀ rule, rule ∈ rules ->
      (∀ k, k ∈ Rule.license_keys licensing_license_keys true rule ->
            is_Some (licenses_by_key !! k))
      ∧ (Rule.has_importance_flags rule = true
         ∨ Rule.is_negative rule = true ∨ Rule.is_false_positive rule = true).
Proof.
  rewrite check_rules_integrity_ok_iff.
  apply forall_proper. intros rule. apply forall_proper. intros Hrule.
  apply checked_rule_iff.
Qed.

End more_integrity.

(** ** Loading the rules *)

Lemma note_lower_case_spec name (names : list string) lower_case_files case_problems :
  (∀ x, x ∈ lower_case_files ↔ x ∈ names) ->
  (case_problems = ∅ ↔ NoDup names) ->
  (∀ x, x ∈ (note_lower_case name (lower_case_files, case_problems)).1
        ↔ x ∈ names ++ [name])
  ∧ ((note_lower_case name (lower_case_files, case_problems)).2 = ∅
     ↔ NoDup (names ++ [name])).
Proof.
  intros Hfiles Hproblems. unfold note_lower_case.
  rewrite NoDup_app. case_bool_decide as Hin; cbn [fst snd].
  - split.
    + intros x. rewrite elem_of_app, list_elem_of_singleton, Hfiles.
      split; [by left|]. intros [Hx| ->]; [done|]. by apply Hfiles.
    + split.
      * intros Hempty. exfalso. apply (not_elem_of_empty (C := gset string) name).
        rewrite <- Hempty. apply elem_of_union. left. by apply elem_of_singleton.
      * intros (_ & Hdisjoint & _). exfalso.
        apply (Hdisjoint name); [by apply Hfiles|by left].
  - split.
    + intros x. rewrite elem_of_union, elem_of_singleton, elem_of_app,
        list_elem_of_singleton, Hfiles. tauto.
    + rewrite Hproblems. split.
      * intros Hnodup. split_and!; [done| |apply NoDup_singleton].
        intros x Hx [->|Hnil]%elem_of_cons; [|by apply elem_of_nil in Hnil].
        apply Hin. by apply Hfiles.
      * by intros (Hnodup & _).
Qed.

Section more_load_rules.
Context {expr : Type}.
Variable resource_iter : string -> list string.
Variable file_base_name : string -> string.
Variable str_lower : string -> string.
Variable str_exn : exn -> string.
Variable fs : gmap string string.
Variable saneyaml_load : string -> result (gmap string yaml).
Variable float_of_string : string -> option Q.
Variable repr : Rule.t expr -> string.
Variable str_yaml : yaml -> string.
Variable repr_str : string -> string.
Variable format_exc : exn -> string.
Variable file_name : string -> string.
Variable licensing_parse : string -> result (option expr).
Variable render : expr -> string.
Variable rules_data_dir : string.

Lemma scan_rule_file_step (st : rules_scan expr) (f : string) :
  let st' :=
    scan_rule_file file_base_name str_lower str_exn fs saneyaml_load float_of_string
      repr str_yaml repr_str format_exc file_name licensing_parse render
      rules_data_dir st f in
  let build :=
    file_backed_rule fs saneyaml_load float_of_string repr str_yaml repr_str
      format_exc file_name licensing_parse render f
      (rule_file_of file_base_name rules_data_dir f) in
  let yml := endswith f ".yml" in
  yielded st' = yielded st ++ (if yml then option_list (built_rule build) else [])
  ∧ model_errors st'
    = model_errors st ++ (if yml then option_list (build_error str_exn build) else [])
  ∧ space_problems st'
    = space_problems st
      ++ (if yml && char_in " " (file_base_name f) then [f] else [])
  ∧ seen_files st'
    = (if endswith f "~" then seen_files st else {[f]} ∪ seen_files st)
  ∧ processed_files st'
    = (if yml
       then {[f]} ∪ {[rule_file_of file_base_name rules_data_dir f]} ∪ processed_files st
       else processed_files st)
  ∧ (lower_case_files st', case_problems st')
    = (if yml
       then note_lower_case (str_lower (rule_file_of file_base_name rules_data_dir f))
              (note_lower_case (str_lower f) (lower_case_files st, case_problems st))
       else (lower_case_files st, case_problems st)).
Proof.
  cbn zeta. unfold scan_rule_file.
  destruct (endswith f ".yml"), (endswith f "~"); cbn [negb andb];
    rewrite ?app_nil_r; try done.
  all: destruct (file_backed_rule _ _ _ _ _ _ _ _ _ _ f _);
    destruct (char_in " " (file_base_name f));
    destruct (note_lower_case (str_lower f) _) as [lcf1 cp1];
    destruct (note_lower_case _ (lcf1, cp1)) as [lcf2 cp2];
    cbn; rewrite ?app_nil_r; done.
Qed.

Lemma scan_rule_files_collects (files : list string) :
  let st :=
    foldl (scan_rule_file file_base_name str_lower str_exn fs saneyaml_load
             float_of_string repr str_yaml repr_str format_exc file_name
             licensing_parse render rules_data_dir)
      (mkRulesScan [] ∅ ∅ ∅ ∅ [] []) files in
  let build := fun f =>
    file_backed_rule fs saneyaml_load float_of_string repr str_yaml repr_str
      format_exc file_name licensing_parse render f
      (rule_file_of file_base_name rules_data_dir f) in
  yielded st = omap (fun f => built_rule (build f)) (rule_data_files files)
  ∧ model_errors st
    = omap (fun f => build_error str_exn (build f)) (rule_data_files files)
  ∧ space_problems st
    = filter (fun f => char_in " " (file_base_name f) = true) (rule_data_files files)
  ∧ (∀ f, f ∈ seen_files st ↔ f ∈ files ∧ endswith f "~" = false)
  ∧ (∀ p, p ∈ processed_files st
          ↔ ∃ f, f ∈ rule_data_files files
                 ∧ (p = f ∨ p = rule_file_of file_base_name rules_data_dir f))
  ∧ (∀ x, x ∈ lower_case_files st
          ↔ x ∈ lower_case_names file_base_name str_lower rules_data_dir files)
  ∧ (case_problems st = ∅
     ↔ NoDup (lower_case_names file_base_name str_lower rules_data_dir files)).
Proof.
  cbn zeta. unfold lower_case_names, rule_data_files.
  induction files as [|f files (Hy & He & Hs & Hseen & Hproc & Hlow & Hcase)]
    using rev_ind.
  - cbn. split_and!; try done.
    + intros f. rewrite elem_of_nil. split; [|tauto].
      intros Hf. by apply not_elem_of_empty in Hf.
    + intros p. split; [intros Hp; by apply not_elem_of_empty in Hp|].
      intros (f & Hf & _). by apply elem_of_nil in Hf.
    + intros x. rewrite elem_of_nil. split; [|done].
      intros Hx. by apply not_elem_of_empty in Hx.
    + split; [constructor|done].
  - rewrite foldl_snoc, filter_app, omap_app, omap_app, filter_app, flat_map_app.
    set (st := foldl _ _ files) in *.
    destruct (scan_rule_file_step st f) as (Hy' & He' & Hs' & Hseen' & Hproc' & Hlow').
    rewrite Hy', He', Hs', Hseen', Hproc'. clear Hy' He' Hs' Hseen' Hproc'.
    assert (Hseen2 : ∀ g, g ∈ (if endswith f "~" then seen_files st
                               else {[f]} ∪ seen_files st)
                          ↔ g ∈ files ++ [f] ∧ endswith g "~" = false).
    { intros g. rewrite elem_of_app, list_elem_of_singleton.
      destruct (endswith f "~") eqn:Htilde.
      - rewrite Hseen. split; [tauto|]. intros [[Hg| ->] Hn]; [done|congruence].
      - rewrite elem_of_union, elem_of_singleton, Hseen. split.
        + intros [->|[Hg Hn]]; tauto.
        + intros [[Hg| ->] Hn]; tauto. }
    destruct (endswith f ".yml") eqn:Hyml.
    + rewrite (filter_cons_True (fun f => endswith f ".yml" = true)) by done.
      rewrite filter_nil. cbn [omap flat_map app andb].
      pose proof (note_lower_case_spec (str_lower f) _ _ _ Hlow Hcase) as [Hlow1 Hcase1].
      destruct (note_lower_case (str_lower f) _) as [lcf1 cp1]. cbn [fst snd] in *.
      pose proof (note_lower_case_spec
                    (str_lower (rule_file_of file_base_name rules_data_dir f))
                    _ _ _ Hlow1 Hcase1) as [Hlow2 Hcase2].
      rewrite <- Hlow' in Hlow2, Hcase2. cbn [fst snd] in Hlow2, Hcase2.
      rewrite <- !app_assoc in Hlow2, Hcase2. cbn [app] in Hlow2, Hcase2.
      split_and!.
      * rewrite Hy. f_equal; by destruct (built_rule _).
      * rewrite He. f_equal; by destruct (build_error _ _).
      * rewrite Hs. f_equal.
        destruct (char_in " " (file_base_name f)) eqn:Hspace.
        -- by rewrite filter_cons_True.
        -- rewrite filter_cons_False by congruence. done.
      * done.
      * intros p. rewrite !elem_of_union, !elem_of_singleton, Hproc. split.
        -- intros [[->| ->]|(g & Hg & Hp)].
           ++ exists f. split; [apply elem_of_app; right; by left|by left].
           ++ exists f. split; [apply elem_of_app; right; by left|by right].
           ++ exists g. split; [apply elem_of_app; by left|done].
        -- intros (g & [Hg|Hg%list_elem_of_singleton]%elem_of_app & Hp).
           ++ right. eauto.
           ++ subst g. left. tauto.
      * done.
      * done.
    + rewrite (filter_cons_False (fun f => endswith f ".yml" = true)) by congruence.
      rewrite filter_nil. cbn [omap flat_map andb].
      injection Hlow' as Hl Hc. rewrite Hl, Hc, !app_nil_r.
      split_and!; done.
Qed.

Lemma builds_all_ok (build : string -> result (Rule.t expr)) (files : list string)
    (rules : list (Rule.t expr)) :
  omap (fun f => build_error str_exn (build f)) files = []
  ∧ omap (fun f => built_rule (build f)) files = rules
  ↔ Forall2 (fun f rule => build f = Ok rule) files rules.
Proof.
  revert rules. induction files as [|f files IH]; intros rules; cbn.
  - split; [intros [_ <-]; constructor|]. by intros ->%Forall2_nil_inv_l.
  - destruct (build f) as [rule|e] eqn:Hbuild; cbn.
    + split.
      * intros [Herrors <-]. constructor; [done|]. by apply IH.
      * intros (rule' & rules' & Hf & Hrest & ->)%Forall2_cons_inv_l.
        rewrite Hbuild in Hf. injection Hf as <-.
        apply IH in Hrest as [Herrors <-]. done.
    + split; [by intros [? _]|].
      intros (rule' & rules' & Hf & _)%Forall2_cons_inv_l. congruence.
Qed.

Lemma is_substring_if_app part (c : bool) a b :
  is_substring part a -> is_substring part (if c then a +:+ b else a).
Proof. intros Ha. destruct c; [by apply is_substring_app_l|done]. Qed.

Lemma is_substring_sorted_join part sep line (lines : list string) :
  line ∈ lines -> is_substring part line ->
  is_substring part (join sep (sorted lines)).
Proof.
  intros Hin Hpart. eapply is_substring_trans; [exact Hpart|].
  apply is_substring_join. unfold sorted. by rewrite merge_sort_Permutation.
Qed.

Lemma load_rules_message_names_error (model_errors : list string)
    (unknown_files case_problems : gset string) (space_problems : list string) e :
  e ∈ model_errors ->
  is_substring e (load_rules_message repr_str rules_data_dir model_errors unknown_files
                    case_problems space_problems).
Proof.
  intros He. unfold load_rules_message.
  rewrite (bool_decide_false (model_errors = []))
    by (intros Hnil; rewrite Hnil in He; by apply elem_of_nil in He).
  cbn [negb]. do 3 apply is_substring_if_app.
  do 5 apply is_substring_app_r. by apply is_substring_join.
Qed.

Lemma load_rules_message_names_orphan (model_errors : list string)
    (unknown_files case_problems : gset string) (space_problems : list string) f :
  f ∈ unknown_files ->
  is_substring ("file://" +:+ f)
    (load_rules_message repr_str rules_data_dir model_errors unknown_files
       case_problems space_problems).
Proof.
  intros Hf. unfold load_rules_message.
  rewrite (bool_decide_false (unknown_files = ∅))
    by (intros Hnil; rewrite Hnil in Hf; by apply not_elem_of_empty in Hf).
  cbn [negb]. do 2 apply is_substring_if_app.
  do 5 apply is_substring_app_r.
  apply (is_substring_sorted_join _ _ ("file://" +:+ f)); [|apply is_substring_refl].
  apply list_elem_of_fmap. exists f. split; [done|]. by apply elem_of_elements.
Qed.

Lemma load_rules_message_names_space (model_errors : list string)
    (unknown_files case_problems : gset string) (space_problems : list string) f :
  f ∈ space_problems ->
  is_substring ("file://" +:+ f)
    (load_rules_message repr_str rules_data_dir model_errors unknown_files
       case_problems space_problems).
Proof.
  intros Hf. unfold load_rules_message.
  rewrite (bool_decide_false (space_problems = []))
    by (intros Hnil; rewrite Hnil in Hf; by apply elem_of_nil in Hf).
  cbn [negb]. do 5 apply is_substring_app_r.
  apply (is_substring_sorted_join _ _ (quote +:+ "file://" +:+ f +:+ quote)).
  - apply list_elem_of_fmap. by exists f.
  - apply is_substring_app_r. rewrite <- string_app_assoc.
    apply is_substring_app_l, is_substring_refl.
Qed.

(** X12. [load_rules] ends without an exception exactly when every data
    file of the directory builds a rule, no data file has a space in its
    base name, every file that does not end with a tilde is a data file or
    the text file that goes with a data file, and the lowered names of the
    data files and of their text files are all different; it then yields
    the rules of the data files, in the order of the walk. *)
Theorem load_rules_succeeds_iff (rules : list (Rule.t expr)) :
  load_rules resource_iter file_base_name str_lower str_exn fs saneyaml_load
    float_of_string repr str_yaml repr_str format_exc file_name licensing_parse render
    rules_data_dir = Ok rules
  ↔ Forall2
      (fun f rule =>
         file_backed_rule fs saneyaml_load float_of_string repr str_yaml repr_str
           format_exc file_name licensing_parse render f
           (rule_file_of file_base_name rules_data_dir f) = Ok rule)
      (rule_data_files (resource_iter rules_data_dir)) rules
    ∧ (∀ f, f ∈ rule_data_files (resource_iter rules_data_dir) ->
            char_in " " (file_base_name f) = false)
    ∧ (∀ f, f ∈ resource_iter rules_data_dir -> endswith f "~" = false ->
            ∃ d, d ∈ rule_data_files (resource_iter rules_data_dir)
                 ∧ (f = d ∨ f = rule_file_of file_base_name rules_data_dir d))
    ∧ NoDup (lower_case_names file_base_name str_lower rules_data_dir
               (resource_iter rules_data_dir)).
Proof.
  unfold load_rules, scan_rule_files.
  destruct (scan_rule_files_collects (resource_iter rules_data_dir))
    as (Hy & He & Hs & Hseen & Hproc & _ & Hcase).
  set (st := foldl _ _ _) in *.
  rewrite <- builds_all_ok, <- Hy, <- He, <- Hcase.
  assert (Hspace : space_problems st = []
                   ↔ ∀ f, f ∈ rule_data_files (resource_iter rules_data_dir) ->
                          char_in " " (file_base_name f) = false).
  { rewrite Hs. split.
    - intros Hnil f Hf. destruct (char_in " " (file_base_name f)) eqn:Hc; [|done].
      by destruct (filter_nil_not_elem_of _ _ f Hnil Hc).
    - intros Hall. destruct (filter _ _) as [|f l] eqn:Hfilter; [done|].
      assert (Hin : f ∈ filter (fun f => char_in " " (file_base_name f) = true)
                         (rule_data_files (resource_iter rules_data_dir)))
        by (rewrite Hfilter; by left).
      apply list_elem_of_filter in Hin as [Hc Hf]. rewrite (Hall f Hf) in Hc. done. }
  assert (Hunknown : seen_files st ∖ processed_files st = ∅
                     ↔ ∀ f, f ∈ resource_iter rules_data_dir -> endswith f "~" = false ->
                            ∃ d, d ∈ rule_data_files (resource_iter rules_data_dir)
                                 ∧ (f = d ∨ f = rule_file_of file_base_name
                                                   rules_data_dir d)).
  { split.
    - intros Hempty%empty_difference_subseteq_L f Hf Htilde.
      apply Hproc, Hempty, Hseen. done.
    - intros Hall. apply subseteq_empty_difference_L. intros f Hf.
      apply Hseen in Hf as [Hf Htilde]. apply Hproc. by apply Hall. }
  rewrite <- Hspace, <- Hunknown.
  destruct (decide (seen_files st ∖ processed_files st = ∅)) as [H1|H1];
    [|rewrite (bool_decide_false _ H1); cbn; split; [done|tauto]].
  destruct (decide (case_problems st = ∅)) as [H2|H2];
    [|rewrite (bool_decide_false _ H2), ?orb_true_r; cbn; split; [done|tauto]].
  destruct (decide (model_errors st = [])) as [H3|H3];
    [|rewrite (bool_decide_false _ H3), ?orb_true_r; cbn; split; [done|tauto]].
  destruct (decide (space_problems st = [])) as [H4|H4];
    [|rewrite (bool_decide_false _ H4), ?orb_true_r; cbn; split; [done|tauto]].
  rewrite !bool_decide_true by done. cbn. split; [intros [= <-]; done|].
  by intros ([_ ->] & _).
Qed.

(** X13. A file of the directory that does not end with a tilde and is
    neither a data file nor the text file that goes with a data file makes
    [load_rules] end with an exception whose message holds the path of the
    file. *)
Theorem load_rules_names_orphan (f : string) :
  f ∈ resource_iter rules_data_dir ->
  endswith f "~" = false ->
  (∀ d, d ∈ rule_data_files (resource_iter rules_data_dir) ->
        f ≠ d ∧ f ≠ rule_file_of file_base_name rules_data_dir d) ->
  ∃ msg,
    load_rules resource_iter file_base_name str_lower str_exn fs saneyaml_load
      float_of_string repr str_yaml repr_str format_exc file_name licensing_parse
      render rules_data_dir = Raise (Exception msg)
    ∧ is_substring ("file://" +:+ f) msg.
Proof.
  intros Hf Htilde Horphan. unfold load_rules, scan_rule_files.
  destruct (scan_rule_files_collects (resource_iter rules_data_dir))
    as (_ & _ & _ & Hseen & Hproc & _).
  set (st := foldl _ _ _) in *.
  assert (Hin : f ∈ seen_files st ∖ processed_files st).
  { apply elem_of_difference. split; [by apply Hseen|].
    intros (d & Hd & Hp)%Hproc. destruct (Horphan d Hd). tauto. }
  rewrite (bool_decide_false (seen_files st ∖ processed_files st = ∅))
    by (intros Hempty; rewrite Hempty in Hin; by apply not_elem_of_empty in Hin).
  cbn [negb orb]. eexists. split; [reflexivity|].
  by apply load_rules_message_names_orphan.
Qed.

(** X14. A data file whose rule cannot be built does not stop the walk:
    [load_rules] ends with an exception whose message holds the text of
    the exception of that construction. *)
Theorem load_rules_reports_build_error (f : string) (e : exn) :
  f ∈ rule_data_files (resource_iter rules_data_dir) ->
  file_backed_rule fs saneyaml_load float_of_string repr str_yaml repr_str
    format_exc file_name licensing_parse render f
    (rule_file_of file_base_name rules_data_dir f) = Raise e ->
  ∃ msg,
    load_rules resource_iter file_base_name str_lower str_exn fs saneyaml_load
      float_of_string repr str_yaml repr_str format_exc file_name licensing_parse
      render rules_data_dir = Raise (Exception msg)
    ∧ is_substring (str_exn e) msg.
Proof.
  intros Hf Hbuild. unfold load_rules, scan_rule_files.
  destruct (scan_rule_files_collects (resource_iter rules_data_dir))
    as (_ & He & _).
  set (st := foldl _ _ _) in *.
  assert (Hin : str_exn e ∈ model_errors st).
  { rewrite He. apply list_elem_of_omap. exists f. split; [done|]. by rewrite Hbuild. }
  rewrite (bool_decide_false (model_errors st = []))
    by (intros Hempty; rewrite Hempty in Hin; by apply elem_of_nil in Hin).
  cbn [negb]. rewrite !orb_true_r. cbn. eexists. split; [reflexivity|].
  by apply load_rules_message_names_error.
Qed.

(** X15. A data file whose base name holds a space makes [load_rules] end
    with an exception whose message holds the path of the data file. *)
Theorem load_rules_names_space (f : string) :
  f ∈ rule_data_files (resource_iter rules_data_dir) ->
  char_in " " (file_base_name f) = true ->
  ∃ msg,
    load_rules resource_iter file_base_name str_lower str_exn fs saneyaml_load
      float_of_string repr str_yaml repr_str format_exc file_name licensing_parse
      render rules_data_dir = Raise (Exception msg)
    ∧ is_substring ("file://" +:+ f) msg.
Proof.
  intros Hf Hspace. unfold load_rules, scan_rule_files.
  destruct (scan_rule_files_collects (resource_iter rules_data_dir))
    as (_ & _ & Hs & _).
  set (st := foldl _ _ _) in *.
  assert (Hin : f ∈ space_problems st).
  { rewrite Hs. by apply list_elem_of_filter. }
  rewrite (bool_decide_false (space_problems st = []))
    by (intros Hempty; rewrite Hempty in Hin; by apply elem_of_nil in Hin).
  cbn [negb]. rewrite !orb_true_r. eexists. split; [reflexivity|].
  by apply load_rules_message_names_space.
Qed.

End more_load_rules.

(** ** The rules of the licenses and of the rule files together *)

Section more_get_rules.
Context {expr : Type}.
Variable resource_iter : string -> list string.
Variable file_base_name : string -> string.
Variable str_lower : string -> string.
Variable str_exn : exn -> string.
Variable fs : gmap string string.
Variable saneyaml_load : string -> result (gmap string yaml).
Variable float_of_string : string -> option Q.
Variable repr : Rule.t expr -> string.
Variable str_yaml : yaml -> string.
Variable repr_str : string -> string.
Variable format_exc : exn -> string.
Variable file_name : string -> string.
Variable licensing_parse : string -> result (option expr).
Variable render : expr -> string.
Variable get_licenses_db : string -> result (gmap string License.t).
Variable licensing_license_keys : option expr -> bool -> list string.
Variable iter_set : gset string -> list string.

(** X16. [get_rules] returns rules exactly when the licenses are loaded,
    the rule files are loaded, every rule of the rule files references only
    keys of the loaded licenses and is negative, a false positive or has an
    importance flag, and the rules of the licenses are built; the result is
    then the rules of the licenses followed by the rules of the rule
    files. *)
Theorem get_rules_returns_checked_rules (licenses_data_dir rules_data_dir : string)
    (all_rules : list (Rule.t expr)) :
  get_rules resource_iter file_base_name str_lower str_exn fs saneyaml_load
    float_of_string repr str_yaml repr_str format_exc file_name licensing_parse render
    get_licenses_db licensing_license_keys iter_set licenses_data_dir rules_data_dir
  = Ok all_rules
  ↔ ∃ licenses rules licenses_as_rules,
      get_licenses_db licenses_data_dir = Ok licenses
      ∧ load_rules resource_iter file_base_name str_lower str_exn fs saneyaml_load
          float_of_string repr str_yaml repr_str format_exc file_name licensing_parse
          render rules_data_dir = Ok rules
      ∧ (∀ rule, rule ∈ rules ->
           (∀ k, k ∈ Rule.license_keys licensing_license_keys true rule ->
                 is_Some (licenses !! k))
           ∧ (Rule.has_importance_flags rule = true
              ∨ Rule.is_negative rule = true ∨ Rule.is_false_positive rule = true))
      ∧ build_rules_from_licenses fs repr repr_str format_exc file_name licensing_parse
          render saneyaml_load float_of_string str_yaml licenses = Ok licenses_as_rules
      ∧ all_rules = licenses_as_rules ++ rules.
Proof.
  unfold get_rules. split.
  - intros Hget.
    destruct (get_licenses_db licenses_data_dir) as [licenses|] eqn:Hdb; [|done].
    cbn in Hget.
    destruct (load_rules _ _ _ _ _ _ _ _ _ _ _ _ _ _ _) as [rules|] eqn:Hload; [|done].
    cbn in Hget.
    destruct (check_rules_integrity _ _ _ _) as [[]|] eqn:Hcheck; [|done].
    cbn in Hget.
    destruct (build_rules_from_licenses _ _ _ _ _ _ _ _ _ _ _) as [built|] eqn:Hbuild;
      [|done].
    cbn in Hget. injection Hget as <-.
    exists licenses, rules, built. split_and!; try done.
    intros rule Hrule. apply checked_rule_iff.
    by apply (check_rules_integrity_ok_iff licensing_license_keys iter_set licenses rules).
  - intros (licenses & rules & built & -> & -> & Hchecked & Hbuild & ->). cbn.
    assert (Hcheck : check_rules_integrity licensing_license_keys iter_set rules licenses
                     = Ok tt).
    { apply check_rules_integrity_ok_iff. intros rule Hrule.
      apply checked_rule_iff. by apply Hchecked. }
    rewrite Hcheck. cbn. rewrite Hbuild. done.
Qed.

End more_get_rules.

(** ** Writing a rule and reading it back *)

Lemma lookup_dict_item (present : bool) name value (rest : list (string * yaml)) k :
  (list_to_map (Rule.dict_item present name value ++ rest) : gmap string yaml) !! k
  = if present && bool_decide (name = k) then Some value
    else (list_to_map rest : gmap string yaml) !! k.
Proof.
  destruct present; cbn; [|done]. case_bool_decide as Hk.
  - subst. by rewrite lookup_insert_eq.
  - by rewrite lookup_insert_ne.
Qed.

Lemma to_dict_lookup {expr} (self : Rule.t expr) (k : string) :
  (list_to_map (Rule.to_dict self) : gmap string yaml) !! k
  = (list_to_map (Rule.to_dict self ++ []) : gmap string yaml) !! k.
Proof. by rewrite app_nil_r. Qed.

Ltac to_dict_lookup :=
  rewrite to_dict_lookup; unfold Rule.to_dict; rewrite <- !app_assoc;
  rewrite !lookup_dict_item; cbn [list_to_map foldr];
  repeat match goal with
    | |- context [bool_decide (?a = ?b)] =>
        let c := eval vm_compute in (bool_decide (a = b)) in
        change (bool_decide (a = b)) with c
    end;
  rewrite ?andb_false_r, ?andb_true_r, ?lookup_empty.

Lemma to_dict_keys_known {expr} (self : Rule.t expr) k :
  k ∈ dom (list_to_map (Rule.to_dict self) : gmap string yaml) ->
  k ∈ Rule.known_attributes.
Proof.
  intros [v Hv]%elem_of_dom. apply elem_of_list_to_map_2 in Hv.
  unfold Rule.to_dict in Hv. rewrite !elem_of_app in Hv.
  unfold Rule.dict_item, Rule.known_attributes in *.
  repeat match type of Hv with
    | _ ∨ _ => destruct Hv as [Hv|Hv]
    end;
  match type of Hv with
  | _ ∈ (if ?c then _ else _) => destruct c
  end;
  try (by apply elem_of_nil in Hv);
  apply list_elem_of_singleton in Hv; injection Hv as -> _;
  repeat first [by left | right].
Qed.

Lemma to_dict_raw_lookups {expr} (self : Rule.t expr) :
  let data : gmap string yaml := list_to_map (Rule.to_dict self) in
  data !! "license_expression"
  = (if truthy (Rule.license_expression self)
     then Some (YStr (default "" (Rule.license_expression self))) else None)
  ∧ data !! "is_false_positive"
    = (if Rule.is_false_positive self then Some (YBool true) else None)
  ∧ data !! "is_negative" = (if Rule.is_negative self then Some (YBool true) else None)
  ∧ data !! "is_license_text"
    = (if Rule.is_license_text self then Some (YBool true) else None)
  ∧ data !! "is_license_notice"
    = (if Rule.is_license_notice self then Some (YBool true) else None)
  ∧ data !! "is_license_reference"
    = (if Rule.is_license_reference self then Some (YBool true) else None)
  ∧ data !! "is_license_tag"
    = (if Rule.is_license_tag self then Some (YBool true) else None)
  ∧ data !! "only_known_words"
    = (if Rule.only_known_words self then Some (YBool true) else None)
  ∧ data !! "relevance"
    = (if Rule.has_stored_relevance self then Some (YNum (Rule.relevance self))
       else None)
  ∧ data !! "minimum_coverage"
    = (if negb (Qeq_bool (Rule.minimum_coverage self) (inject_Z 0))
       then Some (YNum (Rule.minimum_coverage self)) else None)
  ∧ data !! "referenced_filenames"
    = (if negb (bool_decide (Rule.referenced_filenames self = []))
       then Some (YList (Rule.referenced_filenames self)) else None)
  ∧ data !! "notes"
    = (if truthy (Rule.notes self) then Some (YStr (default "" (Rule.notes self)))
       else None).
Proof. cbv zeta. split_and!; by to_dict_lookup. Qed.

Lemma read_as_refl float_of_string (value : yaml) : read_as float_of_string value value.
Proof. by destruct value. Qed.

Lemma reads_back_refl float_of_string (written : list (string * yaml)) :
  reads_back float_of_string written (list_to_map written).
Proof.
  intros name. destruct (list_to_map written !! name) as [value|] eqn:Hname; [|done].
  exists value. split; [done|apply read_as_refl].
Qed.

Lemma truthy_default (o : option string) : truthy o = true -> Some (default "" o) = o.
Proof. by destruct o. Qed.

Section more_persistence.
Context {expr : Type}.
Variable fs : gmap string string.
Variable numbered_text_lines : string -> list (N * string).
Variable saneyaml_dump : list (string * yaml) -> string.
Variable saneyaml_load : string -> result (gmap string yaml).
Variable float_of_string : string -> option Q.
Variable repr : Rule.t expr -> string.
Variable str_yaml : yaml -> string.

(** What [load] sees in a mapping that reads back the data of a rule. *)
Lemma reads_back_lookups (self : Rule.t expr) (data : gmap string yaml) :
  reads_back float_of_string (Rule.to_dict self) data ->
  filter (fun k => k ∉ Rule.known_attributes) (elements (dom data)) = []
  ∧ data !! "license_expression"
    = (if truthy (Rule.license_expression self)
       then Some (YStr (default "" (Rule.license_expression self))) else None)
  ∧ Rule.get_flag data "is_false_positive" = Rule.is_false_positive self
  ∧ Rule.get_flag data "is_negative" = Rule.is_negative self
  ∧ Rule.get_flag data "is_license_text" = Rule.is_license_text self
  ∧ Rule.get_flag data "is_license_notice" = Rule.is_license_notice self
  ∧ Rule.get_flag data "is_license_reference" = Rule.is_license_reference self
  ∧ Rule.get_flag data "is_license_tag" = Rule.is_license_tag self
  ∧ Rule.get_flag data "only_known_words" = Rule.only_known_words self
  ∧ (∃ read,
       data !! "relevance" = (if Rule.has_stored_relevance self then Some read else None)
       ∧ (Rule.has_stored_relevance self = true ->
          py_float float_of_string read = Ok (Rule.relevance self)))
  ∧ py_float float_of_string (default (YNum (inject_Z 0)) (data !! "minimum_coverage"))
    = Ok (if negb (Qeq_bool (Rule.minimum_coverage self) (inject_Z 0))
          then Rule.minimum_coverage self else inject_Z 0)
  ∧ data !! "referenced_filenames"
    = (if negb (bool_decide (Rule.referenced_filenames self = []))
       then Some (YList (Rule.referenced_filenames self)) else None)
  ∧ data !! "notes"
    = (if truthy (Rule.notes self) then Some (YStr (default "" (Rule.notes self)))
       else None).
Proof.
  intros Hdata.
  destruct (to_dict_raw_lookups self)
    as (Hle & Hfp & Hneg & Htext & Hnotice & Href & Htag & Hwords & Hrel & Hmc
        & Hfiles & Hn).
  cbv zeta in *.
  assert (Hflag : ∀ name (flag : bool),
            (list_to_map (Rule.to_dict self) : gmap string yaml) !! name
            = (if flag then Some (YBool true) else None) ->
            Rule.get_flag data name = flag).
  { intros name flag Hname. specialize (Hdata name). rewrite Hname in Hdata.
    unfold Rule.get_flag. destruct flag.
    - destruct Hdata as (read & -> & Hread). exact Hread.
    - by rewrite Hdata. }
  assert (Hsame : ∀ name (present : bool) value,
            (list_to_map (Rule.to_dict self) : gmap string yaml) !! name
            = (if present then Some value else None) ->
            (∀ read, read_as float_of_string value read -> read = value) ->
            data !! name = if present then Some value else None).
  { intros name present value Hname Hvalue. specialize (Hdata name).
    rewrite Hname in Hdata. destruct present; [|done].
    destruct Hdata as (read & -> & Hread). by rewrite (Hvalue read Hread). }
  split_and!.
  - destruct (filter _ _) as [|k ks] eqn:Hfilter; [done|].
    assert (Hin : k ∈ filter (fun k => k ∉ Rule.known_attributes) (elements (dom data)))
      by (rewrite Hfilter; by left).
    apply list_elem_of_filter in Hin as [Hunknown Hk].
    apply elem_of_elements, elem_of_dom in Hk as [read Hk].
    specialize (Hdata k).
    destruct (list_to_map (Rule.to_dict self) !! k) as [value|] eqn:Hwritten;
      [|congruence].
    exfalso. apply Hunknown, to_dict_keys_known with self.
    apply elem_of_dom. by exists value.
  - by apply Hsame.
  - by apply Hflag.
  - by apply Hflag.
  - by apply Hflag.
  - by apply Hflag.
  - by apply Hflag.
  - by apply Hflag.
  - by apply Hflag.
  - specialize (Hdata "relevance"). rewrite Hrel in Hdata.
    destruct (Rule.has_stored_relevance self).
    + destruct Hdata as (read & -> & Hread). by exists read.
    + exists YNone. by rewrite Hdata.
  - specialize (Hdata "minimum_coverage"). rewrite Hmc in Hdata.
    destruct (negb _).
    + destruct Hdata as (read & -> & Hread). exact Hread.
    + by rewrite Hdata.
  - by apply Hsame.
  - by apply Hsame.
Qed.

(** [load] on a mapping that reads back the data of a rule. *)
Lemma load_data_of_read_data (self other : Rule.t expr) (data : gmap string yaml) :
  reads_back float_of_string (Rule.to_dict self) data ->
  passes_load_checks self ->
  not_yet_loaded other ->
  ∃ loaded,
    Rule.load_data float_of_string repr str_yaml data other = Ok loaded
    ∧ Rule.to_dict loaded = Rule.to_dict self.
Proof.
  intros Hdata (Hexpression & Hrelevance & Hnotes & Hstripped) (Hfresh & Hnone & Hrange).
  unfold Rule.load_data.
  destruct (reads_back_lookups self data Hdata)
    as (Hknown & Hle & Hfp & Hneg & Htext & Hnotice & Href & Htag & Hwords
        & (vrel & Hrel & Hvrel) & Hmc & Hfiles & Hn).
  rewrite Hknown, Hle, Hfp, Hneg, Htext, Hnotice, Href, Htag, Hwords, Hrel, Hmc, Hfiles,
    Hn.
  clear Hknown Hle Hfp Hneg Htext Hnotice Href Htag Hwords Hrel Hmc Hfiles Hn Hdata data.
  rewrite bool_decide_true by done. cbn [negb].
  destruct self as [cls rid ident le leo ilt iln ilr iltag ifp ineg mc okw rel hsr rf
                      notes il df tf st len hl ll th hu lu lenu thu].
  destruct other as [cls' rid' ident' le' leo' ilt' iln' ilr' iltag' ifp' ineg' mc'
                       okw' rel' hsr' rf' notes' il' df' tf' st' len' hl' ll' th' hu'
                       lu' lenu' thu'].
  cbn [Rule.license_expression Rule.is_negative Rule.is_false_positive
       Rule.has_stored_relevance Rule.relevance Rule.minimum_coverage
       Rule.referenced_filenames Rule.notes Rule.is_license_text
       Rule.is_license_notice Rule.is_license_reference Rule.is_license_tag
       Rule.only_known_words] in *.
  subst notes'. unfold Rule.to_dict.
  assert (Hle : (if truthy le then Some (YStr (default "" le)) else None) ≫= yaml_str
                = if truthy le then le else None).
  { destruct (truthy le) eqn:Ht; [|done]. cbn. by apply truthy_default. }
  rewrite Hle. clear Hle.
  assert (Hpositive : forall q, Qlt_bool (inject_Z 0) q = true ->
                                Qle_bool (inject_Z 0) q = true).
  { intros q Hq. apply Qle_bool_iff, Qlt_le_weak, Qnot_le_lt.
    intros Hle%Qle_bool_iff. unfold Qlt_bool in Hq. by rewrite Hle in Hq. }
  destruct (truthy le) eqn:Htle, ineg, ifp; try done.
  all: cbn -[String.append Qeq_bool Qle_bool Qlt_bool inject_Z py_float] in *.
  all: subst hsr'; apply andb_prop in Hrange as [Hlow' Hhigh'].
  all: destruct hsr;
    [apply andb_prop in Hrelevance as [Hlow Hhigh]; [|done];
     pose proof (Hpositive _ Hlow) as Hlow0; specialize (Hvrel eq_refl);
     destruct vrel as [|b|q|s0|l]; try discriminate Hvrel
    |clear Hvrel].
  all: cbn -[String.append Qeq_bool Qle_bool Qlt_bool inject_Z py_float] in *.
  all: rewrite ?Hvrel.
  all: cbn -[String.append Qeq_bool Qle_bool Qlt_bool inject_Z py_float] in *.
  all: rewrite ?Htle, ?andb_false_r, ?Hlow, ?Hhigh, ?Hlow', ?Hhigh'.
  all: cbn -[String.append Qeq_bool Qle_bool Qlt_bool inject_Z py_float] in *.
  all: destruct (Qeq_bool mc (inject_Z 0)) eqn:Hmc.
  all: cbn -[String.append Qeq_bool Qle_bool Qlt_bool inject_Z py_float] in *.
  all: rewrite ?Hlow, ?Hhigh, ?Hlow0, ?Hlow', ?Hhigh'.
  all: cbn -[String.append Qeq_bool Qle_bool Qlt_bool inject_Z py_float] in *.
  all: destruct rf as [|name names].
  all: cbn -[String.append Qeq_bool Qle_bool Qlt_bool inject_Z py_float] in *.
  all: destruct notes as [s|]; [destruct (negb (s =? "")%string) eqn:Hs|].
  all: cbn -[String.append Qeq_bool Qle_bool Qlt_bool inject_Z strip py_float] in *.
  all: try (specialize (Hnotes eq_refl); rewrite ?Hs in Hnotes; discriminate Hnotes).
  all: rewrite ?Hs, ?(Hstripped s eq_refl).
  all: cbn -[String.append Qeq_bool Qle_bool Qlt_bool inject_Z strip py_float] in *.
  all: rewrite ?Hs.
  all: cbn -[String.append Qeq_bool Qle_bool Qlt_bool inject_Z strip py_float] in *.
  all: rewrite ?Hs.
  all: cbn -[String.append Qeq_bool Qle_bool Qlt_bool inject_Z strip py_float] in *.
  all: eexists; (split; [reflexivity|]).
  all: cbn -[String.append Qeq_bool Qle_bool Qlt_bool inject_Z strip py_float] in *.
  all: rewrite ?Htle, ?Hmc, ?Hs.
  all: try reflexivity.
Qed.

Lemma load_data_of_to_dict (self other : Rule.t expr) :
  passes_load_checks self ->
  not_yet_loaded other ->
  ∃ loaded,
    Rule.load_data float_of_string repr str_yaml (list_to_map (Rule.to_dict self)) other
    = Ok loaded
    ∧ Rule.to_dict loaded = Rule.to_dict self.
Proof. apply load_data_of_read_data, reads_back_refl. Qed.

(** X17. The data that [to_dict] makes of a rule that passes the checks of
    [load] is accepted by [load] on a rule that has not been loaded yet,
    and the rule that is loaded gives the same data again. *)
Theorem load_data_reads_back_to_dict (self other : Rule.t expr) :
  passes_load_checks self ->
  not_yet_loaded other ->
  ∃ loaded,
    Rule.load_data float_of_string repr str_yaml (list_to_map (Rule.to_dict self)) other
    = Ok loaded
    ∧ Rule.to_dict loaded = Rule.to_dict self.
Proof. apply load_data_of_to_dict. Qed.

(** X18. After [dump] has written a rule that passes the checks of [load]
    to a data file and a text file of different paths, [load] on a rule of
    this data file that has not been loaded yet returns a rule with the
    same data, provided the parser reads back what the writer has written
    for this rule: a value for each attribute and for no other, the same
    string or list, a value of the same truth for a flag, and for a number
    a value, be it a string, that [float] converts to that number. *)
Theorem load_reads_back_dump (self other : Rule.t expr) (fs' : gmap string string)
    (df : string) (data : gmap string yaml) :
  Rule.dump fs numbered_text_lines saneyaml_dump self = Ok fs' ->
  Rule.is_license self = false ->
  Rule.data_file self = Some df ->
  df ≠ "" ->
  Rule.text_file self ≠ Some df ->
  Rule.data_file other = Some df ->
  saneyaml_load (saneyaml_dump (Rule.to_dict self)) = Ok data ->
  reads_back float_of_string (Rule.to_dict self) data ->
  passes_load_checks self ->
  not_yet_loaded other ->
  ∃ loaded,
    Rule.load fs' saneyaml_load float_of_string repr str_yaml other = Ok loaded
    ∧ Rule.to_dict loaded = Rule.to_dict self.
Proof.
  intros Hdump Hlicense Hdf Hne Htf Hother Hcodec Hdata Hchecks Hfresh.
  unfold Rule.dump in Hdump. rewrite Hlicense, Hdf in Hdump.
  assert (Htruthy : truthy (Some df) = true).
  { cbn. by destruct (String.eqb_spec df ""). }
  rewrite Htruthy in Hdump.
  destruct (Rule.text _ _ self) as [txt|] in Hdump; [|done].
  destruct (Rule.text_file self) as [tf|] eqn:Htext; [|done].
  cbn in Hdump. injection Hdump as <-.
  unfold Rule.load. rewrite Hother. cbn. unfold read_file.
  destruct (String.eqb_spec df "") as [|_]; [done|].
  rewrite lookup_insert_ne by congruence. rewrite lookup_insert_eq.
  rewrite Hcodec. cbn. by apply load_data_of_read_data.
Qed.

End more_persistence.

Lemma load_data_reads_back_to_dict_witness :
  ∃ loaded,
    Rule.load_data (fun _ => None) sample_repr (fun _ => "")
      (list_to_map (Rule.to_dict notice_rule)) file_rule = Ok loaded
    ∧ Rule.to_dict loaded = Rule.to_dict notice_rule.
Proof.
  apply (load_data_reads_back_to_dict (fun _ => None) sample_repr (fun _ => "")
           notice_rule file_rule).
  - split_and!; [reflexivity|reflexivity|reflexivity|].
    intros s [= <-]. reflexivity.
  - split_and!; reflexivity.
Defined.

Lemma load_reads_back_dump_witness :
  ∃ loaded,
    line_yaml_dump (Rule.to_dict notice_rule) = notice_rule_file
    ∧ line_yaml_load notice_rule_file = Ok notice_rule_data
    ∧ Rule.dump ∅ sample_text_lines line_yaml_dump notice_rule
      = Ok (<["/rules/mit.RULE" := "MIT License"]>
              (<["/rules/mit.yml" := notice_rule_file]> ∅))
    ∧ Rule.load (<["/rules/mit.RULE" := "MIT License"]>
                   (<["/rules/mit.yml" := notice_rule_file]> ∅))
        line_yaml_load digits_float sample_repr (fun _ => "") file_rule
      = Ok loaded
    ∧ Rule.to_dict loaded = Rule.to_dict notice_rule.
Proof.
  assert (Hwritten : line_yaml_dump (Rule.to_dict notice_rule) = notice_rule_file)
    by reflexivity.
  assert (Hread : line_yaml_load notice_rule_file = Ok notice_rule_data)
    by reflexivity.
  assert (Hdump : Rule.dump ∅ sample_text_lines line_yaml_dump notice_rule
                  = Ok (<["/rules/mit.RULE" := "MIT License"]>
                          (<["/rules/mit.yml" := notice_rule_file]> ∅)))
    by reflexivity.
  destruct (load_reads_back_dump ∅ sample_text_lines line_yaml_dump line_yaml_load
              digits_float sample_repr (fun _ => "") notice_rule file_rule _
              "/rules/mit.yml" notice_rule_data Hdump)
    as (loaded & Hload & Hdata).
  - reflexivity.
  - reflexivity.
  - discriminate.
  - discriminate.
  - reflexivity.
  - by rewrite Hwritten.
  - intros name.
    destruct (decide (name = "license_expression")) as [->|H1];
      [vm_compute; eexists; split; reflexivity|].
    destruct (decide (name = "is_license_notice")) as [->|H2];
      [vm_compute; eexists; split; reflexivity|].
    destruct (decide (name = "relevance")) as [->|H3];
      [vm_compute; eexists; split; reflexivity|].
    destruct (decide (name = "minimum_coverage")) as [->|H4];
      [vm_compute; eexists; split; reflexivity|].
    destruct (decide (name = "referenced_filenames")) as [->|H5];
      [vm_compute; eexists; split; reflexivity|].
    destruct (decide (name = "notes")) as [->|H6];
      [vm_compute; eexists; split; reflexivity|].
    assert (Hitems : Rule.to_dict notice_rule
                     = [ ("license_expression", YStr "mit");
                         ("is_license_notice", YBool true);
                         ("relevance", YNum (inject_Z 90));
                         ("minimum_coverage", YNum (inject_Z 80));
                         ("referenced_filenames", YList ["COPYING"]);
                         ("notes", YStr "seen in headers") ]) by reflexivity.
    rewrite Hitems. unfold notice_rule_data. cbn.
    by rewrite !lookup_insert_ne, !lookup_empty by done.
  - split_and!; [reflexivity|reflexivity|reflexivity|].
    intros s [= <-]. reflexivity.
  - split_and!; reflexivity.
  - exists loaded. split_and!; [exact Hwritten|exact Hread|exact Hdump|exact Hload|
                                exact Hdata].
Defined.

(** ** Rules for SPDX license expressions *)

Section more_spdx_rules.
Context {expr : Type}.
Variable repr_str : string -> string.
Variable format_exc : exn -> string.
Variable licensing_parse : string -> result (option expr).
Variable render : expr -> string.

(** X19. A rule for an SPDX license expression that is constructed has
    parsed its expression and stores the rendered form; its identifier is
    the SPDX prefix with the expression as given; its relevance is the
    stored relevance 100, which [compute_relevance] leaves alone; and it is
    a license tag, so that it has an importance flag. *)
Theorem spdx_rule_construction (self rule : Rule.t expr) :
  SpdxRule.__attrs_post_init__ repr_str format_exc licensing_parse render self = Ok rule ->
  ∃ given expression,
    Rule.license_expression self = Some given
    ∧ licensing_parse given = Ok (Some expression)
    ∧ Rule.identifier rule = Some ("spdx-license-identifier: " +:+ given)
    ∧ Rule.license_expression rule = Some (render expression)
    ∧ Rule.license_expression_object rule = Some expression
    ∧ Rule.relevance rule = inject_Z 100
    ∧ Rule.compute_relevance rule = rule
    ∧ Rule.is_license_tag rule = true
    ∧ Rule.has_importance_flags rule = true.
Proof.
  unfold SpdxRule.__attrs_post_init__. intros Hinit.
  destruct (Rule.license_expression self) as [given|] eqn:Hgiven; [|done].
  cbn -[String.append] in Hinit.
  destruct (licensing_parse given) as [[expression|]|e] eqn:Hparse; try done.
  injection Hinit as <-. exists given, expression.
  destruct self. cbn -[String.append].
  split_and!; try done. unfold Rule.has_importance_flags. cbn.
  by rewrite !orb_true_r.
Qed.

End more_spdx_rules.

Lemma spdx_rule_construction_witness :
  ∃ rule,
    SpdxRule.__attrs_post_init__ id (fun _ => "") sample_parse id spdx_rule = Ok rule
    ∧ Rule.identifier rule = Some "spdx-license-identifier: MIT"
    ∧ Rule.relevance rule = inject_Z 100.
Proof.
  destruct (SpdxRule.__attrs_post_init__ id (fun _ => "") sample_parse id spdx_rule)
    as [rule|e] eqn:Hinit; [|vm_compute in Hinit; discriminate Hinit].
  destruct (spdx_rule_construction id (fun _ => "") sample_parse id spdx_rule rule Hinit)
    as (given & expression & Hgiven & _ & Hidentifier & _ & _ & Hrelevance & _).
  injection Hgiven as <-.
  exists rule. split_and!; [reflexivity|exact Hidentifier|exact Hrelevance].
Defined.

(** ** Samples of loading *)

Lemma load_data_rejects_unknown_attribute_witness :
  ∃ msg,
    Rule.load_data (fun _ => None) sample_repr (fun _ => "") unknown_attribute_data
      file_rule = Raise (Exception msg)
    ∧ is_substring "licence" msg.
Proof.
  apply (load_data_rejects_unknown_attribute (fun _ => None) sample_repr (fun _ => "")
           unknown_attribute_data file_rule "licence" (YStr "mit")).
  - reflexivity.
  - apply (bool_decide_unpack _). reflexivity.
Defined.

Lemma load_data_checks_witness :
  ∃ loaded,
    Rule.load_data (fun _ => None) sample_repr (fun _ => "") stored_relevance_data
      file_rule = Ok loaded
    ∧ Rule.has_stored_relevance loaded = true
    ∧ Qle_bool (Rule.relevance loaded) (inject_Z 100) = true.
Proof.
  destruct (Rule.load_data (fun _ => None) sample_repr (fun _ => "")
              stored_relevance_data file_rule) as [loaded|e] eqn:Hload;
    [|vm_compute in Hload; discriminate Hload].
  destruct (load_data_checks (fun _ => None) sample_repr (fun _ => "")
              stored_relevance_data file_rule loaded Hload) as (_ & _ & Hrelevance).
  destruct (Hrelevance (YNum (inject_Z 80)) eq_refl) as (Hstored & _ & Hhigh);
    [discriminate|].
  exists loaded. split_and!; [reflexivity|exact Hstored|exact Hhigh].
Defined.

Lemma file_backed_rule_error_names_data_file_witness :
  ∃ msg,
    file_backed_rule ∅ (fun _ => Ok ∅) (fun _ => None) sample_repr (fun _ => "") id
      (fun _ => "") sample_file_name sample_parse id "/rules/mit.yml" "/rules/mit.RULE"
    = Raise (Exception msg)
    ∧ is_substring "file:///rules/mit.yml" msg.
Proof.
  destruct (file_backed_rule ∅ (fun _ => Ok ∅) (fun _ => None) sample_repr (fun _ => "")
              id (fun _ => "") sample_file_name sample_parse id "/rules/mit.yml"
              "/rules/mit.RULE") as [rule|e] eqn:Hbuild;
    [vm_compute in Hbuild; discriminate Hbuild|].
  destruct (file_backed_rule_error_names_data_file ∅ (fun _ => Ok ∅) (fun _ => None)
              sample_repr (fun _ => "") id (fun _ => "") sample_file_name sample_parse id
              "/rules/mit.yml" "/rules/mit.RULE" e) as (msg & -> & Hmsg);
    [discriminate|discriminate|exact Hbuild|].
  exists msg. split; [reflexivity|exact Hmsg].
Defined.

Lemma load_rules_names_orphan_witness :
  ∃ msg,
    sample_load_rules orphan_walk ∅ = Raise (Exception msg)
    ∧ is_substring "file:///rules/notes.txt" msg.
Proof.
  apply (load_rules_names_orphan orphan_walk sample_file_base_name id sample_str_exn ∅
           (fun _ => Ok ∅) (fun _ => None) sample_repr (fun _ => "") id (fun _ => "")
           sample_file_name sample_parse id "/rules" "/rules/notes.txt").
  - apply (bool_decide_unpack _). reflexivity.
  - reflexivity.
  - intros d Hd. change (d ∈ ["/rules/mit.yml"]) in Hd.
    apply list_elem_of_singleton in Hd as ->. split; discriminate.
Defined.

Lemma load_rules_reports_build_error_witness :
  ∃ msg,
    sample_load_rules orphan_walk ∅ = Raise (Exception msg)
    ∧ is_substring "While loading: file:///rules/mit.yml" msg.
Proof.
  destruct (load_rules_reports_build_error orphan_walk sample_file_base_name id
              sample_str_exn ∅ (fun _ => Ok ∅) (fun _ => None) sample_repr (fun _ => "")
              id (fun _ => "") sample_file_name sample_parse id "/rules" "/rules/mit.yml"
              (Exception ("While loading: file:///rules/mit.yml" +:+ nl)))
    as (msg & Hload & Hmsg).
  - apply (bool_decide_unpack _). reflexivity.
  - reflexivity.
  - exists msg. split; [exact Hload|].
    apply (is_substring_trans _ _ _ (is_substring_app_l _ _ nl (is_substring_refl _)) Hmsg).
Defined.

Lemma load_rules_names_space_witness :
  ∃ msg,
    sample_load_rules space_walk ∅ = Raise (Exception msg)
    ∧ is_substring "file:///rules/my rule.yml" msg.
Proof.
  apply (load_rules_names_space space_walk sample_file_base_name id sample_str_exn ∅
           (fun _ => Ok ∅) (fun _ => None) sample_repr (fun _ => "") id (fun _ => "")
           sample_file_name sample_parse id "/rules" "/rules/my rule.yml").
  - apply (bool_decide_unpack _). reflexivity.
  - reflexivity.
Defined.

(** ** Messages of the validation of licenses *)

Lemma keeps_messages_refl `{Countable K} {A} (d : gmap K (list A)) : keeps_messages d d.
Proof. by intros k msg. Qed.

Lemma keeps_messages_trans `{Countable K} {A} (d1 d2 d3 : gmap K (list A)) :
  keeps_messages d1 d2 -> keeps_messages d2 d3 -> keeps_messages d1 d3.
Proof. intros H12 H23 k msg Hmsg. by apply H23, H12. Qed.

Lemma dd_touch_keeps `{Countable K} {A} (k : K) (d : gmap K (list A)) :
  keeps_messages d (dd_touch k d).
Proof.
  intros k' msg. unfold dd_touch. destruct (d !! k) eqn:Hk; [done|].
  destruct (decide (k = k')) as [<-|Hne].
  - rewrite Hk. cbn. by intros ?%elem_of_nil.
  - by rewrite lookup_insert_ne.
Qed.

Lemma dd_append_keeps `{Countable K} {A} (k : K) (v : A) (d : gmap K (list A)) :
  keeps_messages d (dd_append k v d).
Proof.
  intros k' msg. unfold dd_append. destruct (decide (k = k')) as [<-|Hne].
  - rewrite lookup_insert_eq. cbn. intros Hmsg. apply elem_of_app. by left.
  - by rewrite lookup_insert_ne.
Qed.

Lemma dd_append_adds `{Countable K} {A} (k : K) (v : A) (d : gmap K (list A)) :
  v ∈ default [] (dd_append k v d !! k).
Proof.
  unfold dd_append. rewrite lookup_insert_eq. cbn. apply elem_of_app. right. by left.
Qed.

Lemma append_if_keeps {A} (c : bool) k (v : A) (d : gmap string (list A)) :
  keeps_messages d (License.append_if c k v d).
Proof. destruct c; [apply dd_append_keeps|apply keeps_messages_refl]. Qed.

Lemma append_if_adds {A} k (v : A) (d : gmap string (list A)) :
  v ∈ default [] (License.append_if true k v d !! k).
Proof. apply dd_append_adds. Qed.

Lemma foldl_keeps `{Countable K} {A B} (f : gmap K (list A) -> B -> gmap K (list A))
    (l : list B) (d : gmap K (list A)) :
  (∀ d x, keeps_messages d (f d x)) -> keeps_messages d (foldl f d l).
Proof.
  intros Hf. revert d. induction l as [|x l IH]; intros d; cbn.
  - apply keeps_messages_refl.
  - eapply keeps_messages_trans; [apply Hf|apply IH].
Qed.

Lemma for_each_keeps `{Countable K} {A B}
    (body : B -> gmap K (list A) -> result (gmap K (list A))) (l : list B)
    (d d' : gmap K (list A)) :
  (∀ x d d', body x d = Ok d' -> keeps_messages d d') ->
  for_each body l d = Ok d' -> keeps_messages d d'.
Proof.
  intros Hbody. revert d. induction l as [|x l IH]; intros d; cbn.
  - intros [= <-]. apply keeps_messages_refl.
  - destruct (body x d) as [d1|] eqn:Hx; [|done]. intros Hrest.
    eapply keeps_messages_trans; [by eapply Hbody|by apply IH].
Qed.

Lemma duplicate_message_keeps what item errors errors' :
  License.duplicate_message what item errors = Ok errors' ->
  keeps_messages errors errors'.
Proof.
  destruct item as [value licenses]. unfold License.duplicate_message.
  destruct (Datatypes.length licenses =? 1).
  - intros [= <-]. apply keeps_messages_refl.
  - destruct value as [v|]; cbn; [|done]. intros [= <-]. apply dd_append_keeps.
Qed.

Lemma nonempty_keeps (d : gmap string (list string)) :
  keeps_messages d (filter (fun kv => kv.2 ≠ []) d).
Proof.
  intros k msg Hmsg. destruct (d !! k) as [msgs|] eqn:Hk; [|by apply elem_of_nil in Hmsg].
  cbn in Hmsg.
  assert (Hkept : filter (fun kv : string * list string => kv.2 ≠ []) d !! k = Some msgs).
  { apply map_lookup_filter_Some. split; [done|]. cbn. intros ->.
    by apply elem_of_nil in Hmsg. }
  by rewrite Hkept.
Qed.

Section more_validation.
Variable fs : gmap string string.
Variable query_tokenizer : string -> bool -> list string.

(** The messages that the loop of [validate] has recorded for a license. *)
Lemma validate_license_messages no_dupe_urls k lic st st' :
  License.validate_license fs query_tokenizer no_dupe_urls (k, lic) st = Ok st' ->
  keeps_messages (License.errors st) (License.errors st')
  ∧ keeps_messages (License.infos st) (License.infos st')
  ∧ (truthy (License.short_name lic) = false ->
     "No short name" ∈ default [] (License.errors st' !! k))
  ∧ (truthy (License.name lic) = false ->
     "No name" ∈ default [] (License.errors st' !! k))
  ∧ (truthy (License.category lic) = false ->
     "No category" ∈ default [] (License.errors st' !! k))
  ∧ (∀ c, License.category lic = Some c -> c ≠ "" -> c ∉ CATEGORIES ->
       "Unknown license category: " +:+ c ∈ default [] (License.errors st' !! k))
  ∧ (truthy (License.owner lic) = false ->
     "No owner" ∈ default [] (License.errors st' !! k))
  ∧ (∀ txt, License.text fs lic = Ok txt -> query_tokenizer txt true = [] ->
       "No license text" ∈ default [] (License.infos st' !! k)).
Proof.
  unfold License.validate_license.
  destruct (License.text fs lic) as [txt|] eqn:Htext; [|done].
  cbn [mbind result_bind]. intros [= <-]. cbn [License.errors License.infos].
  split_and!.
  - repeat (eapply keeps_messages_trans; [|apply append_if_keeps]). apply dd_touch_keeps.
  - eapply keeps_messages_trans; [|apply append_if_keeps]. apply dd_touch_keeps.
  - intros ->. cbn [negb]. do 4 apply append_if_keeps. apply append_if_adds.
  - intros ->. cbn [negb]. do 3 apply append_if_keeps. apply append_if_adds.
  - intros ->. cbn [negb]. do 2 apply append_if_keeps. apply append_if_adds.
  - intros c Hc Hne Hunknown. rewrite Hc. cbn [default from_option id].
    apply append_if_keeps.
    assert (Hcond : truthy (Some c) && negb (bool_decide (c ∈ CATEGORIES)) = true).
    { cbn. destruct (String.eqb_spec c ""); [done|]. by rewrite bool_decide_false. }
    rewrite Hcond. apply append_if_adds.
  - intros ->. cbn [negb]. apply append_if_adds.
  - intros txt' [= <-] ->. rewrite bool_decide_true by done. apply append_if_adds.
Qed.

Lemma validate_loop_messages no_dupe_urls (items : list (string * License.t)) st st' :
  for_each (License.validate_license fs query_tokenizer no_dupe_urls) items st = Ok st' ->
  keeps_messages (License.errors st) (License.errors st')
  ∧ keeps_messages (License.infos st) (License.infos st')
  ∧ ∀ k lic, (k, lic) ∈ items ->
      (truthy (License.short_name lic) = false ->
       "No short name" ∈ default [] (License.errors st' !! k))
      ∧ (truthy (License.name lic) = false ->
         "No name" ∈ default [] (License.errors st' !! k))
      ∧ (truthy (License.category lic) = false ->
         "No category" ∈ default [] (License.errors st' !! k))
      ∧ (∀ c, License.category lic = Some c -> c ≠ "" -> c ∉ CATEGORIES ->
           "Unknown license category: " +:+ c ∈ default [] (License.errors st' !! k))
      ∧ (truthy (License.owner lic) = false ->
         "No owner" ∈ default [] (License.errors st' !! k))
      ∧ (∀ txt, License.text fs lic = Ok txt -> query_tokenizer txt true = [] ->
           "No license text" ∈ default [] (License.infos st' !! k)).
Proof.
  revert st. induction items as [|[k0 lic0] items IH]; intros st; cbn [for_each].
  - intros [= <-]. split_and!; try apply keeps_messages_refl.
    intros k lic Hin. by apply elem_of_nil in Hin.
  - destruct (License.validate_license _ _ _ _ st) as [st1|] eqn:Hitem; [|done].
    intros Hrest. apply IH in Hrest as (Herrors & Hinfos & Hitems).
    apply validate_license_messages in Hitem
      as (Herrors1 & Hinfos1 & H1 & H2 & H3 & H4 & H5 & H6).
    split_and!.
    + by eapply keeps_messages_trans.
    + by eapply keeps_messages_trans.
    + intros k lic [[= -> ->]|Hin]%elem_of_cons; [|by apply Hitems].
      split_and!; intros.
      * by apply Herrors, H1.
      * by apply Herrors, H2.
      * by apply Herrors, H3.
      * by eapply Herrors, H4.
      * by apply Herrors, H5.
      * by eapply Hinfos, H6.
Qed.

(** X21. When [validate] returns, the errors under the key of a license
    hold a message for each of: no short name, no name, no category, a
    category that is not one of the known categories, and no owner; and
    the infos under the key report a license text without tokens. *)
Theorem validate_reports_attributes (licenses : gmap string License.t)
    (verbose no_dupe_urls : bool) (errors warnings infos : gmap string (list string))
    (k : string) (lic : License.t) :
  License.validate fs query_tokenizer licenses verbose no_dupe_urls
  = Ok (errors, warnings, infos) ->
  licenses !! k = Some lic ->
  (truthy (License.short_name lic) = false ->
   "No short name" ∈ default [] (errors !! k))
  ∧ (truthy (License.name lic) = false -> "No name" ∈ default [] (errors !! k))
  ∧ (truthy (License.category lic) = false -> "No category" ∈ default [] (errors !! k))
  ∧ (∀ c, License.category lic = Some c -> c ≠ "" -> c ∉ CATEGORIES ->
       "Unknown license category: " +:+ c ∈ default [] (errors !! k))
  ∧ (truthy (License.owner lic) = false -> "No owner" ∈ default [] (errors !! k))
  ∧ (∀ txt, License.text fs lic = Ok txt -> query_tokenizer txt true = [] ->
       "No license text" ∈ default [] (infos !! k)).
Proof.
  unfold License.validate. intros Hvalidate Hlic.
  destruct (for_each _ (map_to_list licenses) License.empty_validation) as [st|]
    eqn:Hloop; [|done].
  cbn [mbind result_bind] in Hvalidate.
  destruct (for_each (License.duplicate_message "Duplicate short name:") _ _)
    as [errors1|] eqn:Hshort; [|done].
  cbn [mbind result_bind] in Hvalidate.
  destruct (for_each (License.duplicate_message "Duplicate name:") _ _)
    as [errors2|] eqn:Hname; [|done].
  cbn [mbind result_bind] in Hvalidate. injection Hvalidate as <- _ <-.
  apply validate_loop_messages in Hloop as (_ & _ & Hitems).
  destruct (Hitems k lic) as (H1 & H2 & H3 & H4 & H5 & H6);
    [by apply elem_of_map_to_list|].
  assert (Herrors : keeps_messages (License.errors st)
                      (filter (fun kv : string * list string => kv.2 ≠ []) errors2)).
  { eapply keeps_messages_trans; [|apply nonempty_keeps].
    eapply keeps_messages_trans;
      [|eapply for_each_keeps; [|exact Hname]; apply duplicate_message_keeps].
    eapply keeps_messages_trans;
      [|eapply for_each_keeps; [|exact Hshort]; apply duplicate_message_keeps].
    eapply keeps_messages_trans; [|apply foldl_keeps; intros; apply dd_append_keeps].
    apply foldl_keeps. intros. apply dd_append_keeps. }
  split_and!; intros.
  - by apply Herrors, H1.
  - by apply Herrors, H2.
  - by apply Herrors, H3.
  - by eapply Herrors, H4.
  - by apply Herrors, H5.
  - by eapply nonempty_keeps, H6.
Qed.

End more_validation.

Lemma validate_reports_attributes_witness :
  ∃ errors warnings infos,
    License.validate ∅ sample_tokenizer sample_licenses false false
    = Ok (errors, warnings, infos)
    ∧ "No short name" ∈ default [] (errors !! "mit")
    ∧ "No license text" ∈ default [] (infos !! "mit").
Proof.
  destruct (License.validate ∅ sample_tokenizer sample_licenses false false)
    as [[[errors warnings] infos]|e] eqn:Hvalidate;
    [|vm_compute in Hvalidate; discriminate Hvalidate].
  destruct (validate_reports_attributes ∅ sample_tokenizer sample_licenses false false
              errors warnings infos "mit" (sample_license "mit") Hvalidate eq_refl)
    as (Hshort & _ & _ & _ & _ & Htext).
  exists errors, warnings, infos.
  split_and!; [reflexivity|by apply Hshort|by apply (Htext "")].
Defined.

Lemma validate_raises_for_two_missing_short_names_witness :
  License.validate ∅ sample_tokenizer unnamed_licenses false false = Raise TypeError.
Proof.
  apply (validate_raises_for_two_missing_short_names ∅ sample_tokenizer unnamed_licenses
           false false "a" "b" (sample_license "a") (sample_license "b"));
    [discriminate|reflexivity..].
Defined.

(** ** Loading the licenses *)

Section more_load_licenses.
Variable resource_iter : string -> list string.
Variable file_base_name : string -> string.
Variable fs : gmap string string.
Variable new_license : string -> string -> result License.t.
Variable licenses_data_dir : string.
Variable with_deprecated : bool.

Lemma load_license_files_collect (files : list string) (st0 st : licenses_scan) :
  for_each (load_license_file file_base_name fs new_license licenses_data_dir
              with_deprecated) files st0 = Ok st ->
  (∀ k lic, loaded_licenses st !! k = Some lic ->
     loaded_licenses st0 !! k = Some lic
     ∨ ∃ f, f ∈ files ∧ endswith f ".yml" = true ∧ k = file_base_name f
            ∧ new_license k licenses_data_dir = Ok lic
            ∧ (with_deprecated = false -> License.is_deprecated lic = false))
  ∧ (∀ p, p ∈ used_files st ↔
       p ∈ used_files st0
       ∨ ∃ f, f ∈ files ∧ endswith f ".yml" = true
              ∧ (p = f ∨ text_file_of file_base_name fs new_license licenses_data_dir f p))
  ∧ (∀ f, f ∈ files -> endswith f ".yml" = true ->
       ∃ lic, new_license (file_base_name f) licenses_data_dir = Ok lic
              ∧ is_Some (License.text_file lic)).
Proof.
  revert st0. induction files as [|f files IH]; intros st0; cbn [for_each].
  - intros [= <-]. split_and!.
    + intros k lic Hk. by left.
    + intros p. split; [by left|]. intros [Hp|(f & Hf & _)]; [done|].
      by apply elem_of_nil in Hf.
    + intros f Hf. by apply elem_of_nil in Hf.
  - destruct (load_license_file _ _ _ _ _ f st0) as [st1|] eqn:Hf; [|done].
    intros Hrest. apply IH in Hrest as (Hlicenses & Hused & Hbuilt).
    unfold load_license_file in Hf.
    destruct (endswith f ".yml") eqn:Hyml.
    2: { injection Hf as <-. split_and!.
         - intros k lic Hk. destruct (Hlicenses k lic Hk) as [Hold|(g & Hg & Hrest)];
             [by left|]. right. exists g. split; [by right|done].
         - intros p. rewrite Hused. split.
           + intros [Hp|(g & Hg & Hrest)]; [by left|]. right. exists g.
             split; [by right|done].
           + intros [Hp|(g & Hg & Hgyml & Hrest)]; [by left|].
             apply elem_of_cons in Hg as [->|Hg]; [congruence|].
             right. by exists g.
         - intros g [->|Hg]%elem_of_cons Hgyml; [congruence|]. by apply Hbuilt. }
    destruct (new_license (file_base_name f) licenses_data_dir) as [lic|] eqn:Hnew;
      [|done].
    cbn [mbind result_bind] in Hf.
    destruct (License.text_file lic) as [tf|] eqn:Htf; [|done].
    cbn [mbind result_bind] in Hf.
    assert (Hused1 : ∀ p, p ∈ used_files st1 ↔
                       p ∈ used_files st0 ∨ p = f
                       ∨ text_file_of file_base_name fs new_license licenses_data_dir f p).
    { intros p.
      assert (Hst1 : used_files st1
                     = if exists_ fs tf then {[tf]} ∪ ({[f]} ∪ used_files st0)
                       else {[f]} ∪ used_files st0).
      { destruct (negb with_deprecated && License.is_deprecated lic);
          by injection Hf as <-. }
      rewrite Hst1. unfold text_file_of. rewrite Hnew.
      destruct (exists_ fs tf) eqn:Hexists.
      - rewrite !elem_of_union, !elem_of_singleton. split.
        + intros [->|[->|Hp]]; [|by right; left|by left].
          right. right. by exists lic.
        + intros [Hp|[->|(lic' & [= <-] & Hp & _)]]; [by right; right|by right; left|].
          left. congruence.
      - rewrite elem_of_union, elem_of_singleton. split.
        + intros [->|Hp]; [by right; left|by left].
        + intros [Hp|[->|(lic' & [= <-] & Hp & He)]]; [by right|by left|].
          congruence. }
    assert (Hlicenses1 : ∀ k lic', loaded_licenses st1 !! k = Some lic' ->
                           loaded_licenses st0 !! k = Some lic'
                           ∨ (k = file_base_name f ∧ lic' = lic
                              ∧ (with_deprecated = false ->
                                 License.is_deprecated lic = false))).
    { intros k lic' Hk.
      destruct (negb with_deprecated && License.is_deprecated lic) eqn:Hskip;
        injection Hf as <-; cbn in Hk; [by left|].
      destruct (decide (file_base_name f = k)) as [<-|Hne].
      - rewrite lookup_insert_eq in Hk. injection Hk as <-. right.
        split_and!; [done..|]. intros ->. by destruct (License.is_deprecated lic).
      - rewrite lookup_insert_ne in Hk by done. by left. }
    split_and!.
    + intros k lic' Hk. destruct (Hlicenses k lic' Hk) as [Hold|(g & Hg & Hrest)].
      * destruct (Hlicenses1 k lic' Hold) as [Hold0|(-> & -> & Hdeprecated)];
          [by left|]. right. exists f. split_and!; [by left|done..].
      * right. exists g. split; [by right|done].
    + intros p. rewrite Hused, Hused1. split.
      * intros [[Hp|Hp]|(g & Hg & Hrest)]; [by left| |].
        -- right. exists f. split_and!; [by left|done..].
        -- right. exists g. split; [by right|done].
      * intros [Hp|(g & Hg & Hgyml & Hrest)]; [by left; left|].
        apply elem_of_cons in Hg as [->|Hg]; [by left; right|].
        right. by exists g.
    + intros g [->|Hg]%elem_of_cons Hgyml; [|by apply Hbuilt].
      exists lic. by rewrite Htf.
Qed.

Lemma load_license_files_complete (files : list string) (st0 : licenses_scan) :
  (∀ f, f ∈ files -> endswith f ".yml" = true ->
     ∃ lic, new_license (file_base_name f) licenses_data_dir = Ok lic
            ∧ is_Some (License.text_file lic)) ->
  ∃ st, for_each (load_license_file file_base_name fs new_license licenses_data_dir
                    with_deprecated) files st0 = Ok st.
Proof.
  revert st0. induction files as [|f files IH]; intros st0 Hbuilt; cbn [for_each];
    [by eexists|].
  assert (Hf : ∃ st1, load_license_file file_base_name fs new_license licenses_data_dir
                        with_deprecated f st0 = Ok st1).
  { unfold load_license_file. destruct (endswith f ".yml") eqn:Hyml; [|by eexists].
    destruct (Hbuilt f) as (lic & Hnew & [tf Htf]); [by left|done|].
    rewrite Hnew. cbn [mbind result_bind]. rewrite Htf. cbn [mbind result_bind].
    destruct (negb with_deprecated && License.is_deprecated lic); by eexists. }
  destruct Hf as [st1 ->]. apply IH. intros g Hg. apply Hbuilt. by right.
Qed.

Lemma elem_of_sorted_files (files : list string) (f : string) :
  f ∈ sorted (elements (list_to_set files : gset string)) ↔ f ∈ files.
Proof.
  unfold sorted. rewrite merge_sort_Permutation, elem_of_elements.
  apply elem_of_list_to_set.
Qed.

(** X24. The licenses that [load_licenses] returns: each one is the
    license constructed for a data file of the directory, under the base
    name of the file as key, and none is deprecated unless deprecated
    licenses are asked for. *)
Theorem load_licenses_returns_constructed (licenses : gmap string License.t)
    (k : string) (lic : License.t) :
  load_licenses resource_iter file_base_name fs new_license licenses_data_dir
    with_deprecated = Ok licenses ->
  licenses !! k = Some lic ->
  (∃ f, f ∈ resource_iter licenses_data_dir ∧ endswith f ".yml" = true
        ∧ k = file_base_name f)
  ∧ new_license k licenses_data_dir = Ok lic
  ∧ (with_deprecated = false -> License.is_deprecated lic = false).
Proof.
  unfold load_licenses. intros Hload Hk.
  destruct (for_each _ _ _) as [st|] eqn:Hloop; [|done].
  cbn [mbind result_bind] in Hload.
  destruct (negb _) in Hload; [done|]. injection Hload as <-.
  apply load_license_files_collect in Hloop as (Hlicenses & _).
  destruct (Hlicenses k lic Hk) as [Hold|(f & Hf & Hyml & -> & Hnew & Hdeprecated)];
    [cbn in Hold; by rewrite lookup_empty in Hold|].
  split_and!; [|done..]. exists f. split_and!; [|done..].
  by apply elem_of_sorted_files.
Qed.

(** X25. [load_licenses] returns licenses exactly when a license with a
    text file path is constructed for every data file of the directory,
    and every file of the directory is a data file or the existing text
    file of the license of a data file, deprecated or not. *)
Theorem load_licenses_succeeds_iff :
  (∃ licenses,
     load_licenses resource_iter file_base_name fs new_license licenses_data_dir
       with_deprecated = Ok licenses)
  ↔ (∀ f, f ∈ resource_iter licenses_data_dir -> endswith f ".yml" = true ->
       ∃ lic, new_license (file_base_name f) licenses_data_dir = Ok lic
              ∧ is_Some (License.text_file lic))
    ∧ (∀ p, p ∈ resource_iter licenses_data_dir ->
         endswith p ".yml" = true
         ∨ ∃ f, f ∈ resource_iter licenses_data_dir ∧ endswith f ".yml" = true
                ∧ text_file_of file_base_name fs new_license licenses_data_dir f p).
Proof.
  unfold load_licenses. split.
  - intros [licenses Hload].
    destruct (for_each _ _ _) as [st|] eqn:Hloop; [|done].
    cbn [mbind result_bind] in Hload.
    apply load_license_files_collect in Hloop as (_ & Hused & Hbuilt).
    split.
    + intros f Hf. apply Hbuilt. by apply elem_of_sorted_files.
    + intros p Hp.
      destruct (decide (list_to_set (resource_iter licenses_data_dir) ∖ used_files st
                        = (∅ : gset string))) as [Hnone|Hsome];
        [|by rewrite bool_decide_false in Hload].
      apply empty_difference_subseteq_L in Hnone.
      assert (Hin : p ∈ used_files st) by (by apply Hnone, elem_of_list_to_set).
      apply Hused in Hin as [Hin|(f & Hf & Hyml & [->|Htext])];
        [cbn in Hin; by apply not_elem_of_empty in Hin|by left|].
      right. exists f. split_and!; [|done..]. by apply elem_of_sorted_files.
  - intros [Hbuilt Hall].
    destruct (load_license_files_complete
                (sorted (elements (list_to_set (resource_iter licenses_data_dir)
                                   : gset string)))
                (mkLicensesScan ∅ ∅)) as [st Hloop].
    { intros f Hf. apply Hbuilt. by apply elem_of_sorted_files. }
    rewrite Hloop. cbn [mbind result_bind].
    apply load_license_files_collect in Hloop as (_ & Hused & _).
    rewrite bool_decide_true; [by eexists|].
    apply subseteq_empty_difference_L. intros p Hp%elem_of_list_to_set.
    apply Hused. right. destruct (Hall p Hp) as [Hyml|(f & Hf & Hyml & Htext)].
    + exists p. split_and!; [by apply elem_of_sorted_files|done|by left].
    + exists f. split_and!; [by apply elem_of_sorted_files|done|by right].
Qed.

(** X26. When a license with a text file path is constructed for every
    data file, a file of the directory that is neither a data file nor the
    existing text file of the license of a data file makes [load_licenses]
    raise an exception whose message holds the path of the file. *)
Theorem load_licenses_names_orphan (p : string) :
  (∀ f, f ∈ resource_iter licenses_data_dir -> endswith f ".yml" = true ->
     ∃ lic, new_license (file_base_name f) licenses_data_dir = Ok lic
            ∧ is_Some (License.text_file lic)) ->
  p ∈ resource_iter licenses_data_dir ->
  endswith p ".yml" = false ->
  (∀ f, f ∈ resource_iter licenses_data_dir -> endswith f ".yml" = true ->
     ¬ text_file_of file_base_name fs new_license licenses_data_dir f p) ->
  ∃ msg,
    load_licenses resource_iter file_base_name fs new_license licenses_data_dir
      with_deprecated = Raise (Exception msg)
    ∧ is_substring ("file://" +:+ p) msg.
Proof.
  intros Hbuilt Hp Hyml Horphan. unfold load_licenses.
  destruct (load_license_files_complete
              (sorted (elements (list_to_set (resource_iter licenses_data_dir)
                                 : gset string)))
              (mkLicensesScan ∅ ∅)) as [st Hloop].
  { intros f Hf. apply Hbuilt. by apply elem_of_sorted_files. }
  rewrite Hloop. cbn [mbind result_bind].
  apply load_license_files_collect in Hloop as (_ & Hused & _).
  assert (Hdangling : p ∈ (list_to_set (resource_iter licenses_data_dir) : gset string)
                          ∖ used_files st).
  { apply elem_of_difference. split; [by apply elem_of_list_to_set|].
    intros [Hin|(f & Hf & Hfyml & [->|Htext])]%Hused.
    - cbn in Hin. by apply not_elem_of_empty in Hin.
    - congruence.
    - apply (Horphan f); [by apply elem_of_sorted_files|done..]. }
  rewrite bool_decide_false
    by (intros Hnone; rewrite Hnone in Hdangling; by apply not_elem_of_empty in Hdangling).
  cbn [negb]. eexists. split; [reflexivity|].
  apply is_substring_app_r, is_substring_join, list_elem_of_fmap.
  exists p. split; [done|]. unfold sorted.
  rewrite merge_sort_Permutation. by apply elem_of_elements.
Qed.

End more_load_licenses.

Lemma load_licenses_returns_constructed_witness :
  ∃ licenses,
    load_licenses license_walk sample_file_base_name sample_fs sample_new_license
      "/licenses" false = Ok licenses
    ∧ sample_new_license "mit" "/licenses" = Ok (sample_license "mit")
    ∧ License.is_deprecated (sample_license "mit") = false.
Proof.
  destruct (load_licenses license_walk sample_file_base_name sample_fs sample_new_license
              "/licenses" false) as [licenses|e] eqn:Hload;
    [|vm_compute in Hload; discriminate Hload].
  assert (Hk : licenses !! "mit" = Some (sample_license "mit")).
  { vm_compute in Hload. injection Hload as <-. reflexivity. }
  destruct (load_licenses_returns_constructed license_walk sample_file_base_name sample_fs
              sample_new_license "/licenses" false licenses "mit" (sample_license "mit")
              Hload Hk) as (_ & Hnew & Hdeprecated).
  exists licenses. split_and!; [reflexivity|exact Hnew|by apply Hdeprecated].
Defined.

Lemma load_licenses_names_orphan_witness :
  ∃ msg,
    load_licenses orphan_license_walk sample_file_base_name sample_fs sample_new_license
      "/licenses" false = Raise (Exception msg)
    ∧ is_substring "file:///licenses/README" msg.
Proof.
  apply (load_licenses_names_orphan orphan_license_walk sample_file_base_name sample_fs
           sample_new_license "/licenses" false "/licenses/README").
  - intros f _ _. exists (sample_license (sample_file_base_name f)).
    split; [reflexivity|]. by eexists.
  - apply (bool_decide_unpack _). reflexivity.
  - reflexivity.
  - intros f Hf Hyml (lic & Hnew & Hpath & _).
    change (f ∈ ["/licenses/mit.yml"; "/licenses/mit.LICENSE"; "/licenses/README"]) in Hf.
    apply elem_of_cons in Hf as [->|Hf]; [by injection Hnew as <-|].
    apply elem_of_cons in Hf as [->|Hf]; [discriminate Hyml|].
    apply list_elem_of_singleton in Hf as ->. discriminate Hyml.
Defined.

(** ** SPDX keys of the licenses *)

(** X22. The tokens that [get_all_spdx_key_tokens] yields are the four
    essential tokens and the tokens of the SPDX keys of the licenses: the
    non-empty SPDX key of a license and its other SPDX keys. *)
Theorem spdx_key_tokens_iff (query_tokenizer : string -> bool -> list string)
    (licenses : gmap string License.t) (token : string) :
  token ∈ get_all_spdx_key_tokens query_tokenizer licenses
  ↔ token ∈ ["spdx"; "license"; "identifier"; "licenseref"]
    ∨ ∃ k lic spdx_key,
        licenses !! k = Some lic
        ∧ (License.spdx_license_key lic = Some spdx_key ∧ spdx_key ≠ ""
           ∨ spdx_key ∈ License.other_spdx_license_keys lic)
        ∧ token ∈ query_tokenizer spdx_key true.
Proof.
  unfold get_all_spdx_key_tokens, get_all_spdx_keys, get_essential_spdx_tokens.
  rewrite elem_of_app. apply or_iff_compat_l.
  rewrite list_elem_of_bind.
  assert (Hkeys : ∀ lic spdx_key,
            spdx_key ∈ License.spdx_keys lic
            ↔ (License.spdx_license_key lic = Some spdx_key ∧ spdx_key ≠ ""
               ∨ spdx_key ∈ License.other_spdx_license_keys lic)).
  { intros lic spdx_key. unfold License.spdx_keys. rewrite elem_of_app.
    apply or_iff_compat_r. destruct (License.spdx_license_key lic) as [s|]; cbn.
    - destruct (String.eqb_spec s ""); cbn.
      + split; [by intros ?%elem_of_nil|]. intros [[= <-] Hne]. done.
      + rewrite list_elem_of_singleton. split; [by intros ->|by intros [[= <-] _]].
    - split; [by intros ?%elem_of_nil|]. by intros [? _]. }
  split.
  - intros (spdx_key & Htoken & Hkey).
    apply list_elem_of_bind in Hkey as (lic & Hkey & Hlic).
    apply list_elem_of_fmap in Hlic as ([k lic'] & -> & Hitem).
    apply elem_of_map_to_list in Hitem.
    exists k, lic', spdx_key. split_and!; [done| |done]. by apply Hkeys.
  - intros (k & lic & spdx_key & Hlic & Hkey & Htoken).
    exists spdx_key. split; [done|]. apply list_elem_of_bind. exists lic.
    split; [by apply Hkeys|]. apply list_elem_of_fmap. exists (k, lic).
    split; [done|]. by apply elem_of_map_to_list.
Qed.

(** ** File paths of a license *)

Lemma string_length_app (a b : string) :
  String.length (a +:+ b) = String.length a + String.length b.
Proof.
  induction a as [|c a IH]; [done|].
  change (S (String.length (a +:+ b)) = S (String.length a + String.length b)).
  by rewrite IH.
Qed.

Lemma substring_all (s : string) : String.substring 0 (String.length s) s = s.
Proof. induction s as [|c s IH]; cbn; [done|]. by rewrite IH. Qed.

Lemma substring_app_r (a b : string) :
  String.substring (String.length a) (String.length b) (a +:+ b) = b.
Proof.
  induction a as [|c a IH]; [apply substring_all|].
  change (String.substring (String.length a) (String.length b) (a +:+ b) = b). done.
Qed.

Lemma endswith_app (a b : string) : endswith (a +:+ b) b = true.
Proof.
  unfold endswith. rewrite string_length_app.
  replace (String.length a + String.length b - String.length b) with (String.length a)
    by lia.
  rewrite substring_app_r, String.eqb_refl, andb_true_r.
  apply Nat.leb_le. lia.
Qed.

Lemma endswith_path_join (a b suffix : string) :
  endswith (path_join a (b +:+ suffix)) suffix = true.
Proof.
  unfold path_join. destruct (String.prefix "/" (b +:+ suffix)).
  - apply endswith_app.
  - destruct (_ || _).
    + change (endswith (a +:+ (b +:+ suffix)) suffix = true).
      rewrite <- string_app_assoc. apply endswith_app.
    + change (endswith (a +:+ ("/" +:+ (b +:+ suffix))) suffix = true).
      rewrite <- !string_app_assoc. apply endswith_app.
Qed.

Lemma prefix_path_join (a b : string) :
  String.prefix "/" a = true -> String.prefix "/" (path_join a b) = true.
Proof.
  intros Ha. unfold path_join. destruct (String.prefix "/" b) eqn:Hb; [done|].
  destruct a as [|c a]; [done|].
  assert (Hhead : ∀ rest, String.prefix "/" (String c rest) = true).
  { intros rest.
    change ((if ascii_dec "/" c then String.prefix "" rest else false) = true).
    change ((if ascii_dec "/" c then String.prefix "" a else false) = true) in Ha.
    destruct (ascii_dec "/" c); [by destruct rest|done]. }
  destruct (_ || _); apply Hhead.
Qed.

(** X23. [set_file_paths] gives a license a data file that ends with
    [.yml] and a text file that ends with [.LICENSE]; when the directory of
    the license is an absolute path, joining the directory and the text
    file, as [build_rules_from_licenses] does, gives the text file
    itself. *)
Theorem set_file_paths_extensions (self : License.t) :
  ∃ data_file text_file,
    License.data_file (License.set_file_paths self) = Some data_file
    ∧ License.text_file (License.set_file_paths self) = Some text_file
    ∧ endswith data_file ".yml" = true
    ∧ endswith text_file ".LICENSE" = true
    ∧ (String.prefix "/" (License.src_dir self) = true ->
       path_join (License.src_dir (License.set_file_paths self)) text_file = text_file).
Proof.
  eexists _, _. split_and!; [reflexivity|reflexivity| | |].
  - apply endswith_path_join.
  - apply endswith_path_join.
  - intros Habsolute. cbn [License.src_dir License.set_file_paths].
    pose proof (prefix_path_join _ (License.key self +:+ ".LICENSE") Habsolute) as Hprefix.
    unfold path_join at 1. by rewrite Hprefix.
Qed.

(** ** A rule constructed from its files *)

Section more_file_backed_rules.
Context {expr : Type}.
Variable fs : gmap string string.
Variable saneyaml_load : string -> result (gmap string yaml).
Variable float_of_string : string -> option Q.
Variable repr : Rule.t expr -> string.
Variable str_yaml : yaml -> string.
Variable repr_str : string -> string.
Variable format_exc : exn -> string.
Variable file_name : string -> string.
Variable licensing_parse : string -> result (option expr).
Variable render : expr -> string.

Lemma load_data_keeps_identifier (data : gmap string yaml) (self loaded : Rule.t expr) :
  Rule.load_data float_of_string repr str_yaml data self = Ok loaded ->
  Rule.identifier loaded = Rule.identifier self.
Proof.
  intros Hload.
  unfold Rule.load_data in Hload. destruct self.
  destruct (negb (bool_decide _)) in Hload; [done|].
  cbn -[String.append join sorted strip] in Hload.
  destruct (negb (truthy _) && _) eqn:Hle in Hload; [done|].
  destruct (data !! "relevance") as [[|b|q|s|l]|] eqn:Hrel in Hload;
    cbn -[String.append join sorted strip] in Hload;
    try destruct (float_of_string s) in Hload;
    cbn -[String.append join sorted strip] in Hload; try done.
  all: try (destruct (negb (Qlt_bool _ _ && _)) eqn:Hrange in Hload; [done|]).
  all: destruct (py_float float_of_string _) as [mc|] in Hload; [|done].
  all: cbn -[String.append join sorted strip] in Hload.
  all: destruct (negb (Qle_bool _ _ && _)) in Hload; [done|].
  all: destruct (data !! "referenced_filenames") as [rf|] in Hload;
    [destruct (yaml_truthy rf); [destruct rf; try done|]|].
  all: cbn -[String.append join sorted strip] in Hload.
  all: destruct (data !! "notes") as [nt|] in Hload;
    [destruct (yaml_truthy nt); [destruct nt; try done|]|].
  all: cbn -[String.append join sorted strip] in Hload.
  all: match type of Hload with
       | (if ?c then _ else _) = _ => destruct c eqn:Hnotes; [done|]
       end.
  all: by injection Hload as <-.
Qed.

(** X27. A rule that is constructed from a data file and a text file keeps
    the two paths and is named after its text file; it is negative, a false
    positive, or has a license expression that is the rendered form of its
    parsed expression; and a relevance other than 0 and 100 is marked as
    stored. *)
Theorem file_backed_rule_construction (data_file rule_file : string)
    (rule : Rule.t expr) :
  data_file ≠ "" ->
  file_backed_rule fs saneyaml_load float_of_string repr str_yaml repr_str format_exc
    file_name licensing_parse render data_file rule_file = Ok rule ->
  Rule.data_file rule = Some data_file
  ∧ Rule.text_file rule = Some rule_file
  ∧ Rule.identifier rule = Some (file_name rule_file)
  ∧ Rule.is_license rule = false
  ∧ ((∃ expression,
        Rule.license_expression_object rule = Some expression
        ∧ Rule.license_expression rule = Some (render expression))
     ∨ Rule.is_negative rule = true ∨ Rule.is_false_positive rule = true)
  ∧ (Qeq_bool (Rule.relevance rule) (inject_Z 0) = false ->
     Qeq_bool (Rule.relevance rule) (inject_Z 100) = false ->
     Rule.has_stored_relevance rule = true).
Proof.
  intros Hdf. unfold file_backed_rule, Rule.__attrs_post_init__.
  cbn -[String.append Rule.load Qeq_bool inject_Z].
  destruct (String.eqb_spec rule_file "") as [->|_];
    cbn -[String.append Rule.load Qeq_bool inject_Z]; [discriminate|].
  destruct (String.eqb_spec data_file "") as [|_]; [done|].
  cbn -[String.append Rule.load Qeq_bool inject_Z].
  destruct (Rule.load _ _ _ _ _ _) as [loaded|e'] eqn:Hload; [|done].
  cbn [mbind result_bind].
  pose proof Hload as Hident. unfold Rule.load in Hident.
  cbn [Rule.data_file str_operand mbind result_bind] in Hident.
  destruct (read_file fs data_file) as [content|]; [|done].
  destruct (saneyaml_load content) as [data|]; [|done].
  cbn [mbind result_bind] in Hident. apply load_data_keeps_identifier in Hident.
  apply load_ok_inv in Hload as (Hfile & Htext & Hlicense & Hexpression).
  cbn in Hfile, Htext, Hlicense, Hident.
  destruct loaded as [cls rid ident le leo ilt iln ilr iltag ifp ineg mc okw rel hsr rf
                        notes il df tf st len hl ll th hu lu lenu thu].
  cbn in Hfile, Htext, Hlicense, Hident, Hexpression. subst.
  cbn -[String.append Qeq_bool inject_Z].
  destruct (negb (Qeq_bool rel (inject_Z 0)) && negb (Qeq_bool rel (inject_Z 100)))
    eqn:Hrel.
  all: cbn -[String.append Qeq_bool inject_Z].
  all: destruct le as [le|]; cbn -[String.append Qeq_bool inject_Z];
    [destruct (String.eqb_spec le "") as [->|Hle]; cbn -[String.append Qeq_bool inject_Z];
     [|destruct (licensing_parse le) as [[expression|]|e'']]|].
  all: intros Hrule; try discriminate Hrule; injection Hrule as <-.
  all: cbn -[Qeq_bool inject_Z].
  all: split_and!; try done.
  all: try (left; by eexists).
  all: try (right; destruct Hexpression as [?|Hspecial]; [done|exact Hspecial]).
  all: intros H0 H100; by rewrite H0, H100 in Hrel.
Qed.

End more_file_backed_rules.

Lemma file_backed_rule_construction_witness :
  ∃ rule,
    file_backed_rule rules_fs sample_yaml_load (fun _ => None) sample_repr (fun _ => "")
      id (fun _ => "") sample_file_name sample_parse id "/rules/mit.yml" "/rules/mit.RULE"
    = Ok rule
    ∧ Rule.identifier rule = Some "mit.RULE"
    ∧ Rule.has_stored_relevance rule = true.
Proof.
  destruct (file_backed_rule rules_fs sample_yaml_load (fun _ => None) sample_repr
              (fun _ => "") id (fun _ => "") sample_file_name sample_parse id
              "/rules/mit.yml" "/rules/mit.RULE") as [rule|e] eqn:Hbuild;
    [|vm_compute in Hbuild; discriminate Hbuild].
  destruct (file_backed_rule_construction rules_fs sample_yaml_load (fun _ => None)
              sample_repr (fun _ => "") id (fun _ => "") sample_file_name sample_parse id
              "/rules/mit.yml" "/rules/mit.RULE" rule) as (_ & _ & Hident & _ & _ & Hrel);
    [discriminate|exact Hbuild|].
  exists rule. split_and!; [reflexivity|exact Hident|].
  apply Hrel; vm_compute in Hbuild; injection Hbuild as <-; reflexivity.
Defined.

(** ** Where the rules built from licenses come from *)

Lemma mapM_result_inv {A B} (f : A -> result B) (l : list A) (ys : list B) :
  mapM f l = Ok ys -> ∀ y, y ∈ ys -> ∃ x, x ∈ l ∧ f x = Ok y.
Proof.
  revert ys. induction l as [|a l IH]; intros ys; cbn [mapM].
  - intros [= <-] y Hy. by apply elem_of_nil in Hy.
  - destruct (f a) as [b|] eqn:Ha; [|done]. cbn [mbind result_bind].
    destruct (mapM f l) as [ys'|]; [|done]. cbn.
    intros [= <-] y [->|Hy]%elem_of_cons.
    + exists a. split; [by left|done].
    + destruct (IH ys' eq_refl y Hy) as (x & Hx & Hfx). exists x. split; [by right|done].
Qed.

Section more_rules_from_licenses.
Context {expr : Type}.
Variable fs : gmap string string.
Variable repr : Rule.t expr -> string.
Variable repr_str : string -> string.
Variable format_exc : exn -> string.
Variable file_name : string -> string.
Variable licensing_parse : string -> result (option expr).
Variable render : expr -> string.
Variable saneyaml_load : string -> result (gmap string yaml).
Variable float_of_string : string -> option Q.
Variable str_yaml : yaml -> string.

(** X28. Every rule that [build_rules_from_licenses] yields comes from a
    license of the map: its text file is the path joined from the
    directory and the text file of the license, and exists; it has no data
    file; it is marked as built from a license and as a license text, so
    that it has an importance flag; and unless the key of the license is
    empty, its license expression is the rendered form of the parsed
    key. *)
Theorem build_rules_from_licenses_origin (licenses : gmap string License.t)
    (rules : list (Rule.t expr)) (rule : Rule.t expr) :
  build_rules_from_licenses fs repr repr_str format_exc file_name licensing_parse
    render saneyaml_load float_of_string str_yaml licenses = Ok rules ->
  rule ∈ rules ->
  ∃ license_key license_obj text_file,
    licenses !! license_key = Some license_obj
    ∧ License.text_file license_obj = Some text_file
    ∧ Rule.text_file rule = Some (path_join (License.src_dir license_obj) text_file)
    ∧ exists_ fs (path_join (License.src_dir license_obj) text_file) = true
    ∧ Rule.data_file rule = None
    ∧ Rule.is_license rule = true
    ∧ Rule.is_license_text rule = true
    ∧ Rule.has_importance_flags rule = true
    ∧ (license_key ≠ "" ->
       ∃ expression,
         licensing_parse license_key = Ok (Some expression)
         ∧ Rule.license_expression_object rule = Some expression
         ∧ Rule.license_expression rule = Some (render expression)).
Proof.
  unfold build_rules_from_licenses. intros Hbuild Hrule.
  destruct (mapM _ (map_to_list licenses)) as [yielded|] eqn:Hmap; [|done].
  cbn in Hbuild. injection Hbuild as <-.
  apply list_elem_of_omap in Hrule as (built & Hbuilt & Hsome).
  cbn in Hsome. subst built.
  destruct (mapM_result_inv _ _ _ Hmap _ Hbuilt) as ([k lic] & Hitem & Hone).
  apply elem_of_map_to_list in Hitem.
  unfold build_rule_from_license in Hone.
  destruct (License.text_file lic) as [tf|] eqn:Htf; [|done].
  destruct (exists_ fs (path_join (License.src_dir lic) tf)) eqn:Hexists; [|done].
  destruct (license_rule _ _ _ _ _ _ _ _ _ _ _ _ _ _ _) as [built|] eqn:Hlicense; [|done].
  cbn in Hone. injection Hone as ->.
  exists k, lic, tf. split_and!; try done.
  all: unfold license_rule, Rule.__attrs_post_init__ in Hlicense.
  all: cbn -[String.append Qeq_bool inject_Z] in Hlicense.
  all: destruct (String.eqb_spec (path_join (License.src_dir lic) tf) "") as [Hempty|_];
    cbn -[String.append Qeq_bool inject_Z] in Hlicense; [discriminate Hlicense|].
  all: destruct (negb (Qeq_bool _ _) && negb (Qeq_bool _ _)) in Hlicense.
  all: cbn -[String.append Qeq_bool inject_Z] in Hlicense.
  all: destruct (String.eqb_spec k "") as [->|Hk];
    cbn -[String.append Qeq_bool inject_Z] in Hlicense;
    [|destruct (licensing_parse k) as [[expression|]|e] eqn:Hparse;
      cbn -[String.append Qeq_bool inject_Z] in Hlicense];
    try discriminate Hlicense; injection Hlicense as <-; try done.
  all: intros _; by exists expression.
Qed.

End more_rules_from_licenses.

Lemma build_rules_from_licenses_origin_witness :
  ∃ rules rule,
    sample_build sample_fs sample_licenses = Ok rules
    ∧ rule ∈ rules
    ∧ Rule.text_file rule = Some "/licenses/mit.LICENSE"
    ∧ Rule.has_importance_flags rule = true.
Proof.
  destruct (sample_build sample_fs sample_licenses) as [rules|e] eqn:Hbuild;
    [|vm_compute in Hbuild; discriminate Hbuild].
  assert (Hrule : ∃ rule, rule ∈ rules).
  { vm_compute in Hbuild. injection Hbuild as <-. eexists. by left. }
  destruct Hrule as [rule Hrule].
  destruct (build_rules_from_licenses_origin sample_fs sample_repr id (fun _ => "")
              sample_file_name sample_parse id (fun _ => Ok ∅) (fun _ => None)
              (fun _ => "") sample_licenses rules rule Hbuild Hrule)
    as (k & lic & tf & Hlic & Htf & Htext & _ & _ & _ & _ & Hflags & _).
  exists rules, rule. split_and!; [reflexivity|exact Hrule| |exact Hflags].
  unfold sample_licenses in Hlic.
  apply lookup_insert_Some in Hlic as [[<- <-]|[_ Hlic]];
    [|by rewrite lookup_empty in Hlic].
  injection Htf as <-. exact Htext.
Defined.
